(** * Bounded KV-cache generation: cache sizing, eviction policies, driver

    A shallow embedding of [generation_utils.py] and [prompt_compression.py].

    Conventions of the embedding.
    - Python [int] is [Z].  A Python number that may be a [float] is a
      rational [Q]: an integer value stands for the [int], any other
      value for the [float] (IEEE binary64) of that exact value, and a
      product with a [float] is rounded to the nearest binary64 ([Py.mul]).
      Infinities and NaN are not represented.
    - The entries of torch floating tensors are exact rationals: their
      rounding error is not represented, nor are infinities other than the
      [-inf] written by [masked_fill].
    - A Python exception is a value [Raise e] of the [result] monad.
    - A torch tensor is a nested list, outermost dimension first; where
      the code writes into a tensor that has other names, tensors live in
      a heap and are named by references.
    - The transformer ([model.forward], [min_cache_length]), [softmax]
      and [argmax], and the L2 norm of a vector are parameters.
    - [print] calls (warnings) have no effect on the results and are dropped. *)

From Stdlib Require Import ZArith QArith Qround Qabs Qpower List Lia Lqa String.
From stdpp Require Import base list sorting.

Local Open Scope Z_scope.

(** ** Exceptions *)

Inductive exn : Type :=
| AssertionError
| IndexError
| RuntimeError
| TypeError
| ValueError
| ZeroDivisionError.

Inductive result (A : Type) : Type :=
| Ok (a : A)
| Raise (e : exn).

Arguments Ok {A} a.
Arguments Raise {A} e.

#[global] Instance result_ret : MRet result := fun _ a => Ok a.
#[global] Instance result_bind : MBind result := fun _ _ k m =>
  match m with
  | Ok a => k a
  | Raise e => Raise e
  end.
#[global] Instance result_fmap : FMap result := fun _ _ f m =>
  match m with
  | Ok a => Ok (f a)
  | Raise e => Raise e
  end.

Definition py_assert (b : bool) : result unit :=
  if b then Ok tt else Raise AssertionError.

Definition raises {A : Type} (m : result A) : Prop := exists e, m = Raise e.

Fixpoint map_result {A B : Type} (f : A -> result B) (l : list A) : result (list B) :=
  match l with
  | [] => Ok []
  | a :: l' => b ← f a; bs ← map_result f l'; Ok (b :: bs)
  end.

(** ** Python built-ins *)

Module Py.

(** [range(a, b)] *)
Definition range (a b : Z) : list Z :=
  map (fun i => a + Z.of_nat i) (seq 0 (Z.to_nat (b - a))).

(** [int(x)] on a float: truncation toward zero. *)
Definition int (x : Q) : Z :=
  if Qle_bool 0 x then Qfloor x else Qceiling x.

(** [round(x)] on a float: nearest integer, ties to the even one. *)
Definition round (x : Q) : Z :=
  let f := Qfloor x in
  match Qcompare (x - inject_Z f) (1 # 2) with
  | Lt => f
  | Gt => f + 1
  | Eq => if Z.even f then f else f + 1
  end.

(** A number with an integer value: read as an [int]. *)
Definition is_integer (x : Q) : bool := Qeq_bool (inject_Z (Qfloor x)) x.

(** [floor(log2 x)] for [0 < x]: the difference of the bit lengths of
    numerator and denominator, or one less. *)
Definition exponent (x : Q) : Z :=
  let e := Z.log2 (Qnum x) - Z.log2 (Zpos (Qden x)) in
  if Qle_bool (2 ^ e) x then e else e - 1.

(** [float(x)]: the binary64 number nearest to [x], a tie going to the
    even significand.  The significand has 53 bits, down to the unit
    [2^-1074] of the subnormal numbers.  (Beyond the largest float
    Python yields [inf] or raises [OverflowError]; here the exponent is
    not bounded above.) *)
Definition float (x : Q) : Q :=
  let x := Qred x in
  if Qeq_bool x 0 then 0%Q
  else
    let a := Qabs x in
    let u := Z.max (exponent a - 52) (-1074) in
    let m := round (a / 2 ^ u) in
    Qred ((if Qle_bool 0 x then inject_Z m else - inject_Z m) * 2 ^ u).

(** [x * y]: exact on two ints; otherwise both operands are taken as
    floats and the product is rounded. *)
Definition mul (x y : Q) : Q :=
  if is_integer x && is_integer y then (x * y)%Q
  else float (float x * float y).

(** [min(l)]: raises on an empty sequence. *)
Definition min (l : list Z) : result Z :=
  match l with
  | [] => Raise ValueError
  | x :: l' => Ok (fold_left Z.min l' x)
  end.

(** [a % b] and [a // b]: floored, the sign follows the divisor, as
    [Z.modulo] and [Z.div]; a zero divisor raises. *)
Definition mod_ (a b : Z) : result Z :=
  if b =? 0 then Raise ZeroDivisionError else Ok (a mod b).

Definition floordiv (a b : Z) : result Z :=
  if b =? 0 then Raise ZeroDivisionError else Ok (a / b).

(** Start of the slice [l[k:]] and end of the slice [l[:k]] for a
    sequence of length [n]: a negative bound counts from the end, and
    both are clipped to [0..n]. *)
Definition clip (n : nat) (k : Z) : nat :=
  Z.to_nat (Z.min (Z.of_nat n) (if k <? 0 then Z.max 0 (Z.of_nat n + k) else k)).

Definition slice_to {A : Type} (l : list A) (k : Z) : list A :=
  firstn (clip (length l) k) l.

Definition slice_from {A : Type} (l : list A) (k : Z) : list A :=
  skipn (clip (length l) k) l.

End Py.

(** ** CacheSizer ([generation_utils.py]) *)

(** Modelled from the spec: [find_multiple] is imported from the [model]
    module, which is not part of the sources at hand.  Section 4.1: "Round
    the result up to the next multiple of [multipleOf]".  (Nothing is said
    for a [multipleOf] that is not positive; the statements ask for
    [0 < multiple_of].) *)
Definition find_multiple (n k : Z) : Z :=
  if n mod k =? 0 then n else n + k - n mod k.

Definition normalize_cache_length
    (max_cache_length : Q) (max_seq_length : Z) (multiple_of : Z) : result Z :=
  l ← (if negb (Qle_bool max_cache_length 0) && Qle_bool max_cache_length 1
        then Ok (Py.round (Py.mul (inject_Z max_seq_length) max_cache_length))
        else
          _ ← py_assert (Qeq_bool (inject_Z (Py.int max_cache_length)) max_cache_length);
          let l := Py.int max_cache_length in
          Ok (if l >? max_seq_length then max_seq_length else l));
  Ok (Z.min (find_multiple l multiple_of) max_seq_length).

(** [cache_kwargs] as the caller passes it, and as it is handed to
    [model.setup_caches] once [setup_caches] has rewritten its entries. *)
Record cache_kwargs : Type := {
  kw_max_cache_length : list Q;
  kw_drop_amount : Q + list Z;
  kw_global_tokens : Z;
  kw_cache_strategy : string;
}.

Record cache_setup : Type := {
  max_cache_length : list Z;
  drop_amount : list Z;
  global_tokens : Z;
  cache_strategy : string;
  token_ids : option (list Z * list Z);
}.

Section SetupCaches.

(** The collaborators: [model.config.n_layer] and the tokenizer's
    [special_ids()] and [punctuation_ids()]. *)
Variable n_layer : Z.
Variables special_ids punctuation_ids : list Z.

Definition setup_caches (max_seq_length : Z) (kw : cache_kwargs)
  : result cache_setup :=
  lens ← map_result (fun l => normalize_cache_length l max_seq_length 8)
               (kw_max_cache_length kw);
  r ← Py.mod_ n_layer (Z.of_nat (length lens));
  _ ← py_assert (r =? 0);
  tile_size ← Py.floordiv n_layer (Z.of_nat (length lens));
  let lens := flat_map (fun item => map (fun _ => item) (Py.range 0 tile_size)) lens in
  let drops :=
    match kw_drop_amount kw with
    | inr ds => ds
    | inl d => map (fun l => Z.max (Py.int (Py.mul d (inject_Z l))) 1) lens
    end in
  m ← Py.min lens;
  _ ← py_assert (kw_global_tokens kw <=? m);
  Ok {| max_cache_length := lens;
        drop_amount := drops;
        global_tokens := kw_global_tokens kw;
        cache_strategy := kw_cache_strategy kw;
        token_ids :=
          if String.eqb (kw_cache_strategy kw) "fastgen"
          then Some (special_ids, punctuation_ids) else None |}.

End SetupCaches.

(** ** Tensors ([torch]) *)

Module Torch.

Definition sum (l : list Q) : Q := fold_right Qplus 0%Q l.

(** [t.shape] of a (rectangular) nested list, one level per dimension. *)
Definition shape2 {A : Type} (t : list (list A)) : list nat := map length t.
Definition shape3 {A : Type} (t : list (list (list A))) : list (list nat) :=
  map shape2 t.

(** [rows.mean(dim=0)] of a matrix given by its rows: entry [i] is the
    mean of column [i].  (Without rows torch yields NaN, which has no
    counterpart here: the statements below ask for at least one row.) *)
Definition mean_rows (rows : list (list Q)) : list Q :=
  map (fun i => (sum (map (fun row => nth i row 0%Q) rows)
                 / inject_Z (Z.of_nat (length rows)))%Q)
      (seq 0 (length (hd [] rows))).

(** [AvgPool1d(kernel_size, stride=1, padding, ceil_mode=False,
    count_include_pad=False)] on one channel: output [j] averages the
    inputs at [j - padding .. j - padding + kernel_size - 1] that lie
    inside the input, and divides by how many there are. *)
Definition avg_pool1d (kernel_size padding : Z) (x : list Q) : list Q :=
  let n := Z.of_nat (length x) in
  map (fun j =>
         let lo := Z.max 0 (j - padding) in
         let hi := Z.min n (j - padding + kernel_size) in
         (sum (map (fun i => nth (Z.to_nat i) x 0%Q) (Py.range lo hi))
          / inject_Z (hi - lo))%Q)
      (Py.range 0 (n + 2 * padding - kernel_size + 1)).

(** [x[..., k:] = v] for a negative or positive bound [k]. *)
Definition fill_from (x : list Q) (k : Z) (v : Q) : list Q :=
  let a := Py.clip (length x) k in
  firstn a x ++ repeat v (length x - a).

(** [x.topk(k, dim=-1)] on one row, as (value, index) pairs, best first.
    [better a b] says that score [a] is selected no later than [b]:
    [b <= a] for [largest=True], [a <= b] for [largest=False].  torch
    leaves the choice among equal scores open; the sort used here
    resolves it one way, and nothing proved below depends on which. *)
Definition topk {S : Type} (better : S -> S -> bool)
    (x : list S) (k : Z) : result (list (S * nat)) :=
  if (k <? 0) || (Z.of_nat (length x) <? k) then Raise RuntimeError
  else Ok (firstn (Z.to_nat k)
             (merge_sort (fun a b : S * nat => Is_true (better (fst a) (fst b)))
                         (combine x (seq 0 (length x))))).

(** [.indices.sort(dim=-1).values] *)
Definition sort_indices {S : Type} (sel : list (S * nat)) : list Z :=
  map Z.of_nat (merge_sort Nat.le (map snd sel)).

(** [t[:, :, idx]] with a one-dimensional index tensor: an index in
    [-n .. -1] counts from the end, one outside [-n .. n-1] raises. *)
Definition wrap_index (n : nat) (i : Z) : result nat :=
  if (i <? - Z.of_nat n) || (Z.of_nat n <=? i) then Raise IndexError
  else Ok (Z.to_nat (if i <? 0 then i + Z.of_nat n else i)).

Definition index_select {A : Type} (rows : list A) (idx : list Z)
  : result (list A) :=
  map_result (fun i =>
                j ← wrap_index (length rows) i;
                match rows !! j with
                | Some r => Ok r
                | None => Raise IndexError
                end) idx.

Definition index_dim2 {A : Type} (t : list (list (list A))) (idx : list Z)
  : result (list (list (list A))) :=
  map_result (map_result (fun rows => index_select rows idx)) t.

(** [t.gather(2, idx)]: entry [b, h, j] is [t[b, h, idx[b, h, j]]].  The
    index tensor may not be larger than [t] in the other dimensions and
    its entries must lie in [0 .. n-1].  With the index expanded along a
    trailing dimension of full size, whole rows are gathered. *)
Definition gather_row {A : Type} (rows : list A) (idx : list Z)
  : result (list A) :=
  map_result (fun i =>
                if i <? 0 then Raise RuntimeError
                else match rows !! Z.to_nat i with
                     | Some r => Ok r
                     | None => Raise RuntimeError
                     end) idx.

Fixpoint zip_result {A B C : Type} (f : A -> B -> result C)
    (xs : list A) (ys : list B) : result (list C) :=
  match ys, xs with
  | [], _ => Ok []
  | y :: ys', x :: xs' =>
      c ← f x y; cs ← zip_result f xs' ys'; Ok (c :: cs)
  | _ :: _, [] => Raise RuntimeError
  end.

Definition gather_dim2 {A : Type}
    (t : list (list (list A))) (idx : list (list (list Z)))
  : result (list (list (list A))) :=
  zip_result (zip_result gather_row) t idx.

(** [t.squeeze(0)]: the leading dimension is dropped when its size is 1. *)
Inductive squeezed (A : Type) : Type :=
| Dropped (t : A)
| Kept (t : list A).
Arguments Dropped {A} t.
Arguments Kept {A} t.

Definition squeeze0 {A : Type} (t : list A) : squeezed A :=
  match t with
  | [a] => Dropped a
  | _ => Kept t
  end.

(** Tensors live in a heap and are named by references, so that an
    in-place write is seen through every name of the tensor and through
    no other. *)
Definition heap (T : Type) : Type := list T.

Definition alloc {T : Type} (t : T) (h : heap T) : nat * heap T :=
  (length h, h ++ [t]).

Definition load {T : Type} `{Inhabited T} (r : nat) (h : heap T) : T := h !!! r.

Definition store {T : Type} (r : nat) (t : T) (h : heap T) : heap T :=
  <[r := t]> h.

Definition clone {T : Type} `{Inhabited T} (r : nat) (h : heap T) : nat * heap T :=
  alloc (load r h) h.

End Torch.

(** ** Eviction policies ([prompt_compression.py]) *)

Module PromptCompressorRecentGlobal.

Section Call.
Context {A : Type}.
(** [self.global_tokens], [self.max_cache_length] *)
Variables global_tokens max_cache_length : Z.

Definition __call__ (input_pos : list Z) (k_val v_val : list (list (list A)))
  : result (list Z * list (list (list A)) * list (list (list A))) :=
  let n := Z.of_nat (length input_pos) in
  let keep_idxs :=
    Py.range 0 global_tokens
    ++ Py.range (n - max_cache_length + global_tokens) n in
  _ ← py_assert (Z.of_nat (length keep_idxs) =? max_cache_length);
  k_val ← Torch.index_dim2 k_val keep_idxs;
  v_val ← Torch.index_dim2 v_val keep_idxs;
  Ok (keep_idxs, k_val, v_val).
End Call.

End PromptCompressorRecentGlobal.

Module PromptCompressorSnapKV.

(** Set by [__init__], after (and so over) any keyword argument. *)
Definition kernel_size : Z := 5.
Definition observation_len : Z := 16.

(** [self.pool]: [AvgPool1d(kernel_size, stride=1, padding=kernel_size // 2,
    ceil_mode=False, count_include_pad=False)] on a [B, H, N] tensor;
    torch rejects an input without positions. *)
Definition pool (t : list (list (list Q))) : result (list (list (list Q))) :=
  map_result (map_result (fun x =>
    match x with
    | [] => Raise RuntimeError
    | _ => Ok (Torch.avg_pool1d kernel_size (kernel_size / 2) x)
    end)) t.

Section Call.
Context {A : Type}.
(** [self.head_specific], [self.max_cache_length] *)
Variable head_specific : bool.
Variable max_cache_length : Z.

(** [attn] has shape [B, H, Q, N]; [k_val] and [v_val] have shape
    [B, H, N, D], a position's [D] entries being one [A]. *)
Definition __call__ (input_pos : list Z) (k_val v_val : list (list (list A)))
    (attn : list (list (list (list Q))))
  : result (Torch.squeezed (list (list Z))
            * list (list (list A)) * list (list (list A))
            * list (list (list Q))) :=
  _ ← py_assert head_specific;
  let h : Torch.heap (list (list (list Q))) := [] in
  let '(priority, h) :=
    Torch.alloc
      (map (map (fun rows =>
              Torch.mean_rows (Py.slice_from rows (- observation_len)))) attn) h in
  let prev_shape := Torch.shape3 (Torch.load priority h) in
  let '(attn_history, h) := Torch.clone priority h in
  pooled ← pool (Torch.load priority h);
  let '(priority, h) := Torch.alloc pooled h in
  _ ← py_assert (bool_decide (Torch.shape3 (Torch.load priority h) = prev_shape));
  let h :=
    Torch.store priority
      (map (map (fun x => Torch.fill_from x (- observation_len) 1%Q))
           (Torch.load priority h)) h in
  keep_idxs ←
    map_result (map_result (fun x =>
      sel ← Torch.topk (fun a b => Qle_bool b a) x max_cache_length;
      Ok (Torch.sort_indices sel))) (Torch.load priority h);
  attn_history ← Torch.gather_dim2 (Torch.load attn_history h) keep_idxs;
  k_val_compressed ← Torch.gather_dim2 k_val keep_idxs;
  v_val_compressed ← Torch.gather_dim2 v_val keep_idxs;
  Ok (Torch.squeeze0 keep_idxs, k_val_compressed, v_val_compressed, attn_history).
End Call.

End PromptCompressorSnapKV.

Module PromptCompressorL2.

(** An eviction score: a key norm, or the [-inf] of [masked_fill]. *)
Inductive score : Type :=
| NegInf
| Fin (x : Q).

Definition score_leb (a b : score) : bool :=
  match a, b with
  | NegInf, _ => true
  | Fin _, NegInf => false
  | Fin x, Fin y => Qle_bool x y
  end.

(** [x.masked_fill(mask, -inf)] on one row; a mask of size 1 is
    broadcast, any other size mismatch raises. *)
Definition masked_fill (x : list Q) (mask : list bool) : result (list score) :=
  if (length mask =? length x)%nat
  then Ok (zip_with (fun v (m : bool) => if m then NegInf else Fin v) x mask)
  else match mask with
       | [m] => Ok (map (fun v => if m then NegInf else Fin v) x)
       | _ => Raise RuntimeError
       end.

Section Call.
(** One position's key or value vector, and
    [torch.linalg.vector_norm(_, ord=2, dim=-1)] on it: the norm is a
    square root, which the rationals do not have, so it is taken as
    given. *)
Context {A : Type}.
Variable vector_norm : A -> Q.
(** [self.global_tokens], [self.recent_window], [self.max_cache_length] *)
Variables global_tokens recent_window max_cache_length : Z.

Definition locality_mask (input_pos : list Z) : list bool :=
  map (fun p => (p <? global_tokens)
                || (Z.of_nat (length input_pos) - recent_window <=? p))
      input_pos.

Definition __call__ (input_pos : list Z) (k_val v_val : list (list (list A)))
  : result (list (list (list Z))
            * list (list (list A)) * list (list (list A))) :=
  let key_norm := map (map (map vector_norm)) k_val in
  let locality_mask := locality_mask input_pos in
  eviction_scores ←
    map_result (map_result (fun x => masked_fill x locality_mask)) key_norm;
  keep_idxs ←
    map_result (map_result (fun x =>
      sel ← Torch.topk score_leb x max_cache_length;
      Ok (Torch.sort_indices sel))) eviction_scores;
  k_val_compressed ← Torch.gather_dim2 k_val keep_idxs;
  v_val_compressed ← Torch.gather_dim2 v_val keep_idxs;
  Ok (keep_idxs, k_val_compressed, v_val_compressed).
End Call.

End PromptCompressorL2.

(** ** Generation driver ([generation_utils.py]) *)

Module Tensor1.

(** [torch.full((n,), v)] *)
Definition full (n : Z) (v : Z) : result (list Z) :=
  if n <? 0 then Raise RuntimeError else Ok (repeat v (Z.to_nat n)).

(** [t[i]] and [t[i] = v] *)
Definition get (t : list Z) (i : Z) : result Z :=
  j ← Torch.wrap_index (length t) i;
  match t !! j with
  | Some v => Ok v
  | None => Raise IndexError
  end.

Definition set (t : list Z) (i : Z) (v : Z) : result (list Z) :=
  j ← Torch.wrap_index (length t) i;
  Ok (<[j := v]> t).

(** [t[lo:hi] = vals]: the bounds are clipped as for any slice; [vals]
    must have the size of the slice, or size 1 (it is then broadcast). *)
Definition set_slice (t : list Z) (lo hi : Z) (vals : list Z) : result (list Z) :=
  let a := Py.clip (length t) lo in
  let b := Nat.max a (Py.clip (length t) hi) in
  if (length vals =? b - a)%nat
  then Ok (firstn a t ++ vals ++ skipn b t)
  else match vals with
       | [v] => Ok (firstn a t ++ repeat v (b - a) ++ skipn b t)
       | _ => Raise RuntimeError
       end.

(** [t.view(1, -1)]: a batch of one holding the same tokens; for a
    tensor without elements, the shape [1, 0]. *)
Definition view_1_m1 (t : list Z) : list Z := t.

(** [torch.where(t == v)[0][0]]: the first position holding [v]. *)
Fixpoint first_index (v : Z) (t : list Z) : option nat :=
  match t with
  | [] => None
  | x :: t' => if x =? v then Some O else option_map S (first_index v t')
  end.

(** [torch.arange(lo, hi)]: a bound below the start is rejected. *)
Definition arange (lo hi : Z) : result (list Z) :=
  if hi <? lo then Raise RuntimeError else Ok (Py.range lo hi).

(** [torch.tril(torch.ones(n, n, dtype=torch.bool))] *)
Definition tril_ones (n : nat) : list (list bool) :=
  map (fun i => map (fun j => (j <=? i)%nat) (seq 0 n)) (seq 0 n).

End Tensor1.

Section Driver.

(** The model collaborator: its state (weights and KV caches), what a
    forward call returns and how it changes the state, its
    [min_cache_length()]; and torch's [softmax(logits[0, -1], dim=-1)]
    and [argmax], the latter yielding a position in the vocabulary.  The
    logits have one row per token given to the model. *)
Variables model logits probs : Type.
Variable forward :
  model -> list Z -> list Z -> option (list (list bool)) -> logits * model.
Variable min_cache_length : model -> Z.
Variable softmax_last : logits -> probs.
Variable argmax : probs -> nat.

Definition greedy (lg : logits) (next_token : option Z) : Z * probs :=
  let probs := softmax_last lg in
  let idx_next :=
    match next_token with
    | None => Z.of_nat (argmax probs)
    | Some t => t
    end in
  (idx_next, probs).

(** In [greedy], [logits[0, -1]] is the row of the last prompt token:
    after a forward call on no token there is no such row. *)
Definition prefill (m : model) (x : list Z) (input_pos : list Z)
    (next_token : option Z) : result (Z * probs * model) :=
  let causal_mask := Tensor1.tril_ones (length input_pos) in
  let '(lg, m) := forward m x input_pos (Some causal_mask) in
  _ ← (match x with
       | [] => Raise IndexError
       | _ => Ok tt
       end);
  Ok (greedy lg next_token, m).

Definition decode_one_token (m : model) (x : list Z) (input_pos : list Z)
    (next_token : option Z) : result (Z * probs * model) :=
  _ ← py_assert (length input_pos =? 1)%nat;
  let '(lg, m) := forward m x input_pos None in
  Ok (greedy lg next_token, m).

(** Truth value of [terminator_ids and next_token in terminator_ids]. *)
Definition in_terminators (terminator_ids : option (list Z)) (tok : Z) : bool :=
  match terminator_ids with
  | None => false
  | Some ids => bool_decide (tok ∈ ids)
  end.

Section DecodeLoop.
Variable terminator_ids : option (list Z).
Variable prefix : option (list Z).

(** The body of the [for i in range(num_new_tokens)] loop, run over
    the values of [i] still to come; [break] ends the recursion. *)
Fixpoint decode_loop (steps : list Z) (m : model) (cur_token input_pos : list Z)
  : result (list Z * list probs * model) :=
  match steps with
  | [] => Ok ([], [], m)
  | i :: steps' =>
      let teacher_force :=
        match prefix with
        | Some p => i <? Z.of_nat (length p)
        | None => false
        end in
      next_token ←
        (if teacher_force
         then t ← Tensor1.get (default [] prefix) i; Ok (Some t)
         else Ok None);
      '(next_token, next_prob, m) ←
        decode_one_token m cur_token input_pos next_token;
      if in_terminators terminator_ids next_token && negb teacher_force
      then Ok ([next_token], [next_prob], m)
      else
        '(new_tokens, new_probs, m) ←
          decode_loop steps' m [next_token] (map (Z.add 1) input_pos);
        Ok (next_token :: new_tokens, next_prob :: new_probs, m)
  end.
End DecodeLoop.

Definition decode_n_tokens (m : model) (cur_token input_pos : list Z)
    (num_new_tokens : Z) (terminator_ids prefix : option (list Z))
  : result (list Z * list probs * model) :=
  decode_loop terminator_ids prefix (Py.range 0 num_new_tokens)
              m cur_token input_pos.

(** Lines 259-272 of [generate]: the prompt fed to prefill, the
    teacher-forced prefix, and the updated [max_new_tokens] and
    [prompt_length]. *)
Definition split_prompt (min_cache_length : Z) (feed_long_prompts : bool)
    (prompt : list Z) (max_new_tokens : Z)
  : list Z * option (list Z) * Z * Z :=
  let prompt_length := Z.of_nat (length prompt) in
  let max_prompt_len := min_cache_length - 1 in
  if (feed_long_prompts && (prompt_length >? max_prompt_len))
     || (prompt_length =? min_cache_length)
  then
    let prefix := Py.slice_from prompt max_prompt_len in
    (Py.slice_to prompt max_prompt_len, Some prefix,
     max_new_tokens + Z.of_nat (length prefix), max_prompt_len)
  else (prompt, None, max_new_tokens, prompt_length).

Definition generate (m : model) (prompt : list Z) (max_new_tokens : Z)
    (terminator_ids : option (list Z)) (feed_long_prompts : bool)
  : result (list Z * list probs * model) :=
  let '(prompt, prefix, max_new_tokens, prompt_length) :=
    split_prompt (min_cache_length m) feed_long_prompts prompt max_new_tokens in
  seq ← Tensor1.full (prompt_length + max_new_tokens) (-1);
  seq ← Tensor1.set_slice seq 0 prompt_length prompt;
  input_pos ← Tensor1.arange 0 prompt_length;
  let x := Tensor1.view_1_m1 prompt in
  forced ←
    match prefix with
    | None => Ok None
    | Some p => t ← Tensor1.get p 0; Ok (Some t)
    end;
  '(next_token, next_tok_probs, m) ← prefill m x input_pos forced;
  seq ← Tensor1.set seq prompt_length next_token;
  let input_pos := [prompt_length] in
  '(generated_tokens, generated_tok_probs, m) ←
    decode_n_tokens m [next_token] input_pos (max_new_tokens - 1)
      terminator_ids (option_map (fun p => Py.slice_from p 1) prefix);
  seq ←
    (if (0 <? length generated_tokens)%nat
     then Tensor1.set_slice seq (prompt_length + 1)
            (prompt_length + 1 + Z.of_nat (length generated_tokens))
            generated_tokens
     else Ok seq);
  let seq :=
    match Tensor1.first_index (-1) seq with
    | Some i => firstn i seq
    | None => seq
    end in
  Ok (seq, next_tok_probs :: generated_tok_probs, m).

End Driver.

Arguments greedy {logits probs} softmax_last argmax lg next_token.
Arguments prefill {model logits probs} forward softmax_last argmax m x input_pos next_token.
Arguments decode_one_token {model logits probs} forward softmax_last argmax m x input_pos next_token.
Arguments decode_loop {model logits probs} forward softmax_last argmax
  terminator_ids prefix steps m cur_token input_pos.
Arguments decode_n_tokens {model logits probs} forward softmax_last argmax
  m cur_token input_pos num_new_tokens terminator_ids prefix.
Arguments generate {model logits probs} forward min_cache_length softmax_last argmax
  m prompt max_new_tokens terminator_ids feed_long_prompts.

(** ** Vocabulary of the statements *)

(** [out] holds the entries of [rows] at the positions [idx], in the order
    of [idx]. *)
Definition gathered {A : Type} (idx : list Z) (rows out : list A) : Prop :=
  Forall2 (fun i r => 0 <= i /\ rows !! Z.to_nat i = Some r) idx out.

(** The same for every batch entry and head of a [B, H, N, ...] tensor,
    with one index list for all of them. *)
Definition gathered_dim2 {A : Type} (idx : list Z)
    (t out : list (list (list A))) : Prop :=
  Forall2 (Forall2 (gathered idx)) t out.

(** All rows along dimension 2 have [n] entries. *)
Definition dim2_is {A : Type} (n : nat) (t : list (list (list A))) : Prop :=
  Forall (Forall (fun rows => length rows = n)) t.

(** Row [h] of batch entry [b] of a [B, H, ...] tensor. *)
Definition head_row {X : Type} (t : list (list X)) (b h : nat) : option X :=
  t !! b ≫= fun heads => heads !! h.

(** L2: the locality mask at slot [i], and the slots it protects. *)
Definition l2_protected (global_tokens recent_window : Z) (input_pos : list Z)
    (i : nat) : bool :=
  nth i (PromptCompressorL2.locality_mask global_tokens recent_window input_pos) false.

Definition l2_protected_slots (global_tokens recent_window : Z)
    (input_pos : list Z) : list nat :=
  List.filter (l2_protected global_tokens recent_window input_pos)
              (seq 0 (length input_pos)).

(** SnapKV: the raw priority, one score per head and key position: the
    mean over the last [observation_len] query rows of the attention
    weights. *)
Definition snapkv_raw_priority (attn : list (list (list (list Q))))
  : list (list (list Q)) :=
  map (map (fun rows =>
         Torch.mean_rows
           (Py.slice_from rows (- PromptCompressorSnapKV.observation_len)))) attn.

(** Attention weights over [n] key positions: every head has at least one
    query row, and every row is a (sub)distribution over the [n] keys, as
    a softmax produces. *)
Definition attention_row (n : nat) (row : list Q) : Prop :=
  length row = n /\ Forall (fun a => 0 <= a)%Q row /\ (Torch.sum row <= 1)%Q.

Definition attention_weights (n : nat) (attn : list (list (list (list Q)))) : Prop :=
  Forall (Forall (fun rows => rows <> [] /\ Forall (attention_row n) rows)) attn.

(** Driver: the length of the teacher-forced prefix, 0 without one
    (generated token [j], counted from 0 at the token of the prefill, is
    forced when [j] is below it); and a sequence cut at the first
    sentinel. *)
Definition prefix_length (prefix : option (list Z)) : nat :=
  match prefix with
  | Some p => length p
  | None => 0
  end.

Definition truncate_at_sentinel (seq : list Z) : list Z :=
  match Tensor1.first_index (-1) seq with
  | Some i => firstn i seq
  | None => seq
  end.

(** A small model to run the driver on: its state counts the forward
    calls, and call number [k] makes the greedy choice [emissions[k]]. *)
Module Toy.

Definition forward (m : nat) (x input_pos : list Z)
    (mask : option (list (list bool))) : nat * nat := (m, S m).

Definition min_cache_length (m : nat) : Z := 4.

Definition softmax_last (lg : nat) : nat := lg.

Definition emissions : list Z := [11; 12; 13; 14; 50256; 15; 16; 17].

Definition argmax (p : nat) : nat := Z.to_nat (nth p emissions 0).

Definition generate := generate forward min_cache_length softmax_last argmax.

End Toy.

(** ** More of [generation_utils.py] and [prompt_compression.py] *)

(** [max(l)]: raises on an empty sequence. *)
Definition py_max (l : list Z) : result Z :=
  match l with
  | [] => Raise ValueError
  | x :: l' => Ok (fold_left Z.max l' x)
  end.

(** [compute_max_seq_length], with [model.config.block_size] for the
    model; [prompt_lens] holds the encoded prompts. *)
Definition compute_max_seq_length {T : Type} (block_size : Z)
    (prompt_lens : list (list T)) (max_new_tokens : Z) : result (Z * Z) :=
  max_prompt_length ← py_max (map (fun p => Z.of_nat (length p)) prompt_lens);
  let max_seq_length := max_prompt_length + max_new_tokens in
  let max_seq_length :=
    if max_seq_length >? block_size then block_size else max_seq_length in
  Ok (max_prompt_length, max_seq_length).

(** The entries of [cache_kwargs] as [setup_caches] leaves them (it
    rewrites the dictionary in place): what a second call on the same
    dictionary is given. *)
Definition cache_kwargs_after (st : cache_setup) : cache_kwargs :=
  {| kw_max_cache_length := map inject_Z (max_cache_length st);
     kw_drop_amount := inr (drop_amount st);
     kw_global_tokens := global_tokens st;
     kw_cache_strategy := cache_strategy st |}.

(** A forward function that also records what it is called with: the
    tokens and the positions of every call, in order. *)
Definition recording {model logits : Type}
    (forward : model -> list Z -> list Z -> option (list (list bool)) -> logits * model)
    (m : model * list (list Z * list Z)) (x input_pos : list Z)
    (mask : option (list (list bool)))
  : logits * (model * list (list Z * list Z)) :=
  let '(lg, m') := forward (fst m) x input_pos mask in
  (lg, (m', snd m ++ [(x, input_pos)])).

(** ** Constructing a compressor ([prompt_compression.py]) *)

Module PromptCompressor.

(** The three subclasses. *)
Inductive compressor : Type :=
| RecentGlobal
| SnapKV
| L2.

(** The values that end up in an instance's attributes: the numbers and
    flags of the cache configuration, and SnapKV's
    [AvgPool1d(kernel_size, stride, padding, ceil_mode, count_include_pad)]. *)
Inductive value : Type :=
| Int (z : Z)
| Float (q : Q)
| Bool (b : bool)
| AvgPool1d (kernel_size stride padding : Z) (ceil_mode count_include_pad : bool).

(** An instance's [__dict__], the latest assignment first. *)
Definition instance : Type := list (string * value).

Definition setattr (self : instance) (key : string) (v : value) : instance :=
  (key, v) :: self.

Fixpoint getattr (self : instance) (key : string) : option value :=
  match self with
  | [] => None
  | (k, v) :: self' => if String.eqb k key then Some v else getattr self' key
  end.

(** [is_compatible]: [self.head_specific] is read right after [__init__]
    has set it to the flag it was given. *)
Definition is_compatible (cls : compressor) (self : instance) : bool :=
  match cls with
  | RecentGlobal => true
  | SnapKV | L2 =>
      match getattr self "head_specific" with
      | Some (Bool b) => b
      | _ => false
      end
  end.


(** The call [self.is_compatible()]: an instance attribute of that name
    comes before the method of the class, and none of the values is
    callable without an argument. *)
Definition call_is_compatible (cls : compressor) (self : instance) : result bool :=
  match getattr self "is_compatible" with
  | Some _ => Raise TypeError
  | None => Ok (is_compatible cls self)
  end.

(** [PromptCompressor.__init__]; [kwargs] is given by its items, in
    order.  (Python binds a keyword [head_specific] to the parameter, so
    it is not among them.) *)
Definition base__init__ (cls : compressor) (head_specific : bool)
    (kwargs : list (string * value)) : result instance :=
  let self := fold_left (fun self kv => setattr self (fst kv) (snd kv)) kwargs [] in
  let self := setattr self "head_specific" (Bool head_specific) in
  compatible ← call_is_compatible cls self;
  _ ← py_assert compatible;
  Ok self.

(** The subclasses' [__init__]: the base class first, then, for SnapKV,
    the kernel size, the observation length and the pooling layer. *)
Definition __init__ (cls : compressor) (head_specific : bool)
    (kwargs : list (string * value)) : result instance :=
  self ← base__init__ cls head_specific kwargs;
  match cls with
  | SnapKV =>
      let self := setattr self "kernel_size" (Int 5) in
      let self := setattr self "observation_len" (Int 16) in
      let kernel_size :=
        match getattr self "kernel_size" with
        | Some (Int z) => z
        | _ => 0
        end in
      Ok (setattr self "pool"
            (AvgPool1d kernel_size 1 (kernel_size / 2) false false))
  | RecentGlobal | L2 => Ok self
  end.


End PromptCompressor.

(** The forward calls of a decode loop started on [cur] at position
    [pos], having produced [toks]: call [j] is at position [pos + j], on
    [cur] first and then on the token produced before. *)
Definition fed_back (pos : Z) (cur : list Z) (toks : list Z)
  : list (list Z * list Z) :=
  imap (fun j x => (x, [pos + Z.of_nat j]))
       (take (length toks) (cur :: map (fun t => [t]) toks)).

(** * Properties *)

(** ** The [result] monad *)

Lemma bind_Ok {A B : Type} (m : result A) (k : A -> result B) (b : B) :
  m ≫= k = Ok b -> exists a, m = Ok a /\ k a = Ok b.
Proof. destruct m as [a|e]; [eauto | discriminate]. Qed.

Tactic Notation "inv_bind" hyp(H) "as" simple_intropattern(a) simple_intropattern(Ha) :=
  apply bind_Ok in H; destruct H as (a & Ha & H).

Lemma map_result_Ok_Forall2 {A B : Type} (f : A -> result B) (l : list A) (r : list B) :
  map_result f l = Ok r <-> Forall2 (fun a b => f a = Ok b) l r.
Proof.
  revert r. induction l as [|a l IH]; intros r; simpl.
  - split.
    + intros [= <-]. constructor.
    + intros H. inversion H. reflexivity.
  - split.
    + intros H. inv_bind H as b Hb. inv_bind H as bs Hbs. injection H as <-.
      constructor; [assumption | now apply IH].
    + intros H. inversion H as [|? b ? bs Hab Hl]; subst.
      apply IH in Hl. cbn. rewrite Hab. cbn. rewrite Hl. reflexivity.
Qed.

Lemma map_result_length {A B : Type} (f : A -> result B) (l : list A) (r : list B) :
  map_result f l = Ok r -> length r = length l.
Proof.
  intros H. apply map_result_Ok_Forall2 in H.
  symmetry. eapply Forall2_length, H.
Qed.

(** ** CacheSizer *)

Lemma range_length (a b : Z) : length (Py.range a b) = Z.to_nat (b - a).
Proof. unfold Py.range. now rewrite length_map, length_seq. Qed.

Lemma find_multiple_next (n k : Z) :
  0 < k ->
  (k | find_multiple n k) /\ n <= find_multiple n k < n + k.
Proof.
  intros Hk. unfold find_multiple.
  pose proof (Z.mod_pos_bound n k Hk) as Hb.
  pose proof (Z.div_mod n k ltac:(lia)) as Hd.
  destruct (Z.eqb_spec (n mod k) 0) as [E|E].
  - split; [| lia]. exists (n / k). lia.
  - split; [| lia]. exists (n / k + 1). lia.
Qed.

Lemma in_unit_interval (f : Q) :
  (0 < f)%Q -> (f <= 1)%Q -> negb (Qle_bool f 0) && Qle_bool f 1 = true.
Proof.
  intros H0 H1. apply andb_true_iff. split.
  - apply negb_true_iff. destruct (Qle_bool f 0) eqn:E; [| reflexivity].
    apply Qle_bool_iff in E. exfalso. eapply Qlt_not_le; eassumption.
  - now apply Qle_bool_iff.
Qed.

Lemma round_nearest (x : Q) :
  (x - (1 # 2) <= inject_Z (Py.round x) <= x + (1 # 2))%Q
  /\ ((x - inject_Z (Py.round x) == 1 # 2)%Q
      \/ (inject_Z (Py.round x) - x == 1 # 2)%Q ->
      Z.even (Py.round x) = true).
Proof.
  unfold Py.round. pose proof (Qfloor_le x) as Hlo. pose proof (Qlt_floor x) as Hhi.
  set (f := Qfloor x) in *. rewrite inject_Z_plus in Hhi.
  change (inject_Z 1) with 1%Q in Hhi.
  destruct (Qcompare (x - inject_Z f) (1 # 2)) eqn:E.
  - apply Qeq_alt in E. destruct (Z.even f) eqn:Ev.
    + split; [split; lra |]. intros _. exact Ev.
    + rewrite inject_Z_plus. change (inject_Z 1) with 1%Q.
      split; [split; lra |]. intros _.
      rewrite Z.even_add, Ev. reflexivity.
  - apply Qlt_alt in E. split; [split; lra |]. intros [H|H]; lra.
  - apply Qgt_alt in E. rewrite inject_Z_plus. change (inject_Z 1) with 1%Q.
    split; [split; lra |]. intros [H|H]; lra.
Qed.

(** ** Floats *)

Lemma two_power_pos (u : Z) : (0 < 2 ^ u)%Q.
Proof. apply Qpower_0_lt. reflexivity. Qed.

Lemma exponent_lower (x : Q) : (0 < x)%Q -> (2 ^ Py.exponent x <= x)%Q.
Proof.
  intros Hx. unfold Py.exponent.
  set (e := Z.log2 (Qnum x) - Z.log2 (Z.pos (Qden x))).
  destruct (Qle_bool (2 ^ e) x) eqn:E; [now apply Qle_bool_iff |].
  destruct x as [n d]. cbn [Qnum Qden] in e.
  assert (0 < n) as Hn by (unfold Qlt in Hx; simpl in Hx; lia).
  destruct (Z.log2_spec n Hn) as [Hnl _].
  destruct (Z.log2_spec (Z.pos d) ltac:(lia)) as [_ Hdu].
  rewrite (Qmake_Qdiv n d).
  apply Qle_shift_div_l; [unfold Qlt; simpl; lia |].
  assert (inject_Z (Z.pos d) <= 2 ^ (Z.log2 (Z.pos d) + 1))%Q as Hd.
  { change 2%Q with (inject_Z 2).
    rewrite <- Zpower_Qpower by (pose proof (Z.log2_nonneg (Z.pos d)); lia).
    rewrite <- Zle_Qle. unfold Z.succ in Hdu. lia. }
  assert (2 ^ Z.log2 n <= inject_Z n)%Q as Hnq.
  { change 2%Q with (inject_Z 2). rewrite <- Zpower_Qpower by apply Z.log2_nonneg.
    now rewrite <- Zle_Qle. }
  assert (2 ^ (e - 1) * 2 ^ (Z.log2 (Z.pos d) + 1) == 2 ^ Z.log2 n)%Q as Hsplit.
  { rewrite <- Qpower_plus by discriminate. unfold e.
    replace (Z.log2 n - Z.log2 (Z.pos d) - 1 + (Z.log2 (Z.pos d) + 1))
      with (Z.log2 n) by lia.
    reflexivity. }
  pose proof (two_power_pos (e - 1)) as Hp.
  eapply Qle_trans; [| exact Hnq]. rewrite <- Hsplit.
  apply Qmult_le_l; assumption.
Qed.

Lemma float_Qeq (x y : Q) : (x == y)%Q -> Py.float x = Py.float y.
Proof. intros E. unfold Py.float. now rewrite (Qred_complete _ _ E). Qed.

(** [float] rounds to nearest: the error is at most half a unit in the
    last place, that is, one part in [2^53] of the number, or half the
    subnormal unit. *)
Lemma float_error (x : Q) :
  (Qabs (Py.float x - x) <= Qabs x * 2 ^ (-53) + 2 ^ (-1075))%Q.
Proof.
  rewrite <- (Qred_correct x) at 2 3. unfold Py.float.
  set (y := Qred x).
  pose proof (two_power_pos (-53)) as H53. pose proof (two_power_pos (-1075)) as H1075.
  pose proof (Qabs_nonneg y) as Hy0.
  destruct (Qeq_bool y 0) eqn:E0.
  - apply Qeq_bool_iff in E0. rewrite E0. change (Qabs (0 - 0)) with 0%Q.
    change (Qabs 0) with 0%Q. lra.
  - assert (~ y == 0)%Q as Hne by (intros H; apply Qeq_bool_iff in H; congruence).
    set (a := Qabs y) in *.
    assert (0 < a)%Q as Ha.
    { destruct (Qlt_le_dec 0 a) as [|Hle]; [assumption |].
      exfalso. apply Hne. unfold a in Hle.
      apply Qabs_Qle_condition in Hle. lra. }
    set (u := Z.max (Py.exponent a - 52) (-1074)).
    pose proof (two_power_pos u) as Ht. set (t := (2 ^ u)%Q) in *.
    destruct (round_nearest (a / t)) as [[Hlo Hhi] _].
    set (m := inject_Z (Py.round (a / t))) in *.
    rewrite Qred_correct.
    assert (a / t * t == a)%Q as Hat by (field; lra).
    assert (t * (1 # 2) <= a * 2 ^ (-53) + 2 ^ (-1075))%Q as Hulp.
    { unfold t, u.
      destruct (Z.max_spec (Py.exponent a - 52) (-1074)) as [[_ ->] | [_ ->]].
      - assert (2 ^ (-1074) * (1 # 2) == 2 ^ (-1075))%Q as ->
          by (vm_compute; reflexivity).
        assert (0 <= a * 2 ^ (-53))%Q by nra. lra.
      - assert (2 ^ (Py.exponent a - 52) * (1 # 2)
                == 2 ^ Py.exponent a * 2 ^ (-53))%Q as ->.
        { replace (Py.exponent a - 52) with (Py.exponent a + (-52)) by lia.
          rewrite Qpower_plus by discriminate.
          assert (2 ^ (-52) * (1 # 2) == 2 ^ (-53))%Q as <-
            by (vm_compute; reflexivity).
          ring. }
        pose proof (exponent_lower a Ha) as He.
        assert (2 ^ Py.exponent a * 2 ^ (-53) <= a * 2 ^ (-53))%Q
          by (apply Qmult_le_compat_r; [exact He | lra]).
        lra. }
    assert (- (t * (1 # 2)) <= m * t - a <= t * (1 # 2))%Q as Hdiff.
    { rewrite <- Hat at 1 2. split; nra. }
    apply Qabs_Qle_condition.
    destruct (Qle_bool 0 y) eqn:Es.
    + apply Qle_bool_iff in Es.
      assert (y == a)%Q as -> by (unfold a; now rewrite Qabs_pos).
      split; lra.
    + assert (y < 0)%Q as Hneg.
      { destruct (Qlt_le_dec y 0) as [|Hle]; [assumption |].
        apply Qle_bool_iff in Hle. congruence. }
      assert (y == - a)%Q as -> by (unfold a; rewrite Qabs_neg by lra; ring).
      split; lra.
Qed.

Lemma is_integer_inject_Z (c : Z) : Py.is_integer (inject_Z c) = true.
Proof. unfold Py.is_integer. rewrite Qfloor_Z. apply Qeq_bool_iff. reflexivity. Qed.

Lemma mul_ints (n c : Z) :
  Py.mul (inject_Z n) (inject_Z c) = (inject_Z n * inject_Z c)%Q.
Proof. unfold Py.mul. now rewrite !is_integer_inject_Z. Qed.

(** The product of an int that converts exactly and a float: the exact
    product, rounded once. *)
Lemma mul_int_float (n : Z) (f : Q) :
  (0 < f)%Q -> (f <= 1)%Q ->
  (Py.float f == f)%Q -> (Py.float (inject_Z n) == inject_Z n)%Q ->
  (Py.mul (inject_Z n) f == Py.float (inject_Z n * f))%Q.
Proof.
  intros H0 H1 Hf Hn. unfold Py.mul. rewrite is_integer_inject_Z. cbn [andb].
  destruct (Py.is_integer f) eqn:Ei.
  - unfold Py.is_integer in Ei. apply Qeq_bool_iff in Ei.
    assert (Qfloor f = 1) as Hfl.
    { assert (0 < inject_Z (Qfloor f) <= 1)%Q as [Hlo Hhi] by (rewrite Ei; auto).
      change 0%Q with (inject_Z 0) in Hlo. change 1%Q with (inject_Z 1) in Hhi.
      rewrite <- Zlt_Qlt in Hlo. rewrite <- Zle_Qle in Hhi. lia. }
    rewrite Hfl in Ei.
    assert (inject_Z n * f == inject_Z n)%Q as E
      by (rewrite <- Ei; change (inject_Z 1) with 1%Q; ring).
    rewrite (float_Qeq _ _ E), Hn. exact E.
  - assert (Py.float (inject_Z n) * Py.float f == inject_Z n * f)%Q as E
      by (rewrite Hf, Hn; reflexivity).
    rewrite (float_Qeq _ _ E). reflexivity.
Qed.

(** C4.  For a fraction [0 < f <= 1] (a float) and a [max_seq_length]
    within the range of the floats, [normalize_cache_length] returns
    [round(max_seq_length * f)] rounded up to the next multiple of
    [multiple_of] and then clamped to [max_seq_length].  The product is
    the float product: for a [max_seq_length] that converts to a float
    exactly (as every int up to [2^53] does) it is the exact product
    rounded to the nearest float, within one part in [2^53] of it; and
    [round] gives an integer nearest to that float.  The result never
    exceeds [max_seq_length], and it is a multiple of [multiple_of]
    unless the clamp made it [max_seq_length]. *)
Theorem normalize_cache_length_fraction (f : Q) (max_seq_length multiple_of : Z) :
  (0 < f)%Q -> (f <= 1)%Q -> 0 < multiple_of ->
  (Py.float f == f)%Q ->
  Z.abs max_seq_length <= (2 ^ 53 - 1) * 2 ^ 971 ->
  let x := (inject_Z max_seq_length * f)%Q in
  let p := Py.mul (inject_Z max_seq_length) f in
  let r := Py.round p in
  let up := find_multiple r multiple_of in
  normalize_cache_length f max_seq_length multiple_of = Ok (Z.min up max_seq_length)
  /\ ((Py.float (inject_Z max_seq_length) == inject_Z max_seq_length)%Q ->
      (p == Py.float x)%Q
      /\ (Qabs (p - x) <= Qabs x * 2 ^ (-53) + 2 ^ (-1075))%Q)
  /\ (p - (1 # 2) <= inject_Z r <= p + (1 # 2))%Q
  /\ (multiple_of | up) /\ r <= up < r + multiple_of
  /\ Z.min up max_seq_length <= max_seq_length
  /\ ((multiple_of | Z.min up max_seq_length)
      \/ Z.min up max_seq_length = max_seq_length).
Proof.
  intros H0 H1 Hk Hf _ x p r up.
  destruct (find_multiple_next r multiple_of Hk) as [Hdiv Hrange].
  split; [| split; [| split; [| split; [| split; [| split]]]]].
  - unfold normalize_cache_length. rewrite (in_unit_interval f H0 H1). reflexivity.
  - intros Hn.
    pose proof (mul_int_float max_seq_length f H0 H1 Hf Hn) as Hp. fold x p in Hp.
    split; [exact Hp |]. rewrite Hp. apply float_error.
  - apply round_nearest.
  - exact Hdiv.
  - exact Hrange.
  - lia.
  - destruct (Z.min_spec up max_seq_length) as [[_ ->]|[_ ->]]; [left | right];
      [assumption | reflexivity].
Qed.

(** The example of the specification: [f = 0.33], [max_seq_length = 100]
    gives [round(33.0) = 33], then 40.  The rounding of the product
    shows at [0.14 * 175], a float above 24.5 (the exact product of the
    decimals is 24.5, which would round to 24), and at [0.1 * 5], the
    float 0.5 (the float 0.1 is above 1/10, and 5 times it would round
    to 1). *)
Lemma normalize_cache_length_fraction_witness :
  normalize_cache_length (Py.float (33 # 100)) 100 8 = Ok 40
  /\ 40 <= 100 /\ (8 | 40)
  /\ normalize_cache_length (Py.float (14 # 100)) 175 8 = Ok 32
  /\ normalize_cache_length (Py.float (1 # 10)) 5 8 = Ok 0
  /\ (Py.mul 5 (Py.float (1 # 10)) == 1 # 2)%Q.
Proof.
  destruct (normalize_cache_length_fraction (Py.float (33 # 100)) 100 8)
    as (Heq & _ & _ & Hdiv & _ & Hle & _);
    [vm_compute; reflexivity | vm_compute; discriminate | lia
     | vm_compute; reflexivity | vm_compute; discriminate |].
  destruct (normalize_cache_length_fraction (Py.float (14 # 100)) 175 8)
    as (Heq' & _);
    [vm_compute; reflexivity | vm_compute; discriminate | lia
     | vm_compute; reflexivity | vm_compute; discriminate |].
  destruct (normalize_cache_length_fraction (Py.float (1 # 10)) 5 8)
    as (Heq'' & Hp & _);
    [vm_compute; reflexivity | vm_compute; discriminate | lia
     | vm_compute; reflexivity | vm_compute; discriminate |].
  destruct Hp as [Hp _]; [vm_compute; reflexivity |].
  split; [rewrite Heq; vm_compute; reflexivity |].
  split; [lia |]. split; [now exists 5 |].
  split; [rewrite Heq'; vm_compute; reflexivity |].
  split; [rewrite Heq''; vm_compute; reflexivity |].
  change (inject_Z 5) with 5%Q in Hp. rewrite Hp. vm_compute. reflexivity.
Defined.

Lemma normalize_whole (c max_seq_length : Z) :
  1 < c -> c <= max_seq_length -> (8 | c) ->
  normalize_cache_length (inject_Z c) max_seq_length 8 = Ok c.
Proof.
  intros Hc Hle [q Hq]. unfold normalize_cache_length.
  assert (Qle_bool (inject_Z c) 1 = false) as ->.
  { destruct (Qle_bool (inject_Z c) 1) eqn:E; [| reflexivity].
    apply Qle_bool_iff in E. unfold Qle in E. simpl in E. lia. }
  rewrite andb_false_r.
  assert (Py.int (inject_Z c) = c) as ->.
  { unfold Py.int.
    destruct (Qle_bool 0 (inject_Z c)); [apply Qfloor_Z | apply Qceiling_Z]. }
  assert (Qeq_bool (inject_Z c) (inject_Z c) = true) as ->
    by (apply Qeq_bool_iff; reflexivity).
  cbn. f_equal.
  assert ((c >? max_seq_length) = false) as -> by lia.
  unfold find_multiple.
  assert (c mod 8 = 0) as -> by (subst c; apply Z.mod_mul; lia).
  simpl. lia.
Qed.

Lemma flat_map_const_range {A : Type} (l : list A) (t : Z) :
  flat_map (fun item => map (fun _ => item) (Py.range 0 t)) l
  = flat_map (fun item => repeat item (Z.to_nat t)) l.
Proof.
  apply flat_map_ext. intros a. unfold Py.range.
  rewrite Z.sub_0_r, map_map.
  generalize 0%nat. induction (Z.to_nat t) as [|n IH]; intros s; simpl.
  - reflexivity.
  - now rewrite IH.
Qed.

(** C5.  [setup_caches] raises when the number of groups does not divide
    [n_layer]; when it returns, the per-layer capacities are the groups'
    normalized lengths, each repeated [n_layer / len(groups)] times in a
    row, in the groups' order.  For the groups [[64, 128]] over 8 layers
    (and a sequence length that does not clamp them) this is
    [[64, 64, 64, 64, 128, 128, 128, 128]]. *)
Theorem setup_caches_contiguous_blocks
    (n_layer : Z) (special_ids punctuation_ids : list Z)
    (max_seq_length : Z) (kw : cache_kwargs) :
  let groups := kw_max_cache_length kw in
  let run := setup_caches n_layer special_ids punctuation_ids max_seq_length kw in
  ((groups = [] \/ n_layer mod Z.of_nat (length groups) <> 0) -> raises run)
  /\ (forall st, run = Ok st ->
        exists lens,
          map_result (fun l => normalize_cache_length l max_seq_length 8) groups = Ok lens
          /\ max_cache_length st
             = flat_map (fun c => repeat c (Z.to_nat (n_layer / Z.of_nat (length groups))))
                        lens)
  /\ (groups = [inject_Z 64; inject_Z 128] -> n_layer = 8 ->
      128 <= max_seq_length -> kw_global_tokens kw <= 64 ->
      exists st, run = Ok st
                 /\ max_cache_length st = [64; 64; 64; 64; 128; 128; 128; 128]).
Proof.
  intros groups run. subst run. unfold setup_caches. fold groups.
  repeat split.
  - intros Hbad.
    destruct (map_result _ groups) as [lens|e] eqn:Hn; [| eexists; reflexivity].
    pose proof (map_result_length _ _ _ Hn) as Hlen. cbn.
    unfold Py.mod_. rewrite Hlen.
    destruct (Z.eqb_spec (Z.of_nat (length groups)) 0) as [E|E];
      [eexists; reflexivity |].
    cbn. destruct Hbad as [Hnil | Hmod].
    + rewrite Hnil in E. simpl in E. lia.
    + destruct (Z.eqb_spec (n_layer mod Z.of_nat (length groups)) 0) as [E'|E'];
        [contradiction | eexists; reflexivity].
  - intros st H.
    inv_bind H as lens Hlens. exists lens. split; [assumption |].
    pose proof (map_result_length _ _ _ Hlens) as Hlen. rewrite Hlen in H.
    inv_bind H as r Hr. inv_bind H as u Hu. inv_bind H as tile_size Ht.
    unfold Py.floordiv in Ht.
    destruct (Z.of_nat (length groups) =? 0); [discriminate |].
    injection Ht as <-.
    inv_bind H as m Hm. inv_bind H as u' Hu'. injection H as <-. simpl.
    apply flat_map_const_range.
  - intros Hg -> Hmsl Hgt. rewrite Hg. cbn [map_result].
    rewrite (normalize_whole 64 max_seq_length) by (try lia; now exists 8).
    rewrite (normalize_whole 128 max_seq_length) by (try lia; now exists 16).
    cbn [mbind result_bind length].
    change (Py.mod_ 8 (Z.of_nat 2)) with (Ok 0 : result Z).
    change (Py.floordiv 8 (Z.of_nat 2)) with (Ok 4 : result Z).
    cbn [mbind result_bind py_assert Z.eqb].
    change (Py.range 0 4) with [0; 1; 2; 3].
    cbn [flat_map map app Py.min fold_left mbind result_bind].
    match goal with |- context [kw_global_tokens kw <=? ?m] =>
      assert ((kw_global_tokens kw <=? m) = true) as -> by lia end.
    eexists. split; reflexivity.
Qed.

Lemma setup_caches_contiguous_blocks_witness :
  let kw := {| kw_max_cache_length := [inject_Z 64; inject_Z 128];
               kw_drop_amount := inl (1 # 2)%Q;
               kw_global_tokens := 4;
               kw_cache_strategy := "recent_global" |} in
  (exists st, setup_caches 8 [] [] 512 kw = Ok st
              /\ max_cache_length st = [64; 64; 64; 64; 128; 128; 128; 128])
  /\ raises (setup_caches 7 [] [] 512 kw).
Proof.
  intros kw. split.
  - apply (setup_caches_contiguous_blocks 8 [] [] 512 kw);
      [reflexivity | reflexivity | lia | simpl; lia].
  - apply (setup_caches_contiguous_blocks 7 [] [] 512 kw).
    right. intros H. vm_compute in H. discriminate H.
Defined.

(** ** Ranges and indexing *)

Lemma range_In (a b x : Z) : In x (Py.range a b) <-> a <= x < b.
Proof.
  unfold Py.range. rewrite in_map_iff. split.
  - intros (i & <- & Hi). apply in_seq in Hi. lia.
  - intros H. exists (Z.to_nat (x - a)). split; [lia |].
    apply in_seq. lia.
Qed.

Lemma range_sorted (a b : Z) : StronglySorted Z.lt (Py.range a b).
Proof.
  unfold Py.range. generalize (Z.to_nat (b - a)) as n. intros n.
  generalize 0%nat as s. induction n as [|n IH]; intros s; simpl.
  - constructor.
  - constructor; [apply IH |].
    apply List.Forall_forall. intros x Hx.
    apply in_map_iff in Hx. destruct Hx as (i & <- & Hi).
    apply in_seq in Hi. lia.
Qed.

Lemma StronglySorted_app_lt (l1 l2 : list Z) :
  StronglySorted Z.lt l1 -> StronglySorted Z.lt l2 ->
  (forall x y, In x l1 -> In y l2 -> x < y) ->
  StronglySorted Z.lt (l1 ++ l2).
Proof.
  intros H1 H2 Hlt. induction H1 as [|x l1 Hs IH Hx]; simpl; [assumption |].
  constructor.
  - apply IH. intros a b Ha. apply Hlt. now right.
  - apply Forall_app. split; [assumption |].
    apply List.Forall_forall. intros y Hy. apply Hlt; [now left | assumption].
Qed.

Lemma map_result_total {A B : Type} (P : A -> B -> Prop) (f : A -> result B) (l : list A) :
  Forall (fun a => exists b, f a = Ok b /\ P a b) l ->
  exists r, map_result f l = Ok r /\ Forall2 P l r.
Proof.
  induction 1 as [|a l (b & Hb & HP) _ (r & Hr & HF)]; simpl.
  - exists []. split; [reflexivity | constructor].
  - exists (b :: r). rewrite Hb. cbn. rewrite Hr. cbn.
    split; [reflexivity | now constructor].
Qed.

Lemma index_select_in_range {A : Type} (rows : list A) (idx : list Z) :
  Forall (fun i => 0 <= i < Z.of_nat (length rows)) idx ->
  exists out, Torch.index_select rows idx = Ok out /\ gathered idx rows out.
Proof.
  intros H. apply map_result_total.
  eapply Forall_impl; [exact H |]. intros i Hi. cbn beta in Hi.
  unfold Torch.wrap_index.
  assert ((i <? - Z.of_nat (length rows)) = false) as -> by lia.
  assert ((Z.of_nat (length rows) <=? i) = false) as -> by lia.
  assert ((i <? 0) = false) as -> by lia.
  cbn.
  destruct (rows !! Z.to_nat i) as [r|] eqn:E.
  - exists r. split; [reflexivity | split; [lia | reflexivity]].
  - apply lookup_ge_None in E. lia.
Qed.

Lemma index_dim2_in_range {A : Type} (n : nat) (t : list (list (list A))) (idx : list Z) :
  dim2_is n t ->
  Forall (fun i => 0 <= i < Z.of_nat n) idx ->
  exists out, Torch.index_dim2 t idx = Ok out /\ gathered_dim2 idx t out.
Proof.
  intros Ht Hidx. apply map_result_total.
  eapply Forall_impl; [exact Ht |]. intros heads Hheads. cbn beta in Hheads.
  apply map_result_total.
  eapply Forall_impl; [exact Hheads |]. intros rows Hrows. cbn beta in Hrows.
  apply index_select_in_range. now rewrite Hrows.
Qed.

(** ** RecentGlobal *)

Lemma recent_global_keep_length (g c n : Z) :
  Z.of_nat (length (Py.range 0 g ++ Py.range (n - c + g) n))
  = Z.max g 0 + Z.max (c - g) 0.
Proof. rewrite length_app, !range_length. lia. Qed.

Lemma recent_global_returns {A : Type} (g c : Z) (input_pos : list Z)
    (k_val v_val : list (list (list A))) :
  let n := Z.of_nat (length input_pos) in
  let keep := Py.range 0 g ++ Py.range (n - c + g) n in
  0 <= g -> g <= c -> c <= n ->
  dim2_is (length input_pos) k_val -> dim2_is (length input_pos) v_val ->
  exists k' v',
    PromptCompressorRecentGlobal.__call__ g c input_pos k_val v_val = Ok (keep, k', v')
    /\ gathered_dim2 keep k_val k' /\ gathered_dim2 keep v_val v'.
Proof.
  intros n keep Hg Hgc Hcn Hk Hv.
  assert (Forall (fun i => 0 <= i < Z.of_nat (length input_pos)) keep) as Hidx.
  { apply List.Forall_forall. intros i Hi. apply in_app_iff in Hi.
    destruct Hi as [Hi|Hi]; apply range_In in Hi; fold n; lia. }
  destruct (index_dim2_in_range _ k_val keep Hk Hidx) as (k' & Ek & Gk).
  destruct (index_dim2_in_range _ v_val keep Hv Hidx) as (v' & Ev & Gv).
  exists k', v'. split; [| split; assumption].
  unfold PromptCompressorRecentGlobal.__call__. fold n. fold keep.
  assert ((Z.of_nat (length keep) =? c) = true) as ->.
  { unfold keep. rewrite recent_global_keep_length. lia. }
  cbn. rewrite Ek. cbn. rewrite Ev. reflexivity.
Qed.

(** C1.  On a span of [n] positions, with [0 <= global_tokens <=
    max_cache_length <= n], RecentGlobal returns the keep indices
    [0 .. global_tokens-1] followed by [n - max_cache_length + global_tokens
    .. n-1]: exactly [max_cache_length] of them, ascending; and the key
    and value buffers it returns are the input buffers gathered at these
    indices.  (For [n = 32], 4 global tokens and capacity 16: [0..3] and
    [20..31].) *)
Theorem recent_global_keep_indices {A : Type} (g c : Z) (input_pos : list Z)
    (k_val v_val : list (list (list A))) :
  let n := Z.of_nat (length input_pos) in
  0 <= g -> g <= c -> c <= n ->
  dim2_is (length input_pos) k_val -> dim2_is (length input_pos) v_val ->
  exists keep k' v',
    PromptCompressorRecentGlobal.__call__ g c input_pos k_val v_val = Ok (keep, k', v')
    /\ keep = Py.range 0 g ++ Py.range (n - c + g) n
    /\ (forall i, In i keep <-> (0 <= i < g \/ n - c + g <= i < n))
    /\ Z.of_nat (length keep) = c
    /\ StronglySorted Z.lt keep
    /\ gathered_dim2 keep k_val k' /\ gathered_dim2 keep v_val v'.
Proof.
  intros n Hg Hgc Hcn Hk Hv.
  destruct (recent_global_returns g c input_pos k_val v_val Hg Hgc Hcn Hk Hv)
    as (k' & v' & Hcall & Gk & Gv).
  eexists _, k', v'. split; [exact Hcall |]. fold n.
  split; [reflexivity |]. split; [| split; [| split; [| split; assumption]]].
  - intros i. rewrite in_app_iff, !range_In. reflexivity.
  - rewrite recent_global_keep_length. lia.
  - apply StronglySorted_app_lt; try apply range_sorted.
    intros x y Hx Hy. apply range_In in Hx, Hy. lia.
Qed.

Lemma recent_global_keep_indices_witness :
  exists k' v',
    PromptCompressorRecentGlobal.__call__ 4 16 (Py.range 0 32)
      [[Py.range 100 132]] [[Py.range 200 232]]
    = Ok ([0; 1; 2; 3; 20; 21; 22; 23; 24; 25; 26; 27; 28; 29; 30; 31], k', v')
    /\ k' = [[[100; 101; 102; 103; 120; 121; 122; 123;
               124; 125; 126; 127; 128; 129; 130; 131]]].
Proof.
  destruct (recent_global_keep_indices 4 16 (Py.range 0 32)
              [[Py.range 100 132]] [[Py.range 200 232]])
    as (keep & k' & v' & Hcall & Hkeep & _).
  - lia.
  - lia.
  - rewrite range_length. lia.
  - repeat constructor.
  - repeat constructor.
  - exists k', v'. subst keep. split; [exact Hcall |].
    vm_compute in Hcall. congruence.
Defined.

(** C9 (as stated, refuted).  A span of 32 positions with capacity 16 is
    not exactly [max_cache_length] long, and the call returns. *)
Lemma recent_global_longer_span_returns :
  let input_pos := Py.range 0 32 in
  Z.of_nat (length input_pos) <> 16
  /\ ~ raises (PromptCompressorRecentGlobal.__call__ 4 16 input_pos
                 [[Py.range 100 132]] [[Py.range 200 232]]).
Proof.
  split.
  - vm_compute. discriminate.
  - intros [e He]. vm_compute in He. discriminate He.
Qed.

(** C9 (amended).  The assertion of RecentGlobal compares the number of
    keep indices with [max_cache_length], not the length of the span: the
    call raises [AssertionError] whenever [global_tokens] is negative or
    above [max_cache_length], and on every span at least
    [max_cache_length] long it returns, with exactly [max_cache_length]
    keep indices, when [0 <= global_tokens <= max_cache_length]. *)
Theorem recent_global_assertion {A : Type} (g c : Z) (input_pos : list Z)
    (k_val v_val : list (list (list A))) :
  let n := Z.of_nat (length input_pos) in
  let run := PromptCompressorRecentGlobal.__call__ g c input_pos k_val v_val in
  ((g < 0 \/ c < g) -> run = Raise AssertionError)
  /\ (0 <= g -> g <= c -> c <= n ->
      dim2_is (length input_pos) k_val -> dim2_is (length input_pos) v_val ->
      exists keep k' v', run = Ok (keep, k', v') /\ Z.of_nat (length keep) = c).
Proof.
  intros n run. split.
  - intros Hbad. unfold run, PromptCompressorRecentGlobal.__call__.
    rewrite recent_global_keep_length.
    assert ((Z.max g 0 + Z.max (c - g) 0 =? c) = false) as -> by lia.
    reflexivity.
  - intros Hg Hgc Hcn Hk Hv.
    destruct (recent_global_returns g c input_pos k_val v_val Hg Hgc Hcn Hk Hv)
      as (k' & v' & Hcall & _).
    eexists _, k', v'. split; [exact Hcall |].
    rewrite recent_global_keep_length. lia.
Qed.

Lemma recent_global_assertion_witness :
  PromptCompressorRecentGlobal.__call__ 17 16 (Py.range 0 16)
    [[Py.range 100 116]] [[Py.range 200 216]] = Raise AssertionError
  /\ exists keep k' v',
       PromptCompressorRecentGlobal.__call__ 4 16 (Py.range 0 32)
         [[Py.range 100 132]] [[Py.range 200 232]] = Ok (keep, k', v')
       /\ Z.of_nat (length keep) = 16.
Proof.
  split.
  - apply (recent_global_assertion 17 16 (Py.range 0 16)
             [[Py.range 100 116]] [[Py.range 200 216]]). lia.
  - apply (recent_global_assertion 4 16 (Py.range 0 32)
             [[Py.range 100 132]] [[Py.range 200 232]]);
      [lia | lia | rewrite range_length; lia
       | repeat constructor | repeat constructor].
Defined.

(** ** Top-k selection *)

Lemma combine_seq_lookup {Sc : Type} (x : list Sc) (s : Sc) (i start : nat) :
  In (s, i) (combine x (seq start (length x))) <-> (start <= i)%nat /\ x !! (i - start)%nat = Some s.
Proof.
  revert start. induction x as [|a x IH]; intros start; simpl.
  - split; [tauto | intros [_ H]; discriminate].
  - rewrite IH. split.
    + intros [[= -> ->] | [Hle Hx]].
      * split; [lia |]. now rewrite Nat.sub_diag.
      * split; [lia |]. replace (i - start)%nat with (S (i - S start)) by lia.
        exact Hx.
    + intros [Hle Hx]. destruct (i - start)%nat as [|d] eqn:E.
      * left. injection Hx as ->. f_equal. lia.
      * right. split; [lia |]. replace (i - S start)%nat with d by lia. exact Hx.
Qed.

Lemma map_snd_combine_seq {Sc : Type} (x : list Sc) (start : nat) :
  map snd (combine x (seq start (length x))) = seq start (length x).
Proof.
  revert start. induction x as [|a x IH]; intros start; simpl;
    [reflexivity | now rewrite IH].
Qed.

Lemma In_firstn_In {B : Type} (n : nat) (l : list B) (b : B) :
  In b (firstn n l) -> In b l.
Proof.
  intros H. rewrite <- (firstn_skipn n l). apply in_app_iff. now left.
Qed.

Lemma NoDup_firstn {B : Type} (n : nat) (l : list B) :
  List.NoDup l -> List.NoDup (firstn n l).
Proof.
  intros H. rewrite <- (firstn_skipn n l) in H.
  eapply NoDup_app_remove_r, H.
Qed.

Section TopK.

Context {Sc : Type}.
Variable better : Sc -> Sc -> bool.
Hypothesis better_total : forall a b, better a b = true \/ better b a = true.
Hypothesis better_trans :
  forall a b c, better a b = true -> better b c = true -> better a c = true.

Let R : relation (Sc * nat) := fun a b => Is_true (better (fst a) (fst b)).

#[local] Instance R_total : Total R.
Proof.
  intros a b. unfold R.
  destruct (better_total (fst a) (fst b)) as [H|H]; rewrite H; simpl; tauto.
Qed.

#[local] Instance R_trans : Transitive R.
Proof.
  intros a b c. unfold R. rewrite !Is_true_true. apply better_trans.
Qed.

(** What [topk] returns: [k] distinct positions of the row with their
    scores, none of them worse than a position left out. *)
Lemma topk_spec (x : list Sc) (k : Z) (sel : list (Sc * nat)) :
  Torch.topk better x k = Ok sel ->
  0 <= k <= Z.of_nat (length x)
  /\ length sel = Z.to_nat k
  /\ List.NoDup (map snd sel)
  /\ (forall s i, In (s, i) sel -> x !! i = Some s)
  /\ (forall s i s' j, In (s, i) sel -> x !! j = Some s' ->
        ~ In j (map snd sel) -> better s s' = true).
Proof.
  unfold Torch.topk. fold R.
  destruct ((k <? 0) || (Z.of_nat (length x) <? k)) eqn:Hk; [discriminate |].
  apply orb_false_iff in Hk. destruct Hk as [Hk0 Hkn].
  intros [= <-].
  set (all := combine x (seq 0 (length x))).
  pose proof (merge_sort_Permutation R all) as Hperm.
  pose proof (StronglySorted_merge_sort R all) as Hsorted.
  set (sorted := merge_sort R all) in *.
  assert (length sorted = length x) as Hlen.
  { rewrite (Permutation_length Hperm). unfold all.
    rewrite length_combine, length_seq. lia. }
  assert (forall s i, In (s, i) sorted <-> x !! i = Some s) as Hin.
  { intros s i. rewrite <- !list_elem_of_In, Hperm, list_elem_of_In.
    unfold all. rewrite combine_seq_lookup, Nat.sub_0_r.
    split; [tauto | split; [lia | assumption]]. }
  assert (List.NoDup (map snd sorted)) as Hnd.
  { eapply Permutation_NoDup.
    - apply Permutation_map. symmetry. exact Hperm.
    - unfold all. rewrite map_snd_combine_seq. apply List.seq_NoDup. }
  split; [lia |]. split; [rewrite length_firstn; lia |].
  split; [rewrite <- firstn_map; now apply NoDup_firstn |].
  split.
  - intros s i Hsi. apply Hin. eapply In_firstn_In; eassumption.
  - intros s i s' j Hsi Hj Hout.
    assert (In (s', j) (skipn (Z.to_nat k) sorted)) as Hrest.
    { apply Hin in Hj. rewrite <- (firstn_skipn (Z.to_nat k) sorted) in Hj.
      apply in_app_iff in Hj. destruct Hj as [Hj|Hj]; [| exact Hj].
      exfalso. apply Hout. apply in_map_iff. now exists (s', j). }
    rewrite <- (firstn_skipn (Z.to_nat k) sorted) in Hsorted.
    apply StronglySorted_app in Hsorted. destruct Hsorted as (Hcross & _ & _).
    apply Is_true_true.
    apply (Hcross (s, i) (s', j)); now apply list_elem_of_In.
Qed.

(** A set of positions that strictly beat every other position and fit
    into [k] is selected entirely. *)
Lemma topk_keeps_strict_best (x : list Sc) (k : Z) (sel : list (Sc * nat))
    (P : nat -> bool) :
  Torch.topk better x k = Ok sel ->
  (forall i j si sj, x !! i = Some si -> x !! j = Some sj ->
     P i = true -> P j = false -> better sj si = false) ->
  (length (List.filter P (seq 0 (length x))) <= Z.to_nat k)%nat ->
  forall i, (i < length x)%nat -> P i = true -> In i (map snd sel).
Proof.
  intros Htopk Hstrict Hcount i Hi HPi.
  destruct (topk_spec x k sel Htopk) as (Hk & Hlen & Hnd & Hval & Hdom).
  destruct (in_dec Nat.eq_dec i (map snd sel)) as [Hin|Hout]; [exact Hin |].
  exfalso.
  destruct (lookup_lt_is_Some_2 x i Hi) as [si Hsi].
  assert (incl (i :: map snd sel) (List.filter P (seq 0 (length x)))) as Hincl.
  { intros j [<- | Hj].
    - apply filter_In. split; [apply in_seq; lia | exact HPi].
    - apply in_map_iff in Hj. destruct Hj as ([s j'] & Hj' & Hsel).
      simpl in Hj'. subst j'.
      pose proof (Hval s j Hsel) as Hsj.
      apply filter_In. split.
      + apply in_seq. apply lookup_lt_Some in Hsj. lia.
      + destruct (P j) eqn:HPj; [reflexivity |].
        pose proof (Hstrict i j si s Hsi Hsj HPi HPj) as Hworse.
        pose proof (Hdom s j si i Hsel Hsi Hout) as Hbetter. congruence. }
  apply List.NoDup_incl_length in Hincl.
  - simpl in Hincl. rewrite length_map in Hincl.
    lia.
  - constructor; assumption.
Qed.

(** The sorted index row: the selected positions, ascending. *)
Lemma sort_indices_spec (sel : list (Sc * nat)) :
  List.NoDup (map snd sel) ->
  (forall i, In (Z.of_nat i) (Torch.sort_indices sel) <-> In i (map snd sel))
  /\ (forall z, In z (Torch.sort_indices sel) -> 0 <= z)
  /\ length (Torch.sort_indices sel) = length sel
  /\ StronglySorted Z.lt (Torch.sort_indices sel).
Proof.
  intros Hnd. unfold Torch.sort_indices.
  pose proof (merge_sort_Permutation Nat.le (map snd sel)) as Hperm.
  pose proof (StronglySorted_merge_sort Nat.le (map snd sel)) as Hsorted.
  set (sorted := merge_sort Nat.le (map snd sel)) in *.
  assert (List.NoDup sorted) as Hnd' by (eapply Permutation_NoDup; [symmetry |]; eassumption).
  split; [| split; [| split]].
  - intros i. rewrite in_map_iff. split.
    + intros (j & Hj & Hin). apply Nat2Z.inj in Hj. subst j.
      apply list_elem_of_In. rewrite <- Hperm. now apply list_elem_of_In.
    + intros Hin. exists i. split; [reflexivity |].
      apply list_elem_of_In. rewrite Hperm. now apply list_elem_of_In.
  - intros z Hz. apply in_map_iff in Hz. destruct Hz as (j & <- & _). lia.
  - rewrite length_map, (Permutation_length Hperm), length_map. reflexivity.
  - clear Hperm. induction Hsorted as [|a l Hs IH Ha]; simpl; constructor.
    + apply IH. now inversion Hnd'.
    + inversion Hnd' as [|? ? Hna Hndl]; subst.
      apply List.Forall_forall. intros z Hz.
      apply in_map_iff in Hz. destruct Hz as (j & <- & Hj).
      rewrite List.Forall_forall in Ha. specialize (Ha j Hj).
      assert (a <> j) by (intros ->; contradiction). lia.
Qed.

End TopK.

(** ** Per-head access *)

Lemma Forall2_head_row {X Y : Type} (P : X -> Y -> Prop)
    (t : list (list X)) (r : list (list Y)) (b h : nat) (a : X) :
  Forall2 (Forall2 P) t r ->
  head_row t b h = Some a ->
  exists y, head_row r b h = Some y /\ P a y.
Proof.
  intros HF Ha. unfold head_row in *.
  destruct (t !! b) as [heads|] eqn:Eb; [| discriminate]. cbn in Ha.
  destruct (Forall2_lookup_l _ _ _ _ _ HF Eb) as (rheads & Er & HF').
  destruct (Forall2_lookup_l _ _ _ _ _ HF' Ha) as (y & Ey & HP).
  exists y. rewrite Er. cbn. split; assumption.
Qed.

Lemma map_result2_head_row {X Y : Type} (f : X -> result Y)
    (t : list (list X)) (r : list (list Y)) (b h : nat) (a : X) :
  map_result (map_result f) t = Ok r ->
  head_row t b h = Some a ->
  exists y, head_row r b h = Some y /\ f a = Ok y.
Proof.
  intros H. apply (Forall2_head_row (fun a y => f a = Ok y)).
  apply map_result_Ok_Forall2 in H.
  eapply Forall2_impl; [exact H |]. intros heads rheads Hh.
  now apply map_result_Ok_Forall2.
Qed.

Lemma map2_head_row {X Y : Type} (f : X -> Y) (t : list (list X)) (b h : nat) :
  head_row (map (map f) t) b h = f <$> head_row t b h.
Proof.
  unfold head_row. change (map (map f) t) with (map f <$> t).
  rewrite list_lookup_fmap. destruct (t !! b) as [heads|]; [| reflexivity].
  cbn. change (map f heads) with (f <$> heads). apply list_lookup_fmap.
Qed.

Lemma dim2_is_head_row {X : Type} (n : nat) (t : list (list (list X)))
    (b h : nat) (rows : list X) :
  dim2_is n t -> head_row t b h = Some rows -> length rows = n.
Proof.
  intros Hd Hr. unfold head_row in Hr.
  destruct (t !! b) as [heads|] eqn:Eb; [| discriminate]. cbn in Hr.
  unfold dim2_is in Hd. rewrite Forall_lookup in Hd.
  specialize (Hd b heads Eb). rewrite Forall_lookup in Hd.
  exact (Hd h rows Hr).
Qed.

(** ** L2 *)

Lemma score_leb_total (a b : PromptCompressorL2.score) :
  PromptCompressorL2.score_leb a b = true \/ PromptCompressorL2.score_leb b a = true.
Proof.
  destruct a as [|x], b as [|y]; simpl; auto.
  destruct (Qlt_le_dec y x) as [H|H].
  - right. apply Qle_bool_iff. now apply Qlt_le_weak.
  - left. now apply Qle_bool_iff.
Qed.

Lemma score_leb_trans (a b c : PromptCompressorL2.score) :
  PromptCompressorL2.score_leb a b = true ->
  PromptCompressorL2.score_leb b c = true ->
  PromptCompressorL2.score_leb a c = true.
Proof.
  destruct a as [|x], b as [|y], c as [|z]; simpl; try congruence.
  rewrite !Qle_bool_iff. apply Qle_trans.
Qed.

Lemma l2_protected_iff (g rw : Z) (input_pos : list Z) (i : nat) :
  l2_protected g rw input_pos i = true
  <-> exists p, input_pos !! i = Some p
                /\ (p < g \/ Z.of_nat (length input_pos) - rw <= p).
Proof.
  unfold l2_protected, PromptCompressorL2.locality_mask.
  set (f := fun p => (p <? g) || (Z.of_nat (length input_pos) - rw <=? p)).
  destruct (input_pos !! i) as [p|] eqn:E.
  - rewrite (nth_indep _ false (f 0)), map_nth
      by (rewrite length_map; eapply lookup_lt_Some, E).
    rewrite (nth_lookup_Some _ _ 0 p E). unfold f. split.
    + intros H. exists p. split; [reflexivity | lia].
    + intros (p' & [= <-] & H). lia.
  - rewrite nth_overflow
      by (rewrite length_map; now apply lookup_ge_None).
    split; [discriminate | intros (p' & [=] & _)].
Qed.

Lemma masked_fill_lookup (x : list Q) (mask : list bool)
    (es : list PromptCompressorL2.score) (i : nat) (v : Q) :
  length mask = length x ->
  PromptCompressorL2.masked_fill x mask = Ok es ->
  x !! i = Some v ->
  es !! i = Some (if nth i mask false
                  then PromptCompressorL2.NegInf else PromptCompressorL2.Fin v).
Proof.
  intros Hlen Hes Hv. unfold PromptCompressorL2.masked_fill in Hes.
  rewrite Hlen, Nat.eqb_refl in Hes. injection Hes as <-.
  rewrite lookup_zip_with, Hv. cbn.
  assert (i < length mask)%nat as Hi
    by (rewrite Hlen; eapply lookup_lt_Some, Hv).
  destruct (lookup_lt_is_Some_2 mask i Hi) as [m Hm].
  rewrite Hm. cbn. now rewrite (nth_lookup_Some _ _ false m Hm).
Qed.

Lemma masked_fill_length (x : list Q) (mask : list bool)
    (es : list PromptCompressorL2.score) :
  length mask = length x ->
  PromptCompressorL2.masked_fill x mask = Ok es -> length es = length x.
Proof.
  intros Hlen Hes. unfold PromptCompressorL2.masked_fill in Hes.
  rewrite Hlen, Nat.eqb_refl in Hes. injection Hes as <-.
  rewrite length_zip_with. lia.
Qed.

Lemma range_lookup (a b : Z) (i : nat) :
  (i < Z.to_nat (b - a))%nat -> Py.range a b !! i = Some (a + Z.of_nat i).
Proof.
  intros Hi. unfold Py.range.
  change (map ?f ?l) with (f <$> l).
  rewrite list_lookup_fmap, lookup_seq_lt by assumption. reflexivity.
Qed.

(** What one head of a successful L2 call went through: the masked
    scores of the head's keys, their [topk], and the sorted indices. *)
Lemma l2_head {A : Type} (vector_norm : A -> Q) (g rw c : Z) (input_pos : list Z)
    (k_val v_val : list (list (list A)))
    (keep : list (list (list Z))) (k' v' : list (list (list A)))
    (b h : nat) (rows : list A) :
  PromptCompressorL2.__call__ vector_norm g rw c input_pos k_val v_val
    = Ok (keep, k', v') ->
  head_row k_val b h = Some rows ->
  exists es sel,
    PromptCompressorL2.masked_fill (map vector_norm rows)
      (PromptCompressorL2.locality_mask g rw input_pos) = Ok es
    /\ Torch.topk PromptCompressorL2.score_leb es c = Ok sel
    /\ head_row keep b h = Some (Torch.sort_indices sel).
Proof.
  intros Hcall Hrows. unfold PromptCompressorL2.__call__ in Hcall.
  inv_bind Hcall as scores Hscores. inv_bind Hcall as kp Hkp.
  inv_bind Hcall as kc Hkc. inv_bind Hcall as vc Hvc.
  injection Hcall as <- _ _.
  assert (head_row (map (map (map vector_norm)) k_val) b h
          = Some (map vector_norm rows)) as Hnorm
    by (rewrite map2_head_row, Hrows; reflexivity).
  destruct (map_result2_head_row _ _ _ b h _ Hscores Hnorm) as (es & Hes & Hfill).
  destruct (map_result2_head_row _ _ _ b h _ Hkp Hes) as (idxs & Hidxs & Hsel).
  inv_bind Hsel as sel Htopk. injection Hsel as <-.
  exists es, sel. auto.
Qed.

(** C3.  In every head of a successful L2 call (on key buffers as long as
    the span), the keep indices are [max_cache_length] slots in ascending
    order; provided the protected slots (position below [global_tokens],
    or at least the span length minus [recent_window]) are no more than
    [max_cache_length], every one of them is kept; and an unprotected slot
    that is kept has a key norm no larger than that of any unprotected
    slot that is dropped.  On the span [0 .. n-1] a slot's position is
    its index. *)
Theorem l2_keeps_protected_and_low_norms {A : Type} (vector_norm : A -> Q)
    (g rw c : Z) (input_pos : list Z) (k_val v_val : list (list (list A)))
    (keep : list (list (list Z))) (k' v' : list (list (list A))) :
  let n := length input_pos in
  let protected := l2_protected g rw input_pos in
  PromptCompressorL2.__call__ vector_norm g rw c input_pos k_val v_val
    = Ok (keep, k', v') ->
  dim2_is n k_val ->
  forall b h rows, head_row k_val b h = Some rows ->
  exists idxs,
    head_row keep b h = Some idxs
    /\ Z.of_nat (length idxs) = c
    /\ StronglySorted Z.lt idxs
    /\ (forall z, In z idxs -> 0 <= z < Z.of_nat n)
    /\ ((length (l2_protected_slots g rw input_pos) <= Z.to_nat c)%nat ->
        (forall i p, input_pos !! i = Some p ->
           p < g \/ Z.of_nat n - rw <= p -> In (Z.of_nat i) idxs)
        /\ (input_pos = Py.range 0 (Z.of_nat n) ->
            forall i, 0 <= i < Z.of_nat n ->
              i < g \/ Z.of_nat n - rw <= i -> In i idxs))
    /\ (forall i j ki kj,
          In (Z.of_nat i) idxs -> ~ In (Z.of_nat j) idxs ->
          rows !! i = Some ki -> rows !! j = Some kj ->
          protected i = false -> protected j = false ->
          (vector_norm ki <= vector_norm kj)%Q).
Proof.
  intros n protected Hcall Hdim b h rows Hrows.
  destruct (l2_head _ _ _ _ _ _ _ _ _ _ b h rows Hcall Hrows)
    as (es & sel & Hfill & Htopk & Hkeep).
  pose proof (dim2_is_head_row _ _ _ _ _ Hdim Hrows) as Hlen.
  assert (length (PromptCompressorL2.locality_mask g rw input_pos)
          = length (map vector_norm rows)) as Hmask
    by (unfold PromptCompressorL2.locality_mask; rewrite !length_map; now rewrite Hlen).
  pose proof (masked_fill_length _ _ _ Hmask Hfill) as Hes_len.
  rewrite length_map, Hlen in Hes_len.
  assert (forall i v, rows !! i = Some v ->
            es !! i = Some (if protected i then PromptCompressorL2.NegInf
                            else PromptCompressorL2.Fin (vector_norm v))) as Hes.
  { intros i v Hv. apply (masked_fill_lookup _ _ _ i _ Hmask Hfill).
    change (map vector_norm rows) with (vector_norm <$> rows).
    now rewrite list_lookup_fmap, Hv. }
  destruct (topk_spec _ score_leb_total score_leb_trans es c sel Htopk)
    as (Hc & Hsel_len & Hnd & Hval & Hdom).
  destruct (sort_indices_spec sel Hnd) as (Hmem & Hnonneg & Hidx_len & Hsorted).
  exists (Torch.sort_indices sel).
  split; [exact Hkeep |]. split; [rewrite Hidx_len, Hsel_len; lia |].
  split; [exact Hsorted |]. split; [| split].
  - intros z Hz. pose proof (Hnonneg z Hz) as Hz0. split; [exact Hz0 |].
    rewrite <- (Z2Nat.id z Hz0) in Hz. apply Hmem in Hz.
    apply in_map_iff in Hz. destruct Hz as ([s i] & Hi & Hin). simpl in Hi.
    apply Hval, lookup_lt_Some in Hin. lia.
  - intros Hcount.
    assert (forall i p, input_pos !! i = Some p ->
              p < g \/ Z.of_nat n - rw <= p -> In (Z.of_nat i) (Torch.sort_indices sel))
      as Hprot.
    { intros i p Hp Hpp. apply Hmem.
      apply (topk_keeps_strict_best _ score_leb_total score_leb_trans
               es c sel protected Htopk).
      - intros i' j' si sj Hsi Hsj Hi' Hj'.
        destruct (lookup_lt_is_Some_2 rows i') as [vi Hvi];
          [apply lookup_lt_Some in Hsi; lia |].
        destruct (lookup_lt_is_Some_2 rows j') as [vj Hvj];
          [apply lookup_lt_Some in Hsj; lia |].
        rewrite (Hes _ _ Hvi), Hi' in Hsi. rewrite (Hes _ _ Hvj), Hj' in Hsj.
        injection Hsi as <-. injection Hsj as <-. reflexivity.
      - rewrite Hes_len. exact Hcount.
      - rewrite Hes_len. eapply lookup_lt_Some, Hp.
      - apply l2_protected_iff. exists p. split; [exact Hp | exact Hpp]. }
    split; [exact Hprot |].
    intros Hspan i Hi Hpi. rewrite <- (Z2Nat.id i) by lia.
    apply (Hprot (Z.to_nat i) i); [| exact Hpi].
    rewrite Hspan, range_lookup by lia. f_equal. lia.
  - intros i j ki kj Hi Hj Hki Hkj Hpi Hpj.
    apply Hmem in Hi. rewrite Hmem in Hj.
    apply in_map_iff in Hi. destruct Hi as ([s i'] & Hi' & Hin).
    simpl in Hi'. subst i'.
    pose proof (Hval _ _ Hin) as Hs. rewrite (Hes _ _ Hki), Hpi in Hs.
    injection Hs as <-.
    pose proof (Hes _ _ Hkj) as Hsj. rewrite Hpj in Hsj.
    pose proof (Hdom _ _ _ _ Hin Hsj Hj) as Hle. simpl in Hle.
    now apply Qle_bool_iff.
Qed.

Lemma l2_keeps_protected_and_low_norms_witness :
  let keys : list (list (list Z)) :=
    [[ [3; -1; 4; 2; -5; 9; 2; 6]; [9; 8; 7; 6; 5; 4; 3; 2] ]] in
  exists idxs,
    head_row [[ [0; 1; 6; 7]; [0; 5; 6; 7] ]] 0 1 = Some idxs
    /\ Z.of_nat (length idxs) = 4
    /\ In 0 idxs /\ In 6 idxs /\ In 7 idxs.
Proof.
  intros keys.
  destruct (l2_keeps_protected_and_low_norms
              (fun v : Z => inject_Z (Z.abs v)) 1 2 4 (Py.range 0 8) keys keys
              [[ [0; 1; 6; 7]; [0; 5; 6; 7] ]]
              [[ [3; -1; 2; 6]; [9; 4; 3; 2] ]] [[ [3; -1; 2; 6]; [9; 4; 3; 2] ]]
              ltac:(vm_compute; reflexivity) ltac:(repeat constructor)
              0%nat 1%nat [9; 8; 7; 6; 5; 4; 3; 2] ltac:(reflexivity))
    as (idxs & Hkeep & Hlen & _ & _ & Hprot & _).
  exists idxs. split; [exact Hkeep |]. split; [exact Hlen |].
  destruct Hprot as [_ Hspan]; [vm_compute; lia |].
  specialize (Hspan ltac:(reflexivity)).
  repeat split; apply Hspan; vm_compute; intuition congruence.
Defined.

(** ** Sums of rationals *)

Lemma sum_nonneg (l : list Q) : Forall (fun a => 0 <= a)%Q l -> (0 <= Torch.sum l)%Q.
Proof.
  induction 1 as [|a l Ha _ IH]; simpl; [apply Qle_refl | lra].
Qed.

Lemma sum_map_scale {I : Type} (f : I -> Q) (c : Q) (l : list I) :
  (Torch.sum (map (fun i => f i / c) l) == Torch.sum (map f l) / c)%Q.
Proof.
  induction l as [|i l IH]; simpl.
  - unfold Qdiv. ring.
  - rewrite IH. unfold Qdiv. ring.
Qed.

Lemma sum_map_plus {I : Type} (f g : I -> Q) (l : list I) :
  (Torch.sum (map (fun i => f i + g i) l)
   == Torch.sum (map f l) + Torch.sum (map g l))%Q.
Proof.
  induction l as [|i l IH]; simpl; [ring | rewrite IH; ring].
Qed.

Lemma sum_map_zero {I : Type} (l : list I) :
  (Torch.sum (map (fun _ => 0) l) == 0)%Q.
Proof. induction l as [|i l IH]; simpl; [reflexivity | rewrite IH; ring]. Qed.

(** Summing a table by rows or by columns gives the same total. *)
Lemma sum_swap {I J : Type} (g : J -> I -> Q) (rows : list J) (cols : list I) :
  (Torch.sum (map (fun i => Torch.sum (map (fun r => g r i) rows)) cols)
   == Torch.sum (map (fun r => Torch.sum (map (g r) cols)) rows))%Q.
Proof.
  induction rows as [|r rows IH]; simpl.
  - apply sum_map_zero.
  - rewrite sum_map_plus, IH. reflexivity.
Qed.

Lemma sum_map_le {J : Type} (f : J -> Q) (c : Q) (l : list J) :
  (forall x, In x l -> f x <= c)%Q ->
  (Torch.sum (map f l) <= c * inject_Z (Z.of_nat (length l)))%Q.
Proof.
  induction l as [|x l IH]; intros H.
  - cbn [map Torch.sum fold_right length].
    change (inject_Z (Z.of_nat 0)) with 0%Q. lra.
  - assert (Torch.sum (map f l) <= c * inject_Z (Z.of_nat (length l)))%Q as IH'
      by (apply IH; intros y Hy; apply H; now right).
    pose proof (H x (or_introl eq_refl)) as Hx.
    cbn [map Torch.sum fold_right length]. fold (Torch.sum (map f l)).
    rewrite Nat2Z.inj_succ, <- Z.add_1_r, inject_Z_plus.
    change (inject_Z 1) with 1%Q.
    set (a := inject_Z (Z.of_nat (length l))) in *.
    assert (c * (a + 1) == c * a + c)%Q as -> by ring. lra.
Qed.

Lemma sum_skipn_le (row : list Q) (s : nat) :
  Forall (fun a => 0 <= a)%Q row -> (Torch.sum (skipn s row) <= Torch.sum row)%Q.
Proof.
  intros H. revert s. induction H as [|a row Ha Hrow IH]; intros [|s]; simpl;
    try apply Qle_refl.
  specialize (IH s). lra.
Qed.

(** The entries of a row of non-negative numbers at [k] consecutive
    positions add up to no more than the whole row. *)
Lemma sum_window_le (row : list Q) (s k : nat) :
  Forall (fun a => 0 <= a)%Q row ->
  (Torch.sum (map (fun i => nth i row 0) (seq s k)) <= Torch.sum row)%Q.
Proof.
  intros Hrow.
  apply Qle_trans with (Torch.sum (skipn s row)); [| now apply sum_skipn_le].
  revert s. induction k as [|k IH]; intros s.
  - simpl. apply sum_nonneg. now apply Forall_drop.
  - cbn [seq map Torch.sum fold_right].
    fold (Torch.sum (map (fun i => nth i row 0%Q) (seq (S s) k))).
    specialize (IH (S s)).
    destruct (row !! s) as [a|] eqn:E.
    + rewrite (drop_S _ _ _ E). rewrite (nth_lookup_Some _ _ _ _ E).
      simpl. fold (Torch.sum (drop (S s) row)). lra.
    + rewrite nth_overflow by (now apply lookup_ge_None).
      apply lookup_ge_None in E.
      rewrite skipn_all2 in * by lia. simpl in *. lra.
Qed.

(** ** SnapKV: the scores of one head *)

Lemma map_add_seq (s k : nat) : map (fun i => (s + i)%nat) (seq 0 k) = seq s k.
Proof.
  revert s. induction k as [|k IH]; intros s; [reflexivity |].
  cbn [seq map]. rewrite Nat.add_0_r. f_equal.
  rewrite <- seq_shift, map_map, <- (IH (S s)).
  apply map_ext. intros i. lia.
Qed.

Lemma clip_spec (n : nat) (k : Z) :
  Py.clip n k
  = Z.to_nat (if Z_lt_dec k 0 then Z.max 0 (Z.of_nat n + k) else Z.min (Z.of_nat n) k).
Proof.
  unfold Py.clip. destruct (Z.ltb_spec k 0), (Z_lt_dec k 0); lia.
Qed.

Lemma clip_observation_len (n : nat) :
  Py.clip n (- PromptCompressorSnapKV.observation_len) = Z.to_nat (Z.of_nat n - 16).
Proof.
  rewrite clip_spec. unfold PromptCompressorSnapKV.observation_len.
  destruct (Z_lt_dec (- (16)) 0); lia.
Qed.

Section SnapKVHead.

Variable n : nat.
Variable rows : list (list Q).
Hypothesis rows_nonempty : rows <> [].
Hypothesis rows_attention : Forall (attention_row n) rows.

Let last := Py.slice_from rows (- PromptCompressorSnapKV.observation_len).
Let raw := Torch.mean_rows last.
Let m := inject_Z (Z.of_nat (length last)).

Lemma snapkv_last_nonempty : last <> [].
Proof.
  unfold last, Py.slice_from. rewrite clip_observation_len.
  destruct rows as [|r rs]; [contradiction |].
  intros H. apply (f_equal (@length _)) in H.
  rewrite length_skipn in H. cbn [length] in H. lia.
Qed.

Lemma snapkv_last_attention : Forall (attention_row n) last.
Proof. unfold last, Py.slice_from. now apply Forall_drop. Qed.

Lemma snapkv_m_pos : (0 < m)%Q.
Proof.
  unfold m. pose proof snapkv_last_nonempty as H.
  destruct last as [|r rs]; [contradiction |].
  unfold Qlt. cbn [length]. simpl. lia.
Qed.

Lemma snapkv_raw_length : length raw = n.
Proof.
  unfold raw, Torch.mean_rows. rewrite length_map, length_seq.
  pose proof snapkv_last_nonempty as Hne. pose proof snapkv_last_attention as Hat.
  destruct last as [|r rs]; [contradiction |].
  inversion Hat as [|? ? [Hr _] _]; subst. reflexivity.
Qed.

Lemma snapkv_raw_nth (i : nat) :
  (i < n)%nat ->
  nth i raw 0%Q = (Torch.sum (map (fun row => nth i row 0%Q) last) / m)%Q.
Proof.
  intros Hi. pose proof snapkv_raw_length as Hlen.
  unfold raw, Torch.mean_rows in *. rewrite length_map, length_seq in Hlen.
  rewrite Hlen.
  set (F := fun i => (Torch.sum (map (fun row => nth i row 0%Q) last)
                      / inject_Z (Z.of_nat (length last)))%Q).
  rewrite (nth_indep _ 0%Q (F 0%nat)) by (rewrite length_map, length_seq; exact Hi).
  rewrite map_nth, seq_nth by exact Hi. reflexivity.
Qed.

(** The raw scores of consecutive positions add up to at most 1. *)
Lemma snapkv_raw_window (s k : nat) :
  (s + k <= n)%nat ->
  (Torch.sum (map (fun i => nth i raw 0%Q) (seq s k)) <= 1)%Q.
Proof.
  intros Hsk.
  rewrite (map_ext_in _ (fun i => (Torch.sum (map (fun row => nth i row 0%Q) last) / m)%Q))
    by (intros i Hi; apply in_seq in Hi; apply snapkv_raw_nth; lia).
  rewrite sum_map_scale, sum_swap.
  apply Qle_shift_div_r; [apply snapkv_m_pos |].
  apply sum_map_le. intros row Hrow.
  pose proof snapkv_last_attention as Hat.
  rewrite List.Forall_forall in Hat. destruct (Hat row Hrow) as (_ & Hpos & Hsum).
  eapply Qle_trans; [apply sum_window_le, Hpos | exact Hsum].
Qed.

Lemma snapkv_pool_length :
  length (Torch.avg_pool1d PromptCompressorSnapKV.kernel_size
            (PromptCompressorSnapKV.kernel_size / 2) raw) = n.
Proof.
  unfold Torch.avg_pool1d. rewrite length_map, range_length, snapkv_raw_length.
  change (PromptCompressorSnapKV.kernel_size / 2) with 2.
  unfold PromptCompressorSnapKV.kernel_size. lia.
Qed.

(** Away from the last position a pooled score is an average of at least
    two raw scores, which together are at most 1: it is below 1. *)
Lemma snapkv_pool_below_one (j : nat) (q : Q) :
  (j + 1 < n)%nat ->
  Torch.avg_pool1d PromptCompressorSnapKV.kernel_size
    (PromptCompressorSnapKV.kernel_size / 2) raw !! j = Some q ->
  (q < 1)%Q.
Proof.
  intros Hj Hq. unfold Torch.avg_pool1d in Hq.
  change (PromptCompressorSnapKV.kernel_size / 2) with 2 in Hq.
  unfold PromptCompressorSnapKV.kernel_size in Hq.
  rewrite snapkv_raw_length in Hq.
  change (map ?f ?l) with (f <$> l) in Hq.
  rewrite list_lookup_fmap, range_lookup in Hq by lia.
  cbn in Hq. injection Hq as <-.
  set (lo := Z.max 0 (0 + Z.of_nat j - 2)).
  set (hi := Z.min (Z.of_nat n) (0 + Z.of_nat j - 2 + 5)).
  assert (0 <= lo /\ lo + 2 <= hi /\ hi <= Z.of_nat n) as (Hlo & Hw & Hhi) by lia.
  apply Qlt_shift_div_r.
  - unfold Qlt. simpl. lia.
  - apply Qle_lt_trans with 1%Q.
    + unfold Py.range. rewrite map_map.
      rewrite (map_ext _ (fun i => nth (Z.to_nat lo + i) raw 0%Q))
        by (intros i; f_equal; lia).
      rewrite <- (map_map (fun i => (Z.to_nat lo + i)%nat) (fun i => nth i raw 0%Q)).
      rewrite map_add_seq.
      apply snapkv_raw_window. lia.
    + unfold Qlt. simpl. lia.
Qed.

(** The scores that [topk] ranks: 1 on the last [observation_len]
    positions, below 1 elsewhere. *)
Lemma snapkv_scores (i : nat) (s : Q) :
  let priority :=
    Torch.fill_from
      (Torch.avg_pool1d PromptCompressorSnapKV.kernel_size
         (PromptCompressorSnapKV.kernel_size / 2) raw)
      (- PromptCompressorSnapKV.observation_len) 1%Q in
  length priority = n
  /\ (priority !! i = Some s ->
      if Z.of_nat n - PromptCompressorSnapKV.observation_len <=? Z.of_nat i
      then s = 1%Q else (s < 1)%Q).
Proof.
  intros priority. unfold priority, Torch.fill_from.
  rewrite snapkv_pool_length.
  set (pooled := Torch.avg_pool1d _ _ raw).
  rewrite clip_observation_len.
  unfold PromptCompressorSnapKV.observation_len.
  split.
  - rewrite length_app, length_firstn, repeat_length.
    unfold pooled. rewrite snapkv_pool_length. lia.
  - intros Hs.
    destruct (Z.leb_spec (Z.of_nat n - 16) (Z.of_nat i)) as [Hin|Hout].
    + rewrite lookup_app_r in Hs
        by (rewrite length_firstn; unfold pooled; rewrite snapkv_pool_length; lia).
      apply list_elem_of_lookup_2, list_elem_of_In, repeat_spec in Hs. exact Hs.
    + rewrite lookup_app_l in Hs
        by (rewrite length_firstn; unfold pooled; rewrite snapkv_pool_length; lia).
      rewrite lookup_take_lt in Hs by lia.
      apply (snapkv_pool_below_one i s); [lia | exact Hs].
Qed.

End SnapKVHead.

(** ** SnapKV: the call *)

(** An in-place write is seen through the reference written to, and
    through no other. *)
Lemma load_store_same {T : Type} `{Inhabited T} (r : nat) (t : T) (h : Torch.heap T) :
  (r < length h)%nat -> Torch.load r (Torch.store r t h) = t.
Proof.
  intros Hr. unfold Torch.load, Torch.store.
  apply list_lookup_total_correct. now apply list_lookup_insert_eq.
Qed.

Lemma load_store_other {T : Type} `{Inhabited T} (r r' : nat) (t : T) (h : Torch.heap T) :
  r <> r' -> Torch.load r (Torch.store r' t h) = Torch.load r h.
Proof.
  intros Hr. unfold Torch.load, Torch.store.
  rewrite !list_lookup_total_alt, list_lookup_insert_ne by congruence.
  reflexivity.
Qed.

(** The call with the heap resolved: the history is read from the clone
    of the raw priority, which the pooling and the write to the
    observation window, both on another tensor, leave as it was. *)
Lemma snapkv_call_unfold {A : Type} (head_specific : bool) (c : Z)
    (input_pos : list Z) (k_val v_val : list (list (list A)))
    (attn : list (list (list (list Q)))) :
  PromptCompressorSnapKV.__call__ head_specific c input_pos k_val v_val attn
  = (_ ← py_assert head_specific;
     let raw := snapkv_raw_priority attn in
     pooled ← PromptCompressorSnapKV.pool raw;
     _ ← py_assert (bool_decide (Torch.shape3 pooled = Torch.shape3 raw));
     let priority :=
       map (map (fun x =>
              Torch.fill_from x (- PromptCompressorSnapKV.observation_len) 1%Q))
           pooled in
     keep_idxs ←
       map_result (map_result (fun x =>
         sel ← Torch.topk (fun a b => Qle_bool b a) x c;
         Ok (Torch.sort_indices sel))) priority;
     attn_history ← Torch.gather_dim2 raw keep_idxs;
     k_val_compressed ← Torch.gather_dim2 k_val keep_idxs;
     v_val_compressed ← Torch.gather_dim2 v_val keep_idxs;
     Ok (Torch.squeeze0 keep_idxs, k_val_compressed, v_val_compressed, attn_history)).
Proof.
  unfold PromptCompressorSnapKV.__call__.
  destruct head_specific; [| reflexivity].
  cbn [py_assert mbind result_bind].
  fold (snapkv_raw_priority attn). set (raw := snapkv_raw_priority attn).
  cbn [Torch.alloc Torch.clone length app].
  change (Torch.load 0 [raw]) with raw.
  change (Torch.load 0 [raw; raw]) with raw.
  destruct (PromptCompressorSnapKV.pool raw) as [pooled|e]; [| reflexivity].
  cbn [mbind result_bind Torch.alloc length app].
  rewrite load_store_same by (simpl; lia).
  rewrite load_store_other by lia.
  change (Torch.load 2 [raw; raw; pooled]) with pooled.
  change (Torch.load 1 [raw; raw; pooled]) with raw.
  reflexivity.
Qed.

Lemma zip_result_lookup {X Y C : Type} (f : X -> Y -> result C)
    (xs : list X) (ys : list Y) (cs : list C) :
  Torch.zip_result f xs ys = Ok cs ->
  length cs = length ys
  /\ forall i y, ys !! i = Some y ->
       exists x c, xs !! i = Some x /\ cs !! i = Some c /\ f x y = Ok c.
Proof.
  revert xs cs. induction ys as [|y ys IH]; intros xs cs H.
  - destruct xs; injection H as <-; (split; [reflexivity | intros i y' [=]]).
  - destruct xs as [|x xs]; [discriminate |]. cbn in H.
    inv_bind H as c Hc. inv_bind H as cs' Hcs. injection H as <-.
    destruct (IH _ _ Hcs) as [Hlen Hlook]. split; [simpl; now rewrite Hlen |].
    intros [|i] y' Hy.
    + injection Hy as <-. exists x, c. auto.
    + apply (Hlook i y' Hy).
Qed.

Lemma gather_row_gathered {X : Type} (rows : list X) (idx : list Z) (out : list X) :
  Torch.gather_row rows idx = Ok out -> gathered idx rows out.
Proof.
  intros H. apply map_result_Ok_Forall2 in H.
  eapply Forall2_impl; [exact H |]. intros i r Hr. cbn beta in Hr.
  destruct (Z.ltb_spec i 0); [discriminate |].
  destruct (rows !! Z.to_nat i); [| discriminate].
  injection Hr as <-. split; [assumption | reflexivity].
Qed.

Lemma gather_dim2_head {X : Type} (t out : list (list (list X)))
    (keep : list (list (list Z))) (b h : nat) (idxs : list Z) :
  Torch.gather_dim2 t keep = Ok out ->
  head_row keep b h = Some idxs ->
  exists r o, head_row t b h = Some r /\ head_row out b h = Some o
              /\ gathered idxs r o.
Proof.
  intros H Hk. unfold head_row in *.
  destruct (keep !! b) as [kheads|] eqn:Eb; [| discriminate]. cbn in Hk.
  apply zip_result_lookup in H. destruct H as [_ H].
  destruct (H b kheads Eb) as (theads & oheads & -> & -> & Hh).
  apply zip_result_lookup in Hh. destruct Hh as [_ Hh].
  destruct (Hh h idxs Hk) as (r & o & Hr & Ho & Hg).
  exists r, o. cbn. split; [exact Hr |]. split; [exact Ho |].
  now apply gather_row_gathered.
Qed.

Lemma gather_dim2_shape {X : Type} (t out : list (list (list X)))
    (keep : list (list (list Z))) :
  Torch.gather_dim2 t keep = Ok out -> Torch.shape3 out = Torch.shape3 keep.
Proof.
  unfold Torch.gather_dim2, Torch.shape3, Torch.shape2.
  revert t out. induction keep as [|kh keep IH]; intros t out H.
  - destruct t; injection H as <-; reflexivity.
  - destruct t as [|th t]; [discriminate |]. cbn in H.
    inv_bind H as oh Hoh. inv_bind H as out' Hout. injection H as <-.
    cbn [map]. rewrite (IH _ _ Hout). f_equal.
    clear -Hoh. revert th oh Hoh. induction kh as [|idx kh IHk]; intros th oh H.
    + destruct th; injection H as <-; reflexivity.
    + destruct th as [|r th]; [discriminate |]. cbn in H.
      inv_bind H as o Ho. inv_bind H as oh' Hoh'. injection H as <-.
      cbn [map]. rewrite (IHk _ _ Hoh'). f_equal.
      apply map_result_length in Ho. exact Ho.
Qed.

(** C8.  The attention history that SnapKV returns is, in every head, the
    raw priority (the mean over the last [observation_len] query rows of
    the attention weights, as it was before pooling and before the
    observation window was overwritten) read at that head's keep indices,
    in their order; there is one history row per row of keep indices. *)
Theorem snapkv_history_is_raw_priority {A : Type} (head_specific : bool) (c : Z)
    (input_pos : list Z) (k_val v_val : list (list (list A)))
    (attn : list (list (list (list Q))))
    (keep_idxs : Torch.squeezed (list (list Z)))
    (k' v' : list (list (list A))) (attn_history : list (list (list Q))) :
  PromptCompressorSnapKV.__call__ head_specific c input_pos k_val v_val attn
    = Ok (keep_idxs, k', v', attn_history) ->
  exists keep,
    keep_idxs = Torch.squeeze0 keep
    /\ Torch.shape3 attn_history = Torch.shape3 keep
    /\ forall b h idxs, head_row keep b h = Some idxs ->
         exists rows history,
           head_row attn b h = Some rows
           /\ head_row attn_history b h = Some history
           /\ gathered idxs
                (Torch.mean_rows
                   (Py.slice_from rows (- PromptCompressorSnapKV.observation_len)))
                history.
Proof.
  rewrite snapkv_call_unfold. intros H.
  inv_bind H as u Hu. cbv zeta in H.
  inv_bind H as pooled Hpool. inv_bind H as u' Hshape.
  inv_bind H as keep Hkeep. inv_bind H as hist Hhist.
  inv_bind H as kc Hkc. inv_bind H as vc Hvc.
  injection H as <- _ _ <-.
  exists keep. split; [reflexivity |].
  split; [eapply gather_dim2_shape; eassumption |].
  intros b h idxs Hidxs.
  destruct (gather_dim2_head _ _ _ b h idxs Hhist Hidxs) as (r & o & Hr & Ho & Hg).
  unfold snapkv_raw_priority in Hr. rewrite map2_head_row in Hr.
  destruct (head_row attn b h) as [rows|]; [| discriminate].
  injection Hr as <-. exists rows, o. auto.
Qed.

Lemma snapkv_history_is_raw_priority_witness :
  let attn : list (list (list (list Q))) :=
    [[ [ repeat (1 # 20)%Q 20; [0%Q; 1%Q] ++ repeat 0%Q 18 ];
       [ [(1 # 2)%Q; 0%Q; (1 # 2)%Q] ++ repeat 0%Q 17 ] ]] in
  let k_val : list (list (list Z)) := [[ Py.range 0 20; Py.range 100 120 ]] in
  exists keep k' v' history,
    PromptCompressorSnapKV.__call__ true 17 (Py.range 0 20) k_val k_val attn
      = Ok (Torch.squeeze0 keep, k', v', history)
    /\ Torch.shape3 history = Torch.shape3 keep
    /\ head_row keep 0 0 = Some (0 :: skipn 4 (Py.range 0 20))
    /\ head_row history 0 0 = Some (repeat (1 # 40)%Q 17).
Proof.
  intros attn k_val.
  destruct (PromptCompressorSnapKV.__call__ true 17 (Py.range 0 20) k_val k_val attn)
    as [[[[ksq kc] vc] hist]|e] eqn:E; [| vm_compute in E; discriminate E].
  destruct (snapkv_history_is_raw_priority _ _ _ _ _ _ _ _ _ _ E)
    as (keep & Hsq & Hshape & _).
  exists keep, kc, vc, hist. rewrite Hsq. split; [reflexivity |].
  split; [exact Hshape |].
  vm_compute in E. injection E as Eksq _ _ Ehist. subst ksq hist.
  destruct keep as [|kh [|]]; try discriminate Hsq.
  injection Hsq as <-. split; reflexivity.
Defined.

Lemma Qge_bool_total (a b : Q) : Qle_bool b a = true \/ Qle_bool a b = true.
Proof.
  destruct (Qlt_le_dec a b) as [H|H].
  - right. apply Qle_bool_iff. now apply Qlt_le_weak.
  - left. now apply Qle_bool_iff.
Qed.

Lemma Qge_bool_trans (a b c : Q) :
  Qle_bool b a = true -> Qle_bool c b = true -> Qle_bool c a = true.
Proof. rewrite !Qle_bool_iff. intros H1 H2. eapply Qle_trans; eassumption. Qed.





(** The hypothesis on the weights is needed: scores above 1, which
    attention weights never are, outrank the observation window. *)
Lemma snapkv_scores_above_one_evict :
  let attn : list (list (list (list Q))) := [[ [ repeat 5%Q 4 ++ repeat 0%Q 16 ] ]] in
  let k_val : list (list (list Z)) := [[ Py.range 0 20 ]] in
  exists idxs k' v' history,
    PromptCompressorSnapKV.__call__ true 16 (Py.range 0 20) k_val k_val attn
      = Ok (Torch.squeeze0 [[idxs]], k', v', history)
    /\ exists p, 20 - PromptCompressorSnapKV.observation_len <= p < 20 /\ ~ In p idxs.
Proof.
  intros attn k_val.
  exists [0; 1; 2; 3; 4; 5; 6; 7; 8; 9; 10; 11; 16; 17; 18; 19].
  do 3 eexists. split; [vm_compute; reflexivity |].
  exists 12. split; [vm_compute; intuition discriminate |].
  simpl. intuition discriminate.
Qed.

(** ** Generation driver: splitting a long prompt *)

Lemma slice_to_from {X : Type} (l : list X) (k : Z) :
  Py.slice_to l k ++ Py.slice_from l k = l.
Proof. apply firstn_skipn. Qed.

Lemma slice_to_length {X : Type} (l : list X) (k : Z) :
  0 <= k <= Z.of_nat (length l) -> Z.of_nat (length (Py.slice_to l k)) = k.
Proof.
  intros Hk. unfold Py.slice_to. rewrite length_firstn, clip_spec.
  destruct (Z_lt_dec k 0); lia.
Qed.

Lemma slice_from_length {X : Type} (l : list X) (k : Z) :
  0 <= k <= Z.of_nat (length l) ->
  Z.of_nat (length (Py.slice_from l k)) = Z.of_nat (length l) - k.
Proof.
  intros Hk. unfold Py.slice_from. rewrite length_skipn, clip_spec.
  destruct (Z_lt_dec k 0); lia.
Qed.

(** C6.  With [max_prompt_len = min_cache_length - 1], the prompt is split
    exactly when long prompts are fed and the prompt is longer than
    [max_prompt_len], or the prompt is exactly [min_cache_length] long.  A
    split leaves the first [max_prompt_len] tokens as the prompt, makes the
    rest the prefix and adds the length of the prefix to
    [max_new_tokens]; without a split nothing changes.  A prompt of
    exactly [min_cache_length] tokens (16, say) gives a prompt of
    [min_cache_length - 1] (15) and a prefix of one token. *)
Theorem split_prompt_long_prompt (min_cache_length : Z) (feed_long_prompts : bool)
    (prompt : list Z) (max_new_tokens : Z) :
  let prompt_length := Z.of_nat (length prompt) in
  let max_prompt_len := min_cache_length - 1 in
  let split_needed :=
    (feed_long_prompts = true /\ prompt_length > max_prompt_len)
    \/ prompt_length = min_cache_length in
  (split_needed ->
     exists prompt' prefix,
       split_prompt min_cache_length feed_long_prompts prompt max_new_tokens
       = (prompt', Some prefix, max_new_tokens + Z.of_nat (length prefix), max_prompt_len)
       /\ prompt' ++ prefix = prompt
       /\ (0 <= max_prompt_len ->
           Z.of_nat (length prompt') = max_prompt_len
           /\ Z.of_nat (length prefix) = prompt_length - max_prompt_len
           /\ (prompt_length = min_cache_length -> length prefix = 1%nat)))
  /\ (~ split_needed ->
      split_prompt min_cache_length feed_long_prompts prompt max_new_tokens
      = (prompt, None, max_new_tokens, prompt_length)).
Proof.
  intros prompt_length max_prompt_len split_needed. unfold split_prompt.
  fold prompt_length. fold max_prompt_len. split.
  - intros Hs.
    assert ((feed_long_prompts && (prompt_length >? max_prompt_len)
             || (prompt_length =? min_cache_length)) = true) as ->.
    { destruct Hs as [[-> Hgt] | Heq]; [| lia]. simpl.
      apply orb_true_iff. left. lia. }
    exists (Py.slice_to prompt max_prompt_len), (Py.slice_from prompt max_prompt_len).
    split; [reflexivity |]. split; [apply slice_to_from |].
    intros Hk.
    assert (max_prompt_len <= prompt_length) as Hle
      by (destruct Hs as [[_ Hgt] | Heq]; unfold max_prompt_len in *; lia).
    rewrite slice_to_length, slice_from_length by (fold prompt_length; lia).
    fold prompt_length. split; [reflexivity |]. split; [reflexivity |].
    intros Heq.
    assert (Z.of_nat (length (Py.slice_from prompt max_prompt_len)) = 1) as H1
      by (rewrite slice_from_length; fold prompt_length; unfold max_prompt_len in *; lia).
    lia.
  - intros Hn.
    assert ((feed_long_prompts && (prompt_length >? max_prompt_len)
             || (prompt_length =? min_cache_length)) = false) as ->.
    { apply orb_false_iff. split.
      - destruct feed_long_prompts; [| reflexivity]. simpl.
        destruct (Z.gtb_spec prompt_length max_prompt_len) as [Hgt|]; [| reflexivity].
        exfalso. apply Hn. left. split; [reflexivity | lia].
      - destruct (Z.eqb_spec prompt_length min_cache_length) as [Heq|]; [| reflexivity].
        exfalso. apply Hn. now right. }
    reflexivity.
Qed.

Lemma split_prompt_long_prompt_witness :
  split_prompt 16 false (Py.range 100 116) 10
  = (Py.range 100 115, Some [115], 11, 15)
  /\ split_prompt 16 false (Py.range 100 110) 10
     = (Py.range 100 110, None, 10, 10)
  /\ split_prompt 16 true (Py.range 100 120) 10
     = (Py.range 100 115, Some (Py.range 115 120), 15, 15).
Proof.
  split; [| split].
  - destruct (split_prompt_long_prompt 16 false (Py.range 100 116) 10) as [Hs _].
    destruct Hs as (p & pre & Heq & _); [right; reflexivity |].
    rewrite Heq. vm_compute in Heq. injection Heq as <- <-. reflexivity.
  - destruct (split_prompt_long_prompt 16 false (Py.range 100 110) 10) as [_ Hn].
    rewrite Hn; [reflexivity |]. vm_compute. intuition discriminate.
  - destruct (split_prompt_long_prompt 16 true (Py.range 100 120) 10) as [Hs _].
    destruct Hs as (p & pre & Heq & _); [left; split; reflexivity |].
    rewrite Heq. vm_compute in Heq. injection Heq as <- <-. reflexivity.
Defined.

(** ** Generation driver: the decode loop *)

Section DriverFacts.

Variables model logits probs : Type.
Variable forward :
  model -> list Z -> list Z -> option (list (list bool)) -> logits * model.
Variable min_cache_length : model -> Z.
Variable softmax_last : logits -> probs.
Variable argmax : probs -> nat.

Variable terminator_ids : option (list Z).

(** The loop stops after iteration [i] with token [t]. *)
Let stops (prefix : option (list Z)) (i : nat) (t : Z) : bool :=
  in_terminators terminator_ids t && negb (i <? prefix_length prefix)%nat.

Lemma range_0_seq (k : Z) : Py.range 0 k = map Z.of_nat (seq 0 (Z.to_nat k)).
Proof.
  unfold Py.range. rewrite Z.sub_0_r. apply map_ext. intros i. lia.
Qed.

Lemma get_in_range (t : list Z) (i : nat) (v : Z) :
  t !! i = Some v -> Tensor1.get t (Z.of_nat i) = Ok v.
Proof.
  intros Hv. pose proof (lookup_lt_Some _ _ _ Hv) as Hi.
  unfold Tensor1.get, Torch.wrap_index.
  assert ((Z.of_nat i <? - Z.of_nat (length t)) = false) as -> by lia.
  assert ((Z.of_nat (length t) <=? Z.of_nat i) = false) as -> by lia.
  assert ((Z.of_nat i <? 0) = false) as -> by lia.
  cbn. rewrite Nat2Z.id, Hv. reflexivity.
Qed.

(** The loop over iterations [s .. s+k-1] returns; it yields at most [k]
    tokens, a forced one being the prefix entry of its iteration and any
    other a vocabulary position; a token that stops the loop is the last
    one, and the loop ends before iteration [s+k-1] only on such a token. *)
Lemma decode_loop_spec (prefix : option (list Z)) (k s : nat)
    (m : model) (cur_token input_pos : list Z) :
  length input_pos = 1%nat ->
  exists toks prs m',
    decode_loop forward softmax_last argmax terminator_ids prefix
      (map Z.of_nat (seq s k)) m cur_token input_pos = Ok (toks, prs, m')
    /\ length prs = length toks
    /\ (length toks <= k)%nat
    /\ (forall j t, toks !! j = Some t ->
          (if (s + j <? prefix_length prefix)%nat
           then default [] prefix !! (s + j)%nat = Some t
           else 0 <= t)
          /\ (stops prefix (s + j) t = true -> S j = length toks))
    /\ ((length toks < k)%nat ->
        exists j t, S j = length toks /\ toks !! j = Some t
                    /\ stops prefix (s + j) t = true).
Proof.
  revert s m cur_token input_pos.
  induction k as [|k IH]; intros s m cur_token input_pos Hpos.
  - exists [], [], m. cbn.
    split; [reflexivity |]. split; [reflexivity |]. split; [lia |].
    split; [intros j t [=] | intros H; lia].
  - cbn [seq map decode_loop].
    set (tf := match prefix with
               | Some p => Z.of_nat s <? Z.of_nat (length p)
               | None => false
               end).
    assert (tf = (s <? prefix_length prefix)%nat) as Htf.
    { unfold tf, prefix_length. destruct prefix as [p|].
      - destruct (Z.ltb_spec (Z.of_nat s) (Z.of_nat (length p))),
          (Nat.ltb_spec s (length p)); lia || reflexivity.
      - reflexivity. }
    assert (exists forced,
              (if tf then t ← Tensor1.get (default [] prefix) (Z.of_nat s); Ok (Some t)
               else Ok None) = Ok forced
              /\ (if tf then exists t, forced = Some t
                                       /\ default [] prefix !! s = Some t
                  else forced = None)) as (forced & -> & Hforced).
    { destruct tf eqn:Etf.
      - symmetry in Htf. apply Nat.ltb_lt in Htf.
        destruct prefix as [p|]; [| simpl in Htf; lia]. simpl in Htf.
        destruct (lookup_lt_is_Some_2 p s Htf) as [t Ht].
        exists (Some t). change (default [] (Some p)) with p.
        rewrite (get_in_range _ _ _ Ht). cbn.
        split; [reflexivity |]. exists t. auto.
      - exists None. auto. }
    cbn [mbind result_bind].
    unfold decode_one_token. rewrite Hpos. cbn [Nat.eqb py_assert mbind result_bind].
    destruct (forward m cur_token input_pos None) as [lg m1].
    cbn [mbind result_bind].
    set (tok := fst (greedy softmax_last argmax lg forced)).
    set (pr := snd (greedy softmax_last argmax lg forced)).
    change (greedy softmax_last argmax lg forced) with (tok, pr).
    assert (if tf then default [] prefix !! s = Some tok else 0 <= tok) as Htok.
    { unfold tok, greedy. destruct tf.
      - destruct Hforced as (t & -> & Ht). exact Ht.
      - subst forced. simpl. lia. }
    assert ((in_terminators terminator_ids tok && negb tf) = stops prefix s tok)
      as Hstop by (unfold stops; now rewrite Htf).
    cbv beta iota. rewrite Hstop.
    destruct (stops prefix s tok) eqn:Es.
    + exists [tok], [pr], m1. split; [reflexivity |].
      split; [reflexivity |]. split; [simpl; lia |]. split.
      * intros [|j] t Ht; [| discriminate]. injection Ht as <-.
        rewrite Nat.add_0_r, <- Htf. split; [exact Htok | reflexivity].
      * intros _. exists 0%nat, tok. rewrite Nat.add_0_r. auto.
    + destruct (IH (S s) m1 [tok] (map (Z.add 1) input_pos))
        as (toks & prs & m' & Hrun & Hlen & Hle & Htoks & Hearly);
        [now rewrite length_map |].
      rewrite Hrun. cbn [mbind result_bind].
      exists (tok :: toks), (pr :: prs), m'. split; [reflexivity |].
      split; [simpl; now rewrite Hlen |]. split; [simpl; lia |]. split.
      * intros [|j] t Ht.
        -- injection Ht as <-. rewrite Nat.add_0_r, <- Htf.
           split; [exact Htok |]. intros Hs. congruence.
        -- replace (s + S j)%nat with (S s + j)%nat by lia.
           destruct (Htoks j t Ht) as [Hval Hlast].
           split; [exact Hval |]. intros Hs. simpl. f_equal. now apply Hlast.
      * intros Hlt. destruct Hearly as (j & t & Hj & Ht & Hs); [simpl in Hlt; lia |].
        exists (S j), t. replace (s + S j)%nat with (S s + j)%nat by lia.
        split; [simpl; lia |]. split; [exact Ht | exact Hs].
Qed.

(** ** Generation driver: the output buffer *)

Lemma full_Ok (n v : Z) (t : list Z) :
  Tensor1.full n v = Ok t -> 0 <= n /\ t = repeat v (Z.to_nat n).
Proof.
  unfold Tensor1.full. destruct (Z.ltb_spec n 0); [discriminate |].
  intros [= <-]. split; [assumption | reflexivity].
Qed.

Lemma set_slice_length (t : list Z) (lo hi : Z) (vals t' : list Z) :
  Tensor1.set_slice t lo hi vals = Ok t' -> length t' = length t.
Proof.
  unfold Tensor1.set_slice.
  set (a := Py.clip (length t) lo). set (b := Nat.max a (Py.clip (length t) hi)).
  assert (a <= b <= length t)%nat as Hab
    by (unfold b, a; rewrite !clip_spec;
        destruct (Z_lt_dec lo 0), (Z_lt_dec hi 0); lia).
  destruct (Nat.eqb_spec (length vals) (b - a)) as [E|E].
  - intros [= <-]. rewrite !length_app, length_firstn, length_skipn. lia.
  - destruct vals as [|v [|]]; try discriminate.
    intros [= <-]. rewrite !length_app, length_firstn, repeat_length, length_skipn. lia.
Qed.

Lemma set_slice_middle (l1 l2 l3 vals : list Z) :
  length vals = length l2 ->
  Tensor1.set_slice (l1 ++ l2 ++ l3) (Z.of_nat (length l1))
    (Z.of_nat (length l1) + Z.of_nat (length l2)) vals
  = Ok (l1 ++ vals ++ l3).
Proof.
  intros Hlen. unfold Tensor1.set_slice.
  rewrite !clip_spec, !length_app.
  destruct (Z_lt_dec (Z.of_nat (length l1)) 0) as [?|_]; [lia |].
  destruct (Z_lt_dec (Z.of_nat (length l1) + Z.of_nat (length l2)) 0) as [?|_]; [lia |].
  replace (Z.to_nat (Z.min _ (Z.of_nat (length l1)))) with (length l1) by lia.
  replace (Nat.max (length l1) _) with (length l1 + length l2)%nat by lia.
  replace (length l1 + length l2 - length l1)%nat with (length l2) by lia.
  rewrite Hlen, Nat.eqb_refl.
  rewrite firstn_app, firstn_all, Nat.sub_diag, firstn_O, app_nil_r.
  do 3 f_equal. rewrite app_assoc.
  apply drop_app_length'. now rewrite length_app.
Qed.

Lemma set_middle (l1 l3 : list Z) (x v : Z) :
  Tensor1.set (l1 ++ x :: l3) (Z.of_nat (length l1)) v = Ok (l1 ++ v :: l3).
Proof.
  unfold Tensor1.set, Torch.wrap_index. rewrite length_app. cbn [length].
  destruct (Z.ltb_spec (Z.of_nat (length l1))
              (- Z.of_nat (length l1 + S (length l3)))); [lia |].
  destruct (Z.leb_spec (Z.of_nat (length l1 + S (length l3)))
              (Z.of_nat (length l1))); [lia |].
  destruct (Z.ltb_spec (Z.of_nat (length l1)) 0); [lia |].
  cbn. rewrite Nat2Z.id. f_equal.
  rewrite insert_app_r_alt, Nat.sub_diag by lia. reflexivity.
Qed.

Lemma set_Ok_in_range (t : list Z) (i v : Z) (t' : list Z) :
  Tensor1.set t i v = Ok t' -> i < Z.of_nat (length t).
Proof.
  unfold Tensor1.set, Torch.wrap_index.
  destruct (Z.leb_spec (Z.of_nat (length t)) i); [| lia].
  rewrite orb_true_r. discriminate.
Qed.

(** A sequence without sentinel, padded with sentinels, is cut back to
    itself. *)
Lemma first_index_absent (v : Z) (l : list Z) :
  ~ In v l -> Tensor1.first_index v l = None.
Proof.
  induction l as [|x l IH]; intros H; [reflexivity |]. simpl.
  destruct (Z.eqb_spec x v) as [->|Hne]; [exfalso; apply H; now left |].
  rewrite IH; [reflexivity | intros Hin; apply H; now right].
Qed.

Lemma truncate_padded (l : list Z) (k : nat) :
  ~ In (-1) l -> truncate_at_sentinel (l ++ repeat (-1) k) = l.
Proof.
  intros H. unfold truncate_at_sentinel.
  assert (Tensor1.first_index (-1) (l ++ repeat (-1) k)
          = match k with O => None | S _ => Some (length l) end) as ->.
  { induction l as [|x l IH].
    - destruct k; reflexivity.
    - simpl. destruct (Z.eqb_spec x (-1)) as [->|Hne];
        [exfalso; apply H; now left |].
      rewrite IH by (intros Hin; apply H; now right).
      destruct k; reflexivity. }
  destruct k.
  - apply app_nil_r.
  - rewrite firstn_app, firstn_all, Nat.sub_diag, firstn_O. apply app_nil_r.
Qed.

Lemma split_prompt_cases (mcl : Z) (feed : bool) (prompt : list Z) (mnt : Z)
    (p : list Z) (prefix : option (list Z)) (mnt' pl : Z) :
  split_prompt mcl feed prompt mnt = (p, prefix, mnt', pl) ->
  0 <= pl ->
  pl = Z.of_nat (length p)
  /\ mnt' = mnt + Z.of_nat (prefix_length prefix)
  /\ p ++ default [] prefix = prompt
  /\ (prefix = None \/ exists t pre, prefix = Some (t :: pre)).
Proof.
  unfold split_prompt. intros H Hpl.
  destruct (feed && (Z.of_nat (length prompt) >? mcl - 1)
            || (Z.of_nat (length prompt) =? mcl)) eqn:E.
  - injection H as <- <- <- <-. cbn [prefix_length default].
    assert (mcl - 1 < Z.of_nat (length prompt)) as Hlt.
    { apply orb_true_iff in E. destruct E as [E|E]; [| lia].
      apply andb_true_iff in E. lia. }
    rewrite slice_to_length by lia.
    split; [reflexivity |]. split; [reflexivity |].
    split; [apply slice_to_from |]. right.
    pose proof (slice_from_length prompt (mcl - 1) ltac:(lia)) as Hlen.
    destruct (Py.slice_from prompt (mcl - 1)) as [|t pre]; [simpl in Hlen; lia |].
    eauto.
  - injection H as <- <- <- <-. cbn [prefix_length default].
    split; [reflexivity |]. split; [lia |]. split; [apply app_nil_r | now left].
Qed.

Lemma get_0_Ok (t : list Z) (v : Z) : Tensor1.get t 0 = Ok v -> t !! 0%nat = Some v.
Proof.
  unfold Tensor1.get, Torch.wrap_index.
  destruct ((0 <? - Z.of_nat (length t)) || (Z.of_nat (length t) <=? 0));
    [discriminate |].
  change (0 <? 0) with false. cbn. change (Z.to_nat 0) with 0%nat.
  destruct (t !! 0%nat); [congruence | discriminate].
Qed.

(** The teacher-forced steps of the decode loop, which replays the prefix
    from its second token, in terms of the whole prefix. *)
Lemma prefix_tail (prefix : option (list Z)) :
  (prefix = None \/ exists t pre, prefix = Some (t :: pre)) ->
  let prefix' := option_map (fun p => Py.slice_from p 1) prefix in
  forall i,
    (i <? prefix_length prefix')%nat = (S i <? prefix_length prefix)%nat
    /\ default [] prefix' !! i = default [] prefix !! S i.
Proof.
  intros [-> | (t & pre & ->)] prefix' i.
  - split; reflexivity.
  - subst prefix'. cbn [option_map default prefix_length].
    assert (Py.slice_from (t :: pre) 1 = pre) as ->.
    { unfold Py.slice_from. rewrite clip_spec. cbn [length].
      destruct (Z_lt_dec 1 0); [lia |].
      replace (Z.to_nat _) with 1%nat by lia. reflexivity. }
    split; [| reflexivity]. cbn [length].
    destruct (Nat.ltb_spec i (length pre)), (Nat.ltb_spec (S i) (S (length pre)));
      lia || reflexivity.
Qed.

(** The prefill returns exactly on a prompt with a token. *)
Lemma prefill_Ok (m : model) (x ip : list Z) (forced : option Z)
    (first : Z) (pr0 : probs) (m1 : model) :
  prefill forward softmax_last argmax m x ip forced = Ok (first, pr0, m1) ->
  x <> []
  /\ (first, pr0)
     = greedy softmax_last argmax
         (fst (forward m x ip (Some (Tensor1.tril_ones (length ip))))) forced
  /\ m1 = snd (forward m x ip (Some (Tensor1.tril_ones (length ip)))).
Proof.
  unfold prefill. destruct (forward m x ip _) as [lg m0].
  destruct x; [discriminate |]. cbn [mbind result_bind fst snd].
  intros H. injection H as <- <- <-.
  split; [discriminate |]. split; reflexivity.
Qed.

Lemma prefill_returns (m : model) (x ip : list Z) (forced : option Z) :
  x <> [] ->
  exists first pr0 m1,
    prefill forward softmax_last argmax m x ip forced = Ok (first, pr0, m1).
Proof.
  intros Hx. unfold prefill. destruct (forward m x ip _) as [lg m0].
  destruct x; [contradiction |]. cbn [mbind result_bind].
  destruct (greedy softmax_last argmax lg forced) as [first pr0]. eauto.
Qed.

(** What a successful [generate] returns: the prompt fed to prefill
    followed by the generated tokens, with the unused part of the buffer
    cut off at the first sentinel.  Generated token 0 is the one of the
    prefill; token [j] is forced while [j] is inside the prefix. *)
Lemma generate_spec (m : model) (prompt : list Z) (mnt : Z) (feed : bool)
    (seq : list Z) (prs : list probs) (m' : model)
    (p : list Z) (prefix : option (list Z)) (mnt' pl : Z) :
  generate forward min_cache_length softmax_last argmax
    m prompt mnt terminator_ids feed = Ok (seq, prs, m') ->
  split_prompt (min_cache_length m) feed prompt mnt = (p, prefix, mnt', pl) ->
  exists gen,
    pl = Z.of_nat (length p)
    /\ p ++ default [] prefix = prompt
    /\ (1 <= length gen)%nat /\ Z.of_nat (length gen) <= mnt'
    /\ length prs = length gen
    /\ seq = truncate_at_sentinel
               (p ++ gen ++ repeat (-1) (Z.to_nat mnt' - length gen))
    /\ (forall j t, gen !! j = Some t ->
          (if (j <? prefix_length prefix)%nat
           then default [] prefix !! j = Some t
           else 0 <= t)
          /\ ((1 <= j)%nat -> stops prefix j t = true -> S j = length gen))
    /\ (Z.of_nat (length gen) < mnt' ->
        exists j t, S j = length gen /\ gen !! j = Some t
                    /\ (1 <= j)%nat /\ stops prefix j t = true).
Proof.
  intros Hgen Hsplit. unfold generate in Hgen. rewrite Hsplit in Hgen.
  inv_bind Hgen as seq0 Hfull. inv_bind Hgen as seq1 Hslice.
  inv_bind Hgen as ip Har. cbv zeta in Hgen. unfold Tensor1.view_1_m1 in Hgen.
  inv_bind Hgen as forced Hforced.
  inv_bind Hgen as [[first pr0] m1] Hpre.
  inv_bind Hgen as seq2 Hset. inv_bind Hgen as [[toks prs'] m2] Hdec.
  inv_bind Hgen as seq3 Hfinal. injection Hgen as <- <- <-.
  fold (truncate_at_sentinel seq3).
  (* the prompt fed to prefill *)
  assert (0 <= pl) as Hpl
    by (unfold Tensor1.arange in Har; destruct (Z.ltb_spec pl 0); [discriminate | lia]).
  destruct (split_prompt_cases _ _ _ _ _ _ _ _ Hsplit Hpl)
    as (Hplen & Hmnt & Happ & Hprefix).
  clear Hsplit. subst pl.
  (* the buffer before decoding *)
  apply full_Ok in Hfull. destruct Hfull as [Hsize ->].
  pose proof (set_slice_length _ _ _ _ _ Hslice) as Hlen1.
  rewrite repeat_length in Hlen1.
  pose proof (set_Ok_in_range _ _ _ _ Hset) as Hroom.
  assert (1 <= mnt') as Hbudget by lia.
  replace (Z.to_nat (Z.of_nat (length p) + mnt'))
    with (length p + (1 + (Z.to_nat mnt' - 1)))%nat in Hslice by lia.
  rewrite !repeat_app in Hslice.
  assert (seq1 = p ++ repeat (-1) 1 ++ repeat (-1) (Z.to_nat mnt' - 1)) as ->.
  { pose proof (set_slice_middle [] (repeat (-1) (length p))
                  (repeat (-1) 1 ++ repeat (-1) (Z.to_nat mnt' - 1)) p) as Hm.
    rewrite repeat_length in Hm. specialize (Hm eq_refl).
    cbn [length app] in Hm. rewrite Z.add_0_l in Hm.
    change (Z.of_nat 0) with 0 in Hm. congruence. }
  cbn [repeat app] in Hset. rewrite set_middle in Hset.
  injection Hset as <-.
  (* the first token *)
  assert (if (0 <? prefix_length prefix)%nat
          then default [] prefix !! 0%nat = Some first else 0 <= first) as Hfirst.
  { apply prefill_Ok in Hpre. destruct Hpre as (_ & Hg & _).
    unfold greedy in Hg. injection Hg as -> _.
    destruct Hprefix as [-> | (t & pre & ->)].
    - injection Hforced as <-. simpl. lia.
    - inv_bind Hforced as t0 Ht0. apply get_0_Ok in Ht0.
      injection Ht0 as <-. injection Hforced as <-. reflexivity. }
  (* the decode loop *)
  unfold decode_n_tokens in Hdec. rewrite range_0_seq in Hdec.
  destruct (decode_loop_spec (option_map (fun p => Py.slice_from p 1) prefix)
              (Z.to_nat (mnt' - 1)) 0 m1 [first] [Z.of_nat (length p)] eq_refl)
    as (toks0 & prs0 & m0 & Hrun & Hprs & Hle & Htoks & Hearly).
  rewrite Hrun in Hdec. injection Hdec as -> -> ->.
  pose proof (prefix_tail prefix Hprefix) as Htail. cbv zeta in Htail.
  (* the buffer after decoding *)
  assert (seq3 = p ++ (first :: toks)
                   ++ repeat (-1) (Z.to_nat mnt' - length (first :: toks))) as ->.
  { cbn [length].
    destruct (Nat.ltb_spec 0 (length toks)) as [Hpos|Hzero].
    - replace (Z.to_nat mnt' - 1)%nat
        with (length toks + (Z.to_nat mnt' - S (length toks)))%nat in Hfinal by lia.
      rewrite repeat_app in Hfinal.
      pose proof (set_slice_middle (p ++ [first]) (repeat (-1) (length toks))
                    (repeat (-1) (Z.to_nat mnt' - S (length toks))) toks) as Hm.
      rewrite repeat_length in Hm. specialize (Hm eq_refl).
      rewrite length_app in Hm. cbn [length] in Hm.
      rewrite <- !app_assoc in Hm. cbn [app] in Hm.
      replace (Z.of_nat (length p + 1)) with (Z.of_nat (length p) + 1) in Hm by lia.
      rewrite Hm in Hfinal. injection Hfinal as <-. reflexivity.
    - injection Hfinal as <-. destruct toks; [| simpl in Hzero; lia].
      reflexivity. }
  exists (first :: toks). cbn [length].
  split; [reflexivity |]. split; [exact Happ |]. split; [lia |]. split; [lia |].
  split; [now rewrite Hprs |]. split; [reflexivity |]. split.
  - intros [|j] t Ht.
    + injection Ht as <-. split; [exact Hfirst | lia].
    + destruct (Htoks j t Ht) as [Hval Hstop]. destruct (Htail j) as [Hlt Hlook].
      cbn [Nat.add] in Hval, Hstop. rewrite Hlt, Hlook in Hval.
      split; [exact Hval |]. intros _ Hs. f_equal. apply Hstop.
      unfold stops in *. now rewrite Hlt.
  - intros Hshort.
    destruct Hearly as (j & t & Hj & Ht & Hs); [lia |].
    exists (S j), t. split; [lia |]. split; [exact Ht |]. split; [lia |].
    destruct (Htail j) as [Hlt _]. cbn [Nat.add] in Hs.
    unfold stops in *. now rewrite <- Hlt.
Qed.

(** [generate] returns whenever the prompt fed to prefill is not empty
    and at least one new token is asked for. *)
Lemma generate_returns (m : model) (prompt : list Z) (mnt : Z) (feed : bool)
    (p : list Z) (prefix : option (list Z)) (mnt' pl : Z) :
  split_prompt (min_cache_length m) feed prompt mnt = (p, prefix, mnt', pl) ->
  p <> [] -> 0 <= pl -> 1 <= mnt' ->
  exists seq prs m',
    generate forward min_cache_length softmax_last argmax
      m prompt mnt terminator_ids feed = Ok (seq, prs, m').
Proof.
  intros Hsplit Hp Hpl Hbudget.
  destruct (split_prompt_cases _ _ _ _ _ _ _ _ Hsplit Hpl)
    as (Hplen & _ & _ & Hprefix).
  unfold generate. rewrite Hsplit. subst pl.
  unfold Tensor1.full.
  destruct (Z.ltb_spec (Z.of_nat (length p) + mnt') 0) as [?|_]; [lia |].
  cbn [mbind result_bind].
  replace (Z.to_nat (Z.of_nat (length p) + mnt'))
    with (length p + (1 + (Z.to_nat mnt' - 1)))%nat by lia.
  rewrite !repeat_app.
  pose proof (set_slice_middle [] (repeat (-1) (length p))
                (repeat (-1) 1 ++ repeat (-1) (Z.to_nat mnt' - 1)) p) as Hm.
  rewrite repeat_length in Hm. specialize (Hm eq_refl).
  cbn [length app] in Hm. rewrite Z.add_0_l in Hm.
  change (Z.of_nat 0) with 0 in Hm. rewrite Hm. cbn [mbind result_bind].
  unfold Tensor1.arange.
  destruct (Z.ltb_spec (Z.of_nat (length p)) 0) as [?|_]; [lia |].
  cbn [mbind result_bind].
  cbv zeta. unfold Tensor1.view_1_m1.
  assert (exists forced,
            match prefix with
            | Some p0 => t ← Tensor1.get p0 0; Ok (Some t)
            | None => Ok None
            end = Ok forced) as [forced ->].
  { destruct Hprefix as [-> | (t & pre & ->)]; [eauto |].
    exists (Some t). change 0 with (Z.of_nat 0).
    rewrite (get_in_range (t :: pre) 0 t eq_refl). reflexivity. }
  cbn [mbind result_bind].
  destruct (prefill_returns m p (Py.range 0 (Z.of_nat (length p))) forced Hp)
    as (first & pr0 & m1 & ->).
  cbn [mbind result_bind].
  cbn [repeat app]. rewrite set_middle. cbn [mbind result_bind].
  unfold decode_n_tokens. rewrite range_0_seq.
  destruct (decode_loop_spec (option_map (fun p => Py.slice_from p 1) prefix)
              (Z.to_nat (mnt' - 1)) 0 m1 [first] [Z.of_nat (length p)] eq_refl)
    as (toks & prs & m2 & Hrun & _ & Hle & _).
  rewrite Hrun. cbn [mbind result_bind].
  destruct (Nat.ltb_spec 0 (length toks)) as [Hpos|Hzero].
  - replace (Z.to_nat mnt' - 1)%nat
      with (length toks + (Z.to_nat mnt' - S (length toks)))%nat by lia.
    rewrite repeat_app.
    pose proof (set_slice_middle (p ++ [first]) (repeat (-1) (length toks))
                  (repeat (-1) (Z.to_nat mnt' - S (length toks))) toks) as Hm2.
    rewrite repeat_length in Hm2. specialize (Hm2 eq_refl).
    rewrite length_app in Hm2. cbn [length] in Hm2.
    rewrite <- !app_assoc in Hm2. cbn [app] in Hm2.
    replace (Z.of_nat (length p + 1)) with (Z.of_nat (length p) + 1) in Hm2 by lia.
    rewrite Hm2. cbn [mbind result_bind]. eauto.
  - cbn [mbind result_bind]. eauto.
Qed.

(** Neither the prompt fed to prefill nor a generated token is the
    sentinel, unless the prompt contains it. *)
Lemma generated_no_sentinel (prompt p gen : list Z) (prefix : option (list Z)) :
  ~ In (-1) prompt ->
  p ++ default [] prefix = prompt ->
  (forall j t, gen !! j = Some t ->
     if (j <? prefix_length prefix)%nat
     then default [] prefix !! j = Some t else 0 <= t) ->
  ~ In (-1) (p ++ gen).
Proof.
  intros Hprompt Happ Hgen Hin. apply in_app_iff in Hin. destruct Hin as [Hin|Hin].
  - apply Hprompt. rewrite <- Happ. apply in_app_iff. now left.
  - apply list_elem_of_In, list_elem_of_lookup in Hin. destruct Hin as [j Hj].
    specialize (Hgen j (-1) Hj).
    destruct (j <? prefix_length prefix)%nat; [| lia].
    apply Hprompt. rewrite <- Happ. apply in_app_iff. right.
    eapply list_elem_of_In, list_elem_of_lookup_2, Hgen.
Qed.

(** C7.  [generate] returns whenever the prompt fed to prefill is not
    empty and at least one new token is asked for.  The sequence it
    returns is its buffer (the prompt fed to prefill, the generated tokens,
    sentinels) cut at the first sentinel: with no sentinel in the prompt,
    the prompt and the generated tokens, without a sentinel tail.  A token
    that the decode loop produces (any generated token but the first,
    which is the prefill's) without teacher forcing and that is a
    terminator is kept and is the last one; the teacher-forced tokens
    replay the prefix, whatever they are; and generation ends before
    [max_new_tokens] tokens only on such a terminator.  So if generated
    token 5 is the terminator 50256 and is not forced, exactly 5 tokens
    are generated. *)
Theorem generate_stops_at_terminator (m : model) (prompt : list Z)
    (max_new_tokens : Z) (feed_long_prompts : bool)
    (prompt' : list Z) (prefix : option (list Z)) (max_new_tokens' prompt_length : Z) :
  let run :=
    generate forward min_cache_length softmax_last argmax
      m prompt max_new_tokens terminator_ids feed_long_prompts in
  split_prompt (min_cache_length m) feed_long_prompts prompt max_new_tokens
    = (prompt', prefix, max_new_tokens', prompt_length) ->
  (prompt' <> [] -> 0 <= prompt_length -> 1 <= max_new_tokens' ->
   exists seq prs m', run = Ok (seq, prs, m'))
  /\ forall seq prs m', run = Ok (seq, prs, m') ->
      exists gen,
        seq = truncate_at_sentinel
                (prompt' ++ gen ++ repeat (-1) (Z.to_nat max_new_tokens' - length gen))
        /\ (~ In (-1) prompt -> seq = prompt' ++ gen /\ ~ In (-1) seq)
        /\ 1 <= Z.of_nat (length gen) <= max_new_tokens'
        /\ (forall j t, gen !! j = Some t ->
              (1 <= j)%nat -> (prefix_length prefix <= j)%nat ->
              in_terminators terminator_ids t = true ->
              length gen = S j)
        /\ (forall j, (j < prefix_length prefix)%nat -> Z.of_nat j < max_new_tokens' ->
              exists t, gen !! j = Some t /\ default [] prefix !! j = Some t)
        /\ (Z.of_nat (length gen) < max_new_tokens' ->
            exists j t, length gen = S j /\ gen !! j = Some t
                        /\ (1 <= j)%nat /\ (prefix_length prefix <= j)%nat
                        /\ in_terminators terminator_ids t = true).
Proof.
  intros run Hsplit. split.
  - intros Hp Hpl Hbudget. eapply generate_returns; eassumption.
  - intros seq prs m' Hgen.
    destruct (generate_spec _ _ _ _ _ _ _ _ _ _ _ Hgen Hsplit)
      as (gen & Hpl & Happ & Hpos & Hle & Hprs & Hseq & Htoks & Hearly).
    assert (Z.of_nat (length gen) < max_new_tokens' ->
            exists j t, length gen = S j /\ gen !! j = Some t
                        /\ (1 <= j)%nat /\ (prefix_length prefix <= j)%nat
                        /\ in_terminators terminator_ids t = true) as Hearly'.
    { intros Hshort. destruct (Hearly Hshort) as (j & t & Hj & Ht & Hj1 & Hs).
      exists j, t. unfold stops in Hs. apply andb_true_iff in Hs.
      destruct Hs as [Hterm Hfree]. apply negb_true_iff, Nat.ltb_ge in Hfree.
      auto. }
    exists gen. split; [exact Hseq |]. split; [| split; [lia | split; [| split]]].
    + intros Hclean.
      assert (~ In (-1) (prompt' ++ gen)) as Hnone.
      { eapply generated_no_sentinel; [exact Hclean | exact Happ |].
        intros j t Ht. apply (Htoks j t Ht). }
      assert (seq = prompt' ++ gen) as ->.
      { rewrite Hseq, app_assoc. now apply truncate_padded. }
      split; [reflexivity | exact Hnone].
    + intros j t Ht Hj Hfree Hterm. symmetry.
      apply (Htoks j t Ht); [exact Hj |].
      unfold stops. rewrite Hterm. apply negb_true_iff, Nat.ltb_ge. exact Hfree.
    + intros j Hj Hbudget.
      destruct (Nat.lt_ge_cases j (length gen)) as [Hin|Hout].
      * destruct (lookup_lt_is_Some_2 gen j Hin) as [t Ht]. exists t.
        split; [exact Ht |]. destruct (Htoks j t Ht) as [Hval _].
        apply Nat.ltb_lt in Hj. now rewrite Hj in Hval.
      * destruct Hearly' as (j0 & t & Hj0 & _ & _ & Hfree & _); lia.
    + exact Hearly'.
Qed.

(** C10.  A successful [generate] on a prompt without sentinel returns a
    sequence that starts with the prompt fed to prefill: the buffer is
    written at the positions from [prompt_length] on only, and the cut at
    the first sentinel comes after them. *)
Theorem generate_keeps_prompt (m : model) (prompt : list Z)
    (max_new_tokens : Z) (feed_long_prompts : bool)
    (seq : list Z) (prs : list probs) (m' : model)
    (prompt' : list Z) (prefix : option (list Z)) (max_new_tokens' prompt_length : Z) :
  ~ In (-1) prompt ->
  generate forward min_cache_length softmax_last argmax
    m prompt max_new_tokens terminator_ids feed_long_prompts = Ok (seq, prs, m') ->
  split_prompt (min_cache_length m) feed_long_prompts prompt max_new_tokens
    = (prompt', prefix, max_new_tokens', prompt_length) ->
  prompt_length = Z.of_nat (length prompt')
  /\ firstn (Z.to_nat prompt_length) seq = prompt'
  /\ forall i, (i < Z.to_nat prompt_length)%nat -> seq !! i = prompt !! i.
Proof.
  intros Hclean Hgen Hsplit.
  destruct (generate_spec _ _ _ _ _ _ _ _ _ _ _ Hgen Hsplit)
    as (gen & Hpl & Happ & _ & _ & _ & Hseq & Htoks & _).
  assert (seq = prompt' ++ gen) as ->.
  { rewrite Hseq, app_assoc. apply truncate_padded.
    eapply generated_no_sentinel; [exact Hclean | exact Happ |].
    intros j t Ht. apply (Htoks j t Ht). }
  split; [exact Hpl |]. rewrite Hpl, Nat2Z.id. split.
  - rewrite firstn_app, firstn_all, Nat.sub_diag, firstn_O. apply app_nil_r.
  - intros i Hi. rewrite <- Happ, !lookup_app_l by exact Hi. reflexivity.
Qed.

End DriverFacts.

(** The example of the specification: the terminator 50256 comes out,
    not forced, as generated token 5, and 5 tokens are generated; and a
    run whose teacher-forced tokens are terminators, which goes on. *)
Lemma generate_stops_at_terminator_witness :
  (exists gen prs m',
     Toy.generate 0%nat [1; 2; 3] 8 (Some [50256]) false
     = Ok ([1; 2; 3] ++ gen, prs, m')
     /\ gen !! 4%nat = Some 50256 /\ length gen = 5%nat)
  /\ (exists gen prs m',
        Toy.generate 0%nat [1; 2; 3; 50256; 50256; 7] 4 (Some [50256]) true
        = Ok ([1; 2; 3] ++ gen, prs, m')
        /\ gen !! 0%nat = Some 50256 /\ gen !! 1%nat = Some 50256
        /\ gen !! 2%nat = Some 7).
Proof.
  split.
  - destruct (generate_stops_at_terminator _ _ _
                Toy.forward Toy.min_cache_length Toy.softmax_last Toy.argmax
                (Some [50256]) 0%nat [1; 2; 3] 8 false
                [1; 2; 3] None 8 3 ltac:(reflexivity))
      as [Hreturns Hspec].
    destruct (Hreturns ltac:(discriminate) ltac:(lia) ltac:(lia))
      as (seq & prs & m' & Hrun).
    destruct (Hspec seq prs m' Hrun) as (gen & _ & Hclean & _ & Hstop & _).
    destruct Hclean as [Hseq _]; [vm_compute; intuition discriminate |].
    exists gen, prs, m'. rewrite <- Hseq. split; [exact Hrun |].
    vm_compute in Hrun. injection Hrun as <- _ _.
    change [1; 2; 3; 11; 12; 13; 14; 50256]
      with ([1; 2; 3] ++ [11; 12; 13; 14; 50256]) in Hseq.
    apply app_inv_head in Hseq. subst gen. split; [reflexivity |].
    apply (Hstop 4%nat 50256); [reflexivity | lia | simpl; lia | reflexivity].
  - destruct (generate_stops_at_terminator _ _ _
                Toy.forward Toy.min_cache_length Toy.softmax_last Toy.argmax
                (Some [50256]) 0%nat [1; 2; 3; 50256; 50256; 7] 4 true
                [1; 2; 3] (Some [50256; 50256; 7]) 7 3 ltac:(reflexivity))
      as [Hreturns Hspec].
    destruct (Hreturns ltac:(discriminate) ltac:(lia) ltac:(lia))
      as (seq & prs & m' & Hrun).
    destruct (Hspec seq prs m' Hrun) as (gen & _ & Hclean & _ & _ & Hforced & _).
    destruct Hclean as [Hseq _]; [vm_compute; intuition discriminate |].
    exists gen, prs, m'. rewrite <- Hseq. split; [exact Hrun |].
    destruct (Hforced 0%nat ltac:(simpl; lia) ltac:(lia)) as (t0 & Hg0 & [= <-]).
    destruct (Hforced 1%nat ltac:(simpl; lia) ltac:(lia)) as (t1 & Hg1 & [= <-]).
    destruct (Hforced 2%nat ltac:(simpl; lia) ltac:(lia)) as (t2 & Hg2 & [= <-]).
    auto.
Defined.

(** The token of the prefill is outside the decode loop: a terminator
    there does not end the generation. *)
Lemma prefill_terminator_goes_on :
  Toy.generate 0%nat [1; 2; 3] 3 (Some [11]) false
  = Ok ([1; 2; 3; 11; 12; 13], [0; 1; 2]%nat, 3%nat).
Proof. vm_compute. reflexivity. Qed.

Lemma generate_keeps_prompt_witness :
  exists seq prs m',
    Toy.generate 0%nat [1; 2; 3; 9] 3 (Some [50256]) false = Ok (seq, prs, m')
    /\ firstn 3 seq = [1; 2; 3].
Proof.
  exists [1; 2; 3; 9; 12; 13; 14], [0; 1; 2; 3]%nat, 4%nat.
  split; [vm_compute; reflexivity |].
  apply (generate_keeps_prompt _ _ _
           Toy.forward Toy.min_cache_length Toy.softmax_last Toy.argmax
           (Some [50256]) 0%nat [1; 2; 3; 9] 3 false
           [1; 2; 3; 9; 12; 13; 14] [0; 1; 2; 3]%nat 4%nat
           [1; 2; 3] (Some [9]) 4 3).
  - vm_compute. intuition discriminate.
  - vm_compute. reflexivity.
  - reflexivity.
Defined.

(** ** When the scoring policies return *)

Lemma Forall2_chain {X Y W : Type} (P : X -> Y -> Prop) (Q : Y -> W -> Prop)
    (R : X -> W -> Prop) (l1 : list X) (l2 : list Y) (l3 : list W) :
  (forall x y w, P x y -> Q y w -> R x w) ->
  Forall2 P l1 l2 -> Forall2 Q l2 l3 -> Forall2 R l1 l3.
Proof.
  intros HPQ H12. revert l3. induction H12 as [|x y l1 l2 Hxy _ IH]; intros l3 H23.
  - inversion H23. constructor.
  - inversion H23 as [|? w ? l3' Hyw H23']; subst.
    constructor; [eapply HPQ; eassumption | now apply IH].
Qed.

Lemma Forall2_map_r {X Y : Type} (f : X -> Y) (l : list X) :
  Forall2 (fun x y => y = f x) l (map f l).
Proof. induction l; simpl; constructor; auto. Qed.

Lemma map_result2_total {X Y : Type} (P : X -> Y -> Prop) (f : X -> result Y)
    (t : list (list X)) :
  Forall (Forall (fun a => exists y, f a = Ok y /\ P a y)) t ->
  exists r, map_result (map_result f) t = Ok r /\ Forall2 (Forall2 P) t r.
Proof.
  intros H. apply map_result_total.
  eapply Forall_impl; [exact H |]. intros heads Hheads.
  now apply map_result_total.
Qed.

Lemma zip_result_total {X Y C : Type} (f : X -> Y -> result C)
    (xs : list X) (ys : list Y) :
  Forall2 (fun x y => exists c, f x y = Ok c) xs ys ->
  exists cs, Torch.zip_result f xs ys = Ok cs.
Proof.
  induction 1 as [|x y xs ys [c Hc] _ [cs Hcs]]; simpl.
  - eauto.
  - rewrite Hc. cbn. rewrite Hcs. cbn. eauto.
Qed.

Lemma gather_dim2_total {X : Type} (t : list (list (list X)))
    (keep : list (list (list Z))) :
  Forall2 (Forall2 (fun rows idxs =>
             Forall (fun i => 0 <= i < Z.of_nat (length rows)) idxs)) t keep ->
  exists out, Torch.gather_dim2 t keep = Ok out.
Proof.
  intros H. apply zip_result_total.
  eapply Forall2_impl; [exact H |]. intros heads kheads Hh. cbn beta in Hh.
  apply zip_result_total.
  eapply Forall2_impl; [exact Hh |]. intros rows idxs Hidx. cbn beta in Hidx.
  unfold Torch.gather_row.
  destruct (map_result_total (fun _ _ => True)
              (fun i => if i <? 0 then Raise RuntimeError
                        else match rows !! Z.to_nat i with
                             | Some r => Ok r
                             | None => Raise RuntimeError
                             end) idxs) as (out & Hout & _); [| eauto].
  eapply Forall_impl; [exact Hidx |]. intros i Hi. cbn beta in Hi.
  destruct (Z.ltb_spec i 0); [lia |].
  destruct (lookup_lt_is_Some_2 rows (Z.to_nat i)) as [r ->]; [lia | eauto].
Qed.

(** The keep indices that [topk] and the sort produce lie inside the row. *)
Lemma topk_sorted_in_range {Sc : Type} (better : Sc -> Sc -> bool)
    (x : list Sc) (k : Z) :
  (forall a b, better a b = true \/ better b a = true) ->
  (forall a b c, better a b = true -> better b c = true -> better a c = true) ->
  0 <= k <= Z.of_nat (length x) ->
  exists idxs,
    (sel ← Torch.topk better x k; Ok (Torch.sort_indices sel)) = Ok idxs
    /\ Forall (fun i => 0 <= i < Z.of_nat (length x)) idxs.
Proof.
  intros Htotal Htrans Hk.
  destruct (Torch.topk better x k) as [sel|e] eqn:Htopk.
  - exists (Torch.sort_indices sel). split; [reflexivity |].
    destruct (topk_spec _ Htotal Htrans x k sel Htopk) as (_ & _ & Hnd & Hval & _).
    destruct (sort_indices_spec sel Hnd) as (Hmem & Hnonneg & _).
    apply List.Forall_forall. intros z Hz.
    pose proof (Hnonneg z Hz) as Hz0. split; [exact Hz0 |].
    rewrite <- (Z2Nat.id z Hz0) in Hz. apply Hmem in Hz.
    apply in_map_iff in Hz. destruct Hz as ([s i] & Hi & Hin). simpl in Hi.
    apply Hval, lookup_lt_Some in Hin. lia.
  - exfalso. unfold Torch.topk in Htopk.
    destruct (Z.ltb_spec k 0); [lia |]. destruct (Z.ltb_spec (Z.of_nat (length x)) k); [lia |].
    discriminate.
Qed.

(** L2 returns on key and value buffers of one shape, as long as the
    span, for any capacity up to the span length. *)
Lemma l2_returns {A : Type} (vector_norm : A -> Q) (g rw c : Z)
    (input_pos : list Z) (k_val v_val : list (list (list A))) :
  dim2_is (length input_pos) k_val ->
  Forall2 (Forall2 (fun rk rv => length rv = length rk)) k_val v_val ->
  0 <= c <= Z.of_nat (length input_pos) ->
  exists keep k' v',
    PromptCompressorL2.__call__ vector_norm g rw c input_pos k_val v_val
    = Ok (keep, k', v').
Proof.
  intros Hk Hv Hc. unfold PromptCompressorL2.__call__.
  set (n := length input_pos) in *.
  set (mask := PromptCompressorL2.locality_mask g rw input_pos).
  assert (length mask = n) as Hmask
    by (unfold mask, PromptCompressorL2.locality_mask; now rewrite length_map).
  (* the masked scores *)
  destruct (map_result2_total (fun x es => length es = n /\ length x = n)
              (fun x => PromptCompressorL2.masked_fill x mask)
              (map (map (map vector_norm)) k_val)) as (scores & -> & Hscores).
  { apply List.Forall_forall. intros nheads Hn. apply in_map_iff in Hn.
    destruct Hn as (heads & <- & Hheads).
    apply List.Forall_forall. intros x Hx. apply in_map_iff in Hx.
    destruct Hx as (rows & <- & Hrows).
    unfold dim2_is in Hk. rewrite List.Forall_forall in Hk.
    specialize (Hk heads Hheads). rewrite List.Forall_forall in Hk.
    specialize (Hk rows Hrows).
    assert (length mask = length (map vector_norm rows)) as Hlen
      by (rewrite length_map; congruence).
    unfold PromptCompressorL2.masked_fill. rewrite Hlen, Nat.eqb_refl.
    eexists. split; [reflexivity |].
    rewrite length_zip_with, <- Hlen. rewrite length_map in Hlen. lia. }
  cbn [mbind result_bind].
  (* the keep indices *)
  destruct (map_result2_total
              (fun es idxs => Forall (fun i => 0 <= i < Z.of_nat n) idxs)
              (fun x => sel ← Torch.topk PromptCompressorL2.score_leb x c;
                        Ok (Torch.sort_indices sel)) scores)
    as (keep & -> & Hkeep).
  { assert (Forall (Forall (fun es => length es = n)) scores) as Hlens.
    { clear -Hscores. induction Hscores as [|x y ? ? Hxy _ IH]; constructor; [| exact IH].
      clear -Hxy. induction Hxy as [|? ? ? ? [H _] _ IH]; constructor; auto. }
    eapply Forall_impl; [exact Hlens |]. intros heads Hheads.
    eapply Forall_impl; [exact Hheads |]. intros es Hes. cbn beta in Hes.
    rewrite <- Hes. apply topk_sorted_in_range;
      [apply score_leb_total | apply score_leb_trans | rewrite Hes; exact Hc]. }
  cbn [mbind result_bind].
  (* the gathers *)
  assert (Forall2 (Forall2 (fun (rows : list A) idxs =>
            Forall (fun i => 0 <= i < Z.of_nat (length rows)) idxs)) k_val keep)
    as Hkk.
  { eapply Forall2_chain; [| | exact Hkeep].
    2: { eapply Forall2_chain; [| apply Forall2_map_r | exact Hscores].
         intros heads nheads sheads Hnh Hsh. cbn beta in Hnh. subst nheads.
         eapply Forall2_chain; [| apply Forall2_map_r | exact Hsh].
         intros rows x es Hx [Hes Hlen]. cbn beta in Hx. subst x.
         rewrite length_map in Hlen. exact (conj Hes Hlen). }
    intros heads sheads kheads H1 H2. cbn beta in H1.
    eapply Forall2_chain; [| exact H1 | exact H2].
    intros rows es idxs [_ Hrows] Hidx. cbn beta in Hidx. now rewrite Hrows. }
  destruct (gather_dim2_total _ _ Hkk) as (k' & ->). cbn [mbind result_bind].
  assert (Forall2 (Forall2 (fun (rows : list A) idxs =>
            Forall (fun i => 0 <= i < Z.of_nat (length rows)) idxs)) v_val keep)
    as Hvk.
  { eapply Forall2_chain; [| apply Forall2_flip; exact Hv | exact Hkk].
    intros vheads heads kheads H1 H2. cbn beta in H1.
    eapply Forall2_chain; [| apply Forall2_flip; exact H1 | exact H2].
    intros rv rk idxs Hlen Hidx. cbn beta in Hlen. now rewrite Hlen. }
  destruct (gather_dim2_total _ _ Hvk) as (v' & ->). cbn [mbind result_bind].
  eauto.
Qed.

Lemma Forall2_2_right {X Y : Type} (P : X -> Y -> Prop)
    (t : list (list X)) (r : list (list Y)) :
  Forall2 (Forall2 P) t r -> Forall (Forall (fun y => exists x, P x y)) r.
Proof.
  induction 1 as [|xs ys ? ? H _ IH]; constructor; [| exact IH].
  clear -H. induction H; constructor; eauto.
Qed.

Lemma Forall_diag {X : Type} (P : X -> Prop) (l : list X) :
  Forall P l -> Forall2 (fun x y => y = x /\ P x) l l.
Proof. induction 1; constructor; auto. Qed.

Lemma shape3_eq {X Y : Type} (t : list (list (list X))) (r : list (list (list Y))) :
  Forall2 (Forall2 (fun x y => length y = length x)) t r ->
  Torch.shape3 r = Torch.shape3 t.
Proof.
  unfold Torch.shape3, Torch.shape2.
  induction 1 as [|xs ys ? ? H _ IH]; simpl; [reflexivity |].
  rewrite IH. f_equal. clear -H.
  induction H as [|? ? ? ? Hlen _ IH]; simpl; [reflexivity | now rewrite Hlen, IH].
Qed.

(** SnapKV returns on a head-specific cache, for attention weights over
    [n >= 1] keys, key and value buffers of the heads of the attention
    with [n] positions, and any capacity up to [n]. *)
Lemma snapkv_returns {A : Type} (c : Z) (input_pos : list Z)
    (k_val v_val : list (list (list A)))
    (attn : list (list (list (list Q)))) (n : nat) :
  attention_weights n attn ->
  (1 <= n)%nat -> 0 <= c <= Z.of_nat n ->
  Forall2 (Forall2 (fun (rows : list (list Q)) (rk : list A) => length rk = n)) attn k_val ->
  Forall2 (Forall2 (fun (rows : list (list Q)) (rv : list A) => length rv = n)) attn v_val ->
  exists keep k' v' history,
    PromptCompressorSnapKV.__call__ true c input_pos k_val v_val attn
    = Ok (keep, k', v', history).
Proof.
  intros Hattn Hn Hc Hk Hv. rewrite snapkv_call_unfold.
  cbn [py_assert mbind result_bind]. cbv zeta.
  set (is_raw := fun (x : list Q) =>
         exists rows, rows <> [] /\ Forall (attention_row n) rows
           /\ x = Torch.mean_rows
                    (Py.slice_from rows (- PromptCompressorSnapKV.observation_len))).
  assert (Forall2 (Forall2 (fun rows x => is_raw x /\ length x = n))
            attn (snapkv_raw_priority attn)) as Hraw.
  { unfold snapkv_raw_priority.
    eapply Forall2_chain;
      [| apply Forall_diag; exact Hattn | apply Forall2_map_r].
    intros heads heads' xs Hheads Hxs. cbn beta in Hheads, Hxs.
    destruct Hheads as [-> Hheads]. subst xs.
    eapply Forall2_chain;
      [| apply Forall_diag; exact Hheads | apply Forall2_map_r].
    intros rows rows' x [-> [Hne Hrw]] ->.
    split; [exists rows; auto |]. now apply snapkv_raw_length. }
  (* pooling *)
  destruct (map_result2_total
              (fun x y => y = Torch.avg_pool1d PromptCompressorSnapKV.kernel_size
                                (PromptCompressorSnapKV.kernel_size / 2) x
                          /\ is_raw x)
              (fun x => match x with
                        | [] => Raise RuntimeError
                        | _ => Ok (Torch.avg_pool1d PromptCompressorSnapKV.kernel_size
                                     (PromptCompressorSnapKV.kernel_size / 2) x)
                        end)
              (snapkv_raw_priority attn)) as (pooled & Hpool & Hpooled).
  { eapply Forall_impl; [exact (Forall2_2_right _ _ _ Hraw) |].
    intros xs Hxs. eapply Forall_impl; [exact Hxs |].
    intros x (rows & Hx & Hlen). cbn beta.
    destruct x as [|a x]; [simpl in Hlen; lia |]. eauto. }
  unfold PromptCompressorSnapKV.pool. rewrite Hpool. cbn [mbind result_bind].
  assert (Forall2 (Forall2 (fun (x y : list Q) => length y = length x))
            (snapkv_raw_priority attn) pooled) as Hsame.
  { eapply Forall2_impl; [exact Hpooled |]. intros xs ys Hxy.
    eapply Forall2_impl; [exact Hxy |]. intros x y [-> (rows & Hne & Hrw & ->)].
    rewrite (snapkv_pool_length n rows Hne Hrw), (snapkv_raw_length n rows Hne Hrw).
    reflexivity. }
  rewrite (shape3_eq _ _ Hsame), bool_decide_eq_true_2 by reflexivity.
  cbn [py_assert mbind result_bind].
  (* selection *)
  destruct (map_result2_total
              (fun (x : list Q) idxs => Forall (fun i => 0 <= i < Z.of_nat n) idxs)
              (fun x => sel ← Torch.topk (fun a b => Qle_bool b a) x c;
                        Ok (Torch.sort_indices sel))
              (map (map (fun x =>
                      Torch.fill_from x (- PromptCompressorSnapKV.observation_len) 1%Q))
                   pooled)) as (keep & -> & Hkeep).
  { apply List.Forall_forall. intros ps Hps. apply in_map_iff in Hps.
    destruct Hps as (ys & <- & Hys).
    apply List.Forall_forall. intros p Hp. apply in_map_iff in Hp.
    destruct Hp as (y & <- & Hy).
    pose proof (Forall2_2_right _ _ _ Hpooled) as Hall.
    rewrite List.Forall_forall in Hall. specialize (Hall ys Hys).
    rewrite List.Forall_forall in Hall.
    destruct (Hall y Hy) as (x & -> & rows & Hne & Hrw & ->).
    destruct (snapkv_scores n rows Hne Hrw 0%nat 0%Q) as [Hlen _].
    cbv zeta in Hlen.
    edestruct (topk_sorted_in_range (fun a b => Qle_bool b a)) as (idxs & Hidxs & Hin);
      [apply Qge_bool_total | intros a b d; apply Qge_bool_trans
       | rewrite Hlen; exact Hc |].
    exists idxs. split; [exact Hidxs |]. now rewrite Hlen in Hin. }
  cbn [mbind result_bind].
  (* gathers *)
  assert (Forall2 (Forall2 (fun (rows : list (list Q)) idxs =>
            Forall (fun i => 0 <= i < Z.of_nat n) idxs)) attn keep) as Hak.
  { eapply Forall2_chain; [| exact Hraw |].
    2: { eapply Forall2_chain; [| exact Hpooled |].
         2: { eapply Forall2_chain; [| apply Forall2_map_r | exact Hkeep].
              intros ys ps ks Hps Hks. cbn beta in Hps. subst ps.
              eapply Forall2_chain; [| apply Forall2_map_r | exact Hks].
              intros y p idxs _ Hidx. exact Hidx. }
         intros xs ys ks Hxy Hyk.
         eapply Forall2_chain; [| exact Hxy | exact Hyk].
         intros x y idxs _ Hidx. exact Hidx. }
    intros rows xs ks Hrx Hxk.
    eapply Forall2_chain; [| exact Hrx | exact Hxk].
    intros r x idxs _ Hidx. exact Hidx. }
  destruct (gather_dim2_total (snapkv_raw_priority attn) keep) as (history & ->).
  { eapply Forall2_chain; [| apply Forall2_flip; exact Hraw | exact Hak].
    intros xs rows ks Hxr Hrk. cbn beta in Hxr.
    eapply Forall2_chain; [| apply Forall2_flip; exact Hxr | exact Hrk].
    intros x r idxs [_ Hlen] Hidx. cbn beta in Hidx. now rewrite Hlen. }
  cbn [mbind result_bind].
  destruct (gather_dim2_total k_val keep) as (k' & ->).
  { eapply Forall2_chain; [| apply Forall2_flip; exact Hk | exact Hak].
    intros xs rows ks Hxr Hrk. cbn beta in Hxr.
    eapply Forall2_chain; [| apply Forall2_flip; exact Hxr | exact Hrk].
    intros x r idxs Hlen Hidx. cbn beta in Hlen, Hidx. now rewrite Hlen. }
  cbn [mbind result_bind].
  destruct (gather_dim2_total v_val keep) as (v' & ->).
  { eapply Forall2_chain; [| apply Forall2_flip; exact Hv | exact Hak].
    intros xs rows ks Hxr Hrk. cbn beta in Hxr.
    eapply Forall2_chain; [| apply Forall2_flip; exact Hxr | exact Hrk].
    intros x r idxs Hlen Hidx. cbn beta in Hlen, Hidx. now rewrite Hlen. }
  cbn [mbind result_bind]. eauto.
Qed.

(** * Further properties of the code *)

(** ** [compute_max_seq_length] *)

Lemma fold_left_max_spec (l : list Z) (x : Z) :
  let m := fold_left Z.max l x in
  x <= m /\ (forall y, In y l -> y <= m) /\ (m = x \/ In m l).
Proof.
  revert x. induction l as [|a l IH]; intros x; simpl.
  - split; [lia |]. split; [tauto | now left].
  - destruct (IH (Z.max x a)) as (Hx & Hl & Hm).
    split; [lia |]. split.
    + intros y [<- | Hy]; [lia | now apply Hl].
    + destruct Hm as [Hm | Hm]; [| right; now right].
      rewrite Hm.
      destruct (Z.max_spec x a) as [[_ E] | [_ E]]; rewrite E.
      * right. now left.
      * now left.
Qed.

(** X1.  [compute_max_seq_length] raises [ValueError] without prompts.
    Otherwise it returns the length of a longest prompt and, as the
    sequence length, that length plus [max_new_tokens] cut down to
    [block_size]: never more than the model's maximum (and so possibly
    less than the longest prompt). *)
Theorem compute_max_seq_length_spec {T : Type} (block_size : Z)
    (prompt_lens : list (list T)) (max_new_tokens : Z) :
  (prompt_lens = [] ->
   compute_max_seq_length block_size prompt_lens max_new_tokens = Raise ValueError)
  /\ (prompt_lens <> [] ->
      exists max_prompt_length,
        compute_max_seq_length block_size prompt_lens max_new_tokens
        = Ok (max_prompt_length,
              Z.min (max_prompt_length + max_new_tokens) block_size)
        /\ (forall p, In p prompt_lens -> Z.of_nat (length p) <= max_prompt_length)
        /\ (exists p, In p prompt_lens /\ Z.of_nat (length p) = max_prompt_length)).
Proof.
  split.
  - intros ->. reflexivity.
  - intros Hne. destruct prompt_lens as [|p0 ps]; [contradiction |].
    unfold compute_max_seq_length. cbn [map py_max mbind result_bind].
    set (lens := map (fun p : list T => Z.of_nat (length p)) ps).
    destruct (fold_left_max_spec lens (Z.of_nat (length p0))) as (H0 & Hall & Hmax).
    set (m := fold_left Z.max lens (Z.of_nat (length p0))) in *.
    exists m. split; [| split].
    + do 2 f_equal. destruct (Z.gtb_spec (m + max_new_tokens) block_size); lia.
    + intros p [<- | Hp]; [exact H0 |].
      apply Hall. unfold lens. apply in_map_iff. now exists p.
    + destruct Hmax as [Hm | Hm].
      * exists p0. split; [now left | now symmetry].
      * unfold lens in Hm. apply in_map_iff in Hm. destruct Hm as (p & Hp & Hin).
        exists p. split; [now right | exact Hp].
Qed.

Lemma compute_max_seq_length_spec_witness :
  compute_max_seq_length 10 [[1; 2; 3]; [4; 5; 6; 7; 8]; [9]] 8 = Ok (5, 10)
  /\ compute_max_seq_length 10 ([] : list (list Z)) 8 = Raise ValueError.
Proof.
  split.
  - destruct (compute_max_seq_length_spec 10 [[1; 2; 3]; [4; 5; 6; 7; 8]; [9]] 8)
      as [_ H].
    destruct H as (m & Heq & _ & _); [discriminate |].
    rewrite Heq. vm_compute in Heq. injection Heq as <-. reflexivity.
  - now apply (compute_max_seq_length_spec 10 ([] : list (list Z)) 8).
Defined.

(** ** [normalize_cache_length] on any specification *)

Lemma int_inject_Z (c : Z) : Py.int (inject_Z c) = c.
Proof.
  unfold Py.int.
  destruct (Qle_bool 0 (inject_Z c)); [apply Qfloor_Z | apply Qceiling_Z].
Qed.

Lemma inject_Z_fraction (c : Z) :
  negb (Qle_bool (inject_Z c) 0) && Qle_bool (inject_Z c) 1 = (c =? 1).
Proof.
  destruct (Qle_bool (inject_Z c) 0) eqn:E0, (Qle_bool (inject_Z c) 1) eqn:E1;
    simpl; symmetry.
  - apply Qle_bool_iff in E0. unfold Qle in E0. simpl in E0. lia.
  - apply Qle_bool_iff in E0. unfold Qle in E0. simpl in E0. lia.
  - apply Qle_bool_iff in E1. unfold Qle in E1. simpl in E1.
    assert (~ (inject_Z c <= 0)%Q) as H0
      by (intros H; apply Qle_bool_iff in H; congruence).
    unfold Qle in H0. simpl in H0. lia.
  - assert (~ (inject_Z c <= 1)%Q) as H1
      by (intros H; apply Qle_bool_iff in H; congruence).
    unfold Qle in H1. simpl in H1. lia.
Qed.

Lemma round_Qeq (x y : Q) : (x == y)%Q -> Py.round x = Py.round y.
Proof.
  intros E. unfold Py.round. rewrite (Qfloor_comp _ _ E).
  assert ((x - inject_Z (Qfloor y) ?= 1 # 2)%Q
          = (y - inject_Z (Qfloor y) ?= 1 # 2)%Q) as ->; [| reflexivity].
  apply Qcompare_comp; [rewrite E |]; reflexivity.
Qed.

Lemma round_inject_Z (c : Z) : Py.round (inject_Z c) = c.
Proof.
  unfold Py.round. rewrite Qfloor_Z.
  assert ((inject_Z c - inject_Z c ?= 1 # 2)%Q = Lt) as ->; [| reflexivity].
  apply Qlt_alt.
  assert (inject_Z c - inject_Z c == 0)%Q as E by ring.
  rewrite E. reflexivity.
Qed.

Lemma normalize_cache_length_bound (spec : Q) (max_seq_length k r : Z) :
  normalize_cache_length spec max_seq_length k = Ok r -> r <= max_seq_length.
Proof.
  unfold normalize_cache_length. intros H. inv_bind H as l Hl.
  injection H as <-. lia.
Qed.

(** An integer specification: 1 is the fraction 100%, any other integer
    an absolute length. *)
Lemma normalize_int (c max_seq_length k : Z) :
  normalize_cache_length (inject_Z c) max_seq_length k
  = Ok (Z.min (find_multiple
                 (if c =? 1 then max_seq_length else Z.min c max_seq_length) k)
               max_seq_length).
Proof.
  unfold normalize_cache_length. rewrite inject_Z_fraction.
  destruct (Z.eqb_spec c 1) as [-> | Hc].
  - cbn [mbind result_bind]. do 3 f_equal.
    rewrite <- (round_inject_Z max_seq_length) at 2.
    apply round_Qeq. rewrite mul_ints. change (inject_Z 1) with 1%Q. ring.
  - rewrite int_inject_Z.
    assert (Qeq_bool (inject_Z c) (inject_Z c) = true) as ->
      by (apply Qeq_bool_iff; reflexivity).
    cbn [py_assert mbind result_bind]. do 3 f_equal.
    destruct (Z.gtb_spec c max_seq_length); lia.
Qed.



Lemma normalize_cache_length_again (spec : Q) (max_seq_length multiple_of r : Z) :
  2 <= multiple_of ->
  normalize_cache_length spec max_seq_length multiple_of = Ok r ->
  normalize_cache_length (inject_Z r) max_seq_length multiple_of = Ok r.
Proof.
  intros Hk Hr.
  assert (exists l, r = Z.min (find_multiple l multiple_of) max_seq_length) as [l ->].
  { unfold normalize_cache_length in Hr. inv_bind Hr as l Hl.
    injection Hr as <-. eauto. }
  destruct (find_multiple_next l multiple_of ltac:(lia)) as [[q Hq] Hrange].
  remember (find_multiple l multiple_of) as up eqn:Hup.
  rewrite normalize_int. f_equal.
  destruct (Z.eqb_spec (Z.min up max_seq_length) 1) as [E1 | E1].
  - assert (up <> 1)
      by (intros E; rewrite E in Hq; destruct (Z.le_gt_cases q 0); nia).
    assert (max_seq_length = 1) as -> by lia.
    destruct (find_multiple_next 1 multiple_of ltac:(lia)). lia.
  - assert (Z.min (Z.min up max_seq_length) max_seq_length
            = Z.min up max_seq_length) as -> by lia.
    destruct (Z.min_spec up max_seq_length) as [[Hlt ->] | [Hle ->]].
    + assert (find_multiple up multiple_of = up) as ->; [| lia].
      unfold find_multiple.
      assert (up mod multiple_of = 0) as -> by (rewrite Hq; apply Z.mod_mul; lia).
      reflexivity.
    + destruct (find_multiple_next max_seq_length multiple_of ltac:(lia)). lia.
Qed.

(** X3.  For a [multiple_of] of at least 2 (as the default 8), the
    lengths that [normalize_cache_length] leaves as they are, are the
    multiples of [multiple_of] up to [max_seq_length], and
    [max_seq_length] itself; every length it returns is one of them:
    normalizing twice is normalizing once. *)
Theorem normalize_cache_length_idempotent (max_seq_length multiple_of r : Z) :
  2 <= multiple_of ->
  (normalize_cache_length (inject_Z r) max_seq_length multiple_of = Ok r
   <-> r <= max_seq_length /\ ((multiple_of | r) \/ r = max_seq_length))
  /\ forall spec,
       normalize_cache_length spec max_seq_length multiple_of = Ok r ->
       normalize_cache_length (inject_Z r) max_seq_length multiple_of = Ok r.
Proof.
  intros Hk. split; [| intros spec; now apply normalize_cache_length_again].
  rewrite normalize_int.
  set (l := if r =? 1 then max_seq_length else Z.min r max_seq_length).
  destruct (find_multiple_next l multiple_of ltac:(lia)) as [Hdiv Hrange].
  destruct (find_multiple_next max_seq_length multiple_of ltac:(lia)) as [_ Hup].
  split.
  - intros [= Hr]. split; [lia |].
    destruct (Z.min_spec (find_multiple l multiple_of) max_seq_length)
      as [[_ E] | [_ E]]; rewrite E in Hr;
      [left; rewrite <- Hr; exact Hdiv | right; now symmetry].
  - intros [Hle Hfix]. f_equal. unfold l in *.
    destruct (Z.eqb_spec r 1) as [-> | Hr1].
    + destruct Hfix as [[q Hq] | <-]; [| lia].
      destruct (Z.le_gt_cases q 0); nia.
    + assert (Z.min r max_seq_length = r) as Hmin by lia.
      rewrite Hmin in Hdiv, Hrange |- *.
      destruct Hfix as [[q Hq] | ->]; [| lia].
      assert (find_multiple r multiple_of = r) as ->; [| lia].
      unfold find_multiple.
      assert (r mod multiple_of = 0) as -> by (rewrite Hq; apply Z.mod_mul; lia).
      reflexivity.
Qed.

Lemma normalize_cache_length_idempotent_witness :
  normalize_cache_length (inject_Z 40) 100 8 = Ok 40
  /\ normalize_cache_length (inject_Z 100) 100 8 = Ok 100.
Proof.
  split.
  - apply (normalize_cache_length_idempotent 100 8 40 ltac:(lia)).
    split; [lia | left; now exists 5].
  - destruct (normalize_cache_length_idempotent 100 8 100 ltac:(lia)) as [_ H].
    apply (H (Py.float (99 # 100))). vm_compute. reflexivity.
Defined.

(** ** [setup_caches]: what a successful call leaves, and when it fails *)

Lemma fold_left_min_spec (l : list Z) (x : Z) :
  let m := fold_left Z.min l x in
  m <= x /\ (forall y, In y l -> m <= y) /\ (m = x \/ In m l).
Proof.
  revert x. induction l as [|a l IH]; intros x; simpl.
  - split; [lia |]. split; [tauto | now left].
  - destruct (IH (Z.min x a)) as (Hx & Hl & Hm).
    split; [lia |]. split.
    + intros y [<- | Hy]; [lia | now apply Hl].
    + destruct Hm as [Hm | Hm]; [| right; now right].
      rewrite Hm.
      destruct (Z.min_spec x a) as [[_ E] | [_ E]]; rewrite E.
      * now left.
      * right. now left.
Qed.

Lemma py_min_spec (l : list Z) (m : Z) :
  Py.min l = Ok m <-> In m l /\ forall y, In y l -> m <= y.
Proof.
  destruct l as [|x l]; simpl.
  - split; [discriminate | intros [[] _]].
  - destruct (fold_left_min_spec l x) as (Hx & Hl & Hm). split.
    + intros [= <-]. split.
      * destruct Hm as [-> | Hm]; [now left | now right].
      * intros y [<- | Hy]; [exact Hx | now apply Hl].
    + intros [Hin Hle]. f_equal.
      assert (In (fold_left Z.min l x) (x :: l)) as Hin'
        by (destruct Hm as [-> | Hm]; [now left | now right]).
      apply Hle in Hin'.
      assert (fold_left Z.min l x <= m)
        by (destruct Hin as [<- | Hin]; [exact Hx | now apply Hl]).
      lia.
Qed.

Lemma py_min_total (l : list Z) : l <> [] -> exists m, Py.min l = Ok m.
Proof. destruct l; [contradiction | eexists; reflexivity]. Qed.

Lemma flat_map_repeat_length {A : Type} (l : list A) (t : nat) :
  length (flat_map (fun c => repeat c t) l) = (length l * t)%nat.
Proof.
  induction l as [|a l IH]; simpl; [reflexivity |].
  now rewrite length_app, repeat_length, IH.
Qed.

Lemma flat_map_repeat_In {A : Type} (l : list A) (t : nat) (c : A) :
  In c (flat_map (fun c => repeat c t) l) <-> In c l /\ (0 < t)%nat.
Proof.
  rewrite in_flat_map. split.
  - intros (a & Ha & Hc). pose proof (repeat_spec _ _ _ Hc) as ->.
    split; [exact Ha |]. destruct t; [contradiction | lia].
  - intros [Hc Ht]. exists c. split; [exact Hc |].
    destruct t; [lia | now left].
Qed.

Lemma flat_map_repeat_1 {A : Type} (l : list A) :
  flat_map (fun c => repeat c 1) l = l.
Proof. induction l as [|a l IH]; simpl; [reflexivity | f_equal; exact IH]. Qed.

Lemma map_result_map_fixed {A B : Type} (f : A -> result B) (g : B -> A) (l : list B) :
  Forall (fun b => f (g b) = Ok b) l -> map_result f (map g l) = Ok l.
Proof.
  induction 1 as [|b l Hb _ IH]; simpl; [reflexivity |].
  rewrite Hb. cbn. rewrite IH. reflexivity.
Qed.

(** The steps of a successful [setup_caches], one by one. *)
Lemma setup_caches_inv (n_layer : Z) (special_ids punctuation_ids : list Z)
    (max_seq_length : Z) (kw : cache_kwargs) (st : cache_setup) :
  setup_caches n_layer special_ids punctuation_ids max_seq_length kw = Ok st ->
  exists lens m,
    map_result (fun l => normalize_cache_length l max_seq_length 8)
               (kw_max_cache_length kw) = Ok lens
    /\ Z.of_nat (length lens) <> 0
    /\ n_layer mod Z.of_nat (length lens) = 0
    /\ max_cache_length st
       = flat_map (fun c => repeat c (Z.to_nat (n_layer / Z.of_nat (length lens)))) lens
    /\ Py.min (max_cache_length st) = Ok m
    /\ kw_global_tokens kw <= m
    /\ drop_amount st
       = match kw_drop_amount kw with
         | inr ds => ds
         | inl d => map (fun l => Z.max (Py.int (Py.mul d (inject_Z l))) 1)
                        (max_cache_length st)
         end
    /\ global_tokens st = kw_global_tokens kw
    /\ cache_strategy st = kw_cache_strategy kw
    /\ token_ids st
       = if String.eqb (kw_cache_strategy kw) "fastgen"
         then Some (special_ids, punctuation_ids) else None.
Proof.
  intros H. unfold setup_caches in H.
  inv_bind H as lens Hlens. inv_bind H as r Hr. inv_bind H as u Hu.
  inv_bind H as tile_size Ht. inv_bind H as m Hm. inv_bind H as u' Hu'.
  injection H as <-. cbn [max_cache_length drop_amount global_tokens
                          cache_strategy token_ids].
  unfold Py.mod_ in Hr. unfold Py.floordiv in Ht.
  destruct (Z.eqb_spec (Z.of_nat (length lens)) 0) as [E | E]; [discriminate |].
  injection Hr as <-. injection Ht as <-.
  unfold py_assert in Hu, Hu'.
  destruct (Z.eqb_spec (n_layer mod Z.of_nat (length lens)) 0) as [Hmod | Hmod];
    [| discriminate].
  destruct (Z.leb_spec (kw_global_tokens kw) m) as [Hg | Hg]; [| discriminate].
  rewrite flat_map_const_range in *.
  exists lens, m. repeat split; assumption || reflexivity.
Qed.

Lemma setup_caches_layers (n_layer : Z) (lens : list Z) (m : Z) :
  Z.of_nat (length lens) <> 0 ->
  n_layer mod Z.of_nat (length lens) = 0 ->
  Py.min (flat_map (fun c => repeat c (Z.to_nat (n_layer / Z.of_nat (length lens))))
                   lens) = Ok m ->
  0 < n_layer / Z.of_nat (length lens)
  /\ Z.of_nat (length (flat_map
       (fun c => repeat c (Z.to_nat (n_layer / Z.of_nat (length lens)))) lens))
     = n_layer.
Proof.
  intros Hlen Hmod Hm.
  set (tile := n_layer / Z.of_nat (length lens)) in *.
  assert (0 < tile) as Ht.
  { apply py_min_spec in Hm. destruct Hm as [Hin _].
    apply flat_map_repeat_In in Hin. lia. }
  split; [exact Ht |].
  rewrite flat_map_repeat_length.
  pose proof (Z.div_mod n_layer (Z.of_nat (length lens)) Hlen) as Hd.
  fold tile in Hd. rewrite Hmod in Hd. nia.
Qed.

(** X4.  After a successful [setup_caches] there is one capacity per
    layer, every capacity is at most [max_seq_length] and at least
    [global_tokens]; a drop ratio has become one amount per layer, each at
    least 1, while a list of drop amounts is passed on as it is; and the
    token ids are added exactly for the strategy ["fastgen"]. *)
Theorem setup_caches_postconditions
    (n_layer : Z) (special_ids punctuation_ids : list Z)
    (max_seq_length : Z) (kw : cache_kwargs) (st : cache_setup) :
  setup_caches n_layer special_ids punctuation_ids max_seq_length kw = Ok st ->
  Z.of_nat (length (max_cache_length st)) = n_layer
  /\ Forall (fun c => global_tokens st <= c <= max_seq_length) (max_cache_length st)
  /\ match kw_drop_amount kw with
     | inr ds => drop_amount st = ds
     | inl d => length (drop_amount st) = length (max_cache_length st)
                /\ Forall (fun a => 1 <= a) (drop_amount st)
     end
  /\ (token_ids st = Some (special_ids, punctuation_ids)
      <-> cache_strategy st = "fastgen"%string)
  /\ (token_ids st = None <-> cache_strategy st <> "fastgen"%string).
Proof.
  intros H. apply setup_caches_inv in H.
  destruct H as (lens & m & Hlens & Hlen & Hmod & Hcaps & Hm & Hg & Hd & Hgt & Hs & Ht).
  rewrite Hcaps in Hm.
  destruct (setup_caches_layers _ _ _ Hlen Hmod Hm) as [Htile Hn].
  rewrite <- Hcaps in Hm, Hn.
  split; [exact Hn |]. split; [| split; [| split]].
  - apply List.Forall_forall. intros c Hc. split.
    + apply py_min_spec in Hm. destruct Hm as [_ Hle]. specialize (Hle c Hc). lia.
    + rewrite Hcaps in Hc. apply flat_map_repeat_In in Hc. destruct Hc as [Hc _].
      apply map_result_Ok_Forall2 in Hlens.
      assert (Forall (fun r => r <= max_seq_length) lens) as Hall.
      { clear -Hlens. induction Hlens as [|spec r specs rs Hr _ IH]; constructor.
        - now apply (normalize_cache_length_bound spec max_seq_length 8 r).
        - exact IH. }
      rewrite List.Forall_forall in Hall. now apply Hall.
  - rewrite Hd. destruct (kw_drop_amount kw) as [d | ds]; [| reflexivity].
    split; [apply length_map |].
    apply List.Forall_forall. intros a Ha. apply in_map_iff in Ha.
    destruct Ha as (l & <- & _). lia.
  - rewrite Ht, Hs. destruct (String.eqb_spec (kw_cache_strategy kw) "fastgen").
    + tauto.
    + split; [discriminate | contradiction].
  - rewrite Ht, Hs. destruct (String.eqb_spec (kw_cache_strategy kw) "fastgen").
    + split; [discriminate | contradiction].
    + tauto.
Qed.

Lemma setup_caches_postconditions_witness :
  let kw := {| kw_max_cache_length := [(1 # 2)%Q; inject_Z 64];
               kw_drop_amount := inl (1 # 128)%Q;
               kw_global_tokens := 4;
               kw_cache_strategy := "fastgen" |} in
  exists st, setup_caches 4 [0] [13] 100 kw = Ok st
             /\ Z.of_nat (length (max_cache_length st)) = 4
             /\ Forall (fun c => global_tokens st <= c <= 100) (max_cache_length st).
Proof.
  intros kw.
  destruct (setup_caches 4 [0] [13] 100 kw) as [st | e] eqn:E;
    [| vm_compute in E; discriminate E].
  exists st. split; [reflexivity |].
  split; apply (setup_caches_postconditions 4 [0] [13] 100 kw st E).
Defined.

(** X5.  [setup_caches] may be called twice on the same [cache_kwargs]
    (the model wrapped in [torch.compile]): on the entries that a
    successful call has written back, a second call succeeds and writes
    the same entries again. *)
Theorem setup_caches_second_call
    (n_layer : Z) (special_ids punctuation_ids : list Z)
    (max_seq_length : Z) (kw : cache_kwargs) (st : cache_setup) :
  setup_caches n_layer special_ids punctuation_ids max_seq_length kw = Ok st ->
  setup_caches n_layer special_ids punctuation_ids max_seq_length (cache_kwargs_after st)
  = Ok st.
Proof.
  intros H. apply setup_caches_inv in H.
  destruct H as (lens & m & Hlens & Hlen & Hmod & Hcaps & Hm & Hg & Hd & Hgt & Hs & Ht).
  pose proof Hm as Hm'. rewrite Hcaps in Hm'.
  destruct (setup_caches_layers _ _ _ Hlen Hmod Hm') as [Htile Hn].
  rewrite <- Hcaps in Hn.
  assert (0 < n_layer) as Hpos.
  { rewrite <- Hn. pose proof Hm as Hin. apply py_min_spec in Hin.
    destruct Hin as [Hin _].
    destruct (max_cache_length st); [contradiction | simpl length; lia]. }
  assert (map_result (fun l => normalize_cache_length l max_seq_length 8)
                     (map inject_Z (max_cache_length st))
          = Ok (max_cache_length st)) as Hagain.
  { apply map_result_map_fixed. apply List.Forall_forall. intros c Hc.
    rewrite Hcaps in Hc. apply flat_map_repeat_In in Hc. destruct Hc as [Hc _].
    apply map_result_Ok_Forall2 in Hlens.
    assert (Forall (fun r => exists spec,
                      normalize_cache_length spec max_seq_length 8 = Ok r) lens)
      as Hall.
    { clear -Hlens. induction Hlens as [|spec r specs rs Hr _ IH]; constructor; eauto. }
    rewrite List.Forall_forall in Hall. destruct (Hall c Hc) as (spec & Hspec).
    apply (normalize_cache_length_again spec max_seq_length 8 c); [lia | exact Hspec]. }
  unfold setup_caches, cache_kwargs_after.
  cbn [kw_max_cache_length kw_drop_amount kw_global_tokens kw_cache_strategy].
  rewrite Hagain. cbn [mbind result_bind]. rewrite Hn.
  unfold Py.mod_, Py.floordiv.
  destruct (Z.eqb_spec n_layer 0) as [E | E]; [lia |].
  cbn [mbind result_bind].
  rewrite Z_mod_same_full. cbn [py_assert Z.eqb mbind result_bind].
  rewrite Z_div_same_full by exact E.
  rewrite flat_map_const_range.
  change (Z.to_nat 1) with 1%nat. rewrite flat_map_repeat_1.
  rewrite Hm. cbn [mbind result_bind].
  rewrite Hgt. destruct (Z.leb_spec (kw_global_tokens kw) m) as [_ | Hbad]; [| lia].
  cbn [py_assert mbind result_bind]. f_equal.
  rewrite Hs. rewrite <- Ht. rewrite <- Hgt, <- Hs.
  destruct st; reflexivity.
Qed.

Lemma setup_caches_second_call_witness :
  let kw := {| kw_max_cache_length := [(1 # 2)%Q; inject_Z 64];
               kw_drop_amount := inl (1 # 128)%Q;
               kw_global_tokens := 4;
               kw_cache_strategy := "fastgen" |} in
  exists st, setup_caches 4 [0] [13] 100 kw = Ok st
             /\ setup_caches 4 [0] [13] 100 (cache_kwargs_after st) = Ok st.
Proof.
  intros kw.
  destruct (setup_caches 4 [0] [13] 100 kw) as [st | e] eqn:E;
    [| vm_compute in E; discriminate E].
  exists st. split; [reflexivity |].
  apply (setup_caches_second_call 4 [0] [13] 100 kw st E).
Defined.

(** X6.  When every group normalizes, [setup_caches] returns exactly
    when there is at least one group, their number divides a positive
    [n_layer], and [global_tokens] is at most every normalized length.
    It raises [ZeroDivisionError] without groups, [ValueError] for a
    number of layers that is not positive (and divisible), and
    [AssertionError] for [global_tokens] above a normalized length. *)
Theorem setup_caches_failures
    (n_layer : Z) (special_ids punctuation_ids : list Z)
    (max_seq_length : Z) (kw : cache_kwargs) (lens : list Z) :
  map_result (fun l => normalize_cache_length l max_seq_length 8)
             (kw_max_cache_length kw) = Ok lens ->
  let run := setup_caches n_layer special_ids punctuation_ids max_seq_length kw in
  (lens = [] -> run = Raise ZeroDivisionError)
  /\ (lens <> [] -> n_layer mod Z.of_nat (length lens) <> 0 ->
      run = Raise AssertionError)
  /\ (lens <> [] -> n_layer mod Z.of_nat (length lens) = 0 -> n_layer <= 0 ->
      run = Raise ValueError)
  /\ (lens <> [] -> n_layer mod Z.of_nat (length lens) = 0 -> 0 < n_layer ->
      (exists c, In c lens /\ c < kw_global_tokens kw) ->
      run = Raise AssertionError)
  /\ (lens <> [] -> n_layer mod Z.of_nat (length lens) = 0 -> 0 < n_layer ->
      (forall c, In c lens -> kw_global_tokens kw <= c) ->
      exists st, run = Ok st).
Proof.
  intros Hlens run. subst run. unfold setup_caches. rewrite Hlens.
  cbn [mbind result_bind]. unfold Py.mod_, Py.floordiv.
  split; [intros ->; reflexivity |].
  assert (lens <> [] -> (Z.of_nat (length lens) =? 0) = false) as Hnz.
  { intros Hne. apply Z.eqb_neq. destruct lens; [contradiction |].
    simpl length. lia. }
  split; [| split; [| split]]; intros Hne Hmod; rewrite (Hnz Hne);
    apply Hnz, Z.eqb_neq in Hne; cbn [mbind result_bind].
  - destruct (Z.eqb_spec (n_layer mod Z.of_nat (length lens)) 0);
      [contradiction | reflexivity].
  - intros Hn. rewrite Hmod. cbn [py_assert Z.eqb mbind result_bind].
    rewrite flat_map_const_range.
    assert (Z.to_nat (n_layer / Z.of_nat (length lens)) = 0%nat) as ->.
    { assert (n_layer / Z.of_nat (length lens) <= 0); [| lia].
      apply Z.div_le_upper_bound; lia. }
    assert (flat_map (fun item : Z => repeat item 0) lens = []) as ->
      by (clear; induction lens; simpl; auto).
    reflexivity.
  - intros Hn (c & Hc & Hlt). rewrite Hmod.
    cbn [py_assert Z.eqb mbind result_bind]. rewrite flat_map_const_range.
    set (caps := flat_map _ lens).
    assert (0 < n_layer / Z.of_nat (length lens)) as Htile.
    { apply Z.div_str_pos. split; [lia |].
      apply Z.mod_divide in Hmod; [| lia]. apply Z.divide_pos_le in Hmod; lia. }
    assert (In c caps) as Hcin by (apply flat_map_repeat_In; split; [exact Hc | lia]).
    destruct (py_min_total caps) as [m Hm]; [intros E; rewrite E in Hcin; contradiction |].
    rewrite Hm. cbn [mbind result_bind].
    apply py_min_spec in Hm. destruct Hm as [_ Hle]. specialize (Hle c Hcin).
    destruct (Z.leb_spec (kw_global_tokens kw) m); [lia | reflexivity].
  - intros Hn Hall. rewrite Hmod.
    cbn [py_assert Z.eqb mbind result_bind]. rewrite flat_map_const_range.
    set (caps := flat_map _ lens).
    assert (0 < n_layer / Z.of_nat (length lens)) as Htile.
    { apply Z.div_str_pos. split; [lia |].
      apply Z.mod_divide in Hmod; [| lia]. apply Z.divide_pos_le in Hmod; lia. }
    destruct lens as [|c0 lens']; [simpl in Hne; lia |].
    assert (In c0 caps) as Hcin
      by (apply flat_map_repeat_In; split; [now left | lia]).
    destruct (py_min_total caps) as [m Hm]; [intros E; rewrite E in Hcin; contradiction |].
    rewrite Hm. cbn [mbind result_bind].
    apply py_min_spec in Hm. destruct Hm as [Hmin _].
    apply flat_map_repeat_In in Hmin. destruct Hmin as [Hmin _].
    specialize (Hall m Hmin).
    destruct (Z.leb_spec (kw_global_tokens kw) m); [| lia].
    cbn [py_assert mbind result_bind]. eexists. reflexivity.
Qed.

Lemma setup_caches_failures_witness :
  let kw g := {| kw_max_cache_length := [(1 # 2)%Q; inject_Z 64];
                 kw_drop_amount := inl (1 # 128)%Q;
                 kw_global_tokens := g;
                 kw_cache_strategy := "l2" |} in
  setup_caches 4 [] [] 100 (kw 57) = Raise AssertionError
  /\ setup_caches 3 [] [] 100 (kw 4) = Raise AssertionError
  /\ setup_caches 0 [] [] 100 (kw 4) = Raise ValueError
  /\ exists st, setup_caches 4 [] [] 100 (kw 56) = Ok st.
Proof.
  intros kw.
  split; [| split; [| split]].
  - destruct (setup_caches_failures 4 [] [] 100 (kw 57) [56; 64] eq_refl)
      as (_ & _ & _ & H & _).
    apply H; [discriminate | reflexivity | lia |].
    exists 56. split; [now left | simpl; lia].
  - destruct (setup_caches_failures 3 [] [] 100 (kw 4) [56; 64] eq_refl)
      as (_ & H & _).
    apply H; discriminate.
  - destruct (setup_caches_failures 0 [] [] 100 (kw 4) [56; 64] eq_refl)
      as (_ & _ & H & _).
    apply H; [discriminate | reflexivity | lia].
  - destruct (setup_caches_failures 4 [] [] 100 (kw 56) [56; 64] eq_refl)
      as (_ & _ & _ & _ & H).
    apply H; [discriminate | reflexivity | lia |].
    intros c [<- | [<- | []]]; simpl; lia.
Defined.

(** ** The decode loop and the driver, further *)

Section DriverMore.

Variables model logits probs : Type.
Variable forward :
  model -> list Z -> list Z -> option (list (list bool)) -> logits * model.
Variable min_cache_length : model -> Z.
Variable softmax_last : logits -> probs.
Variable argmax : probs -> nat.

Lemma in_terminators_falsy (terminator_ids : option (list Z)) (t : Z) :
  terminator_ids = None \/ terminator_ids = Some [] ->
  in_terminators terminator_ids t = false.
Proof.
  intros [-> | ->]; reflexivity.
Qed.

(** X7.  [decode_n_tokens] does nothing for a count that is not
    positive, whatever [input_pos] is; for a positive count it raises
    [AssertionError] unless [input_pos] holds one position; otherwise it
    returns at most [num_new_tokens] tokens, with one probability vector
    each, and exactly [num_new_tokens] of them when [terminator_ids] is
    [None] or empty. *)
Theorem decode_n_tokens_cases (m : model) (cur_token input_pos : list Z)
    (num_new_tokens : Z) (terminator_ids prefix : option (list Z)) :
  let run := decode_n_tokens forward softmax_last argmax
               m cur_token input_pos num_new_tokens terminator_ids prefix in
  (num_new_tokens <= 0 -> run = Ok ([], [], m))
  /\ (0 < num_new_tokens -> length input_pos <> 1%nat -> run = Raise AssertionError)
  /\ (0 <= num_new_tokens -> length input_pos = 1%nat ->
      exists toks prs m',
        run = Ok (toks, prs, m')
        /\ length prs = length toks
        /\ Z.of_nat (length toks) <= num_new_tokens
        /\ (terminator_ids = None \/ terminator_ids = Some [] ->
            Z.of_nat (length toks) = num_new_tokens)).
Proof.
  intros run. subst run. unfold decode_n_tokens. rewrite range_0_seq.
  split; [| split].
  - intros Hn. replace (Z.to_nat num_new_tokens) with 0%nat by lia. reflexivity.
  - intros Hn Hpos.
    destruct (Z.to_nat num_new_tokens) as [|k] eqn:Ek; [lia |].
    cbn [seq map decode_loop]. change (Z.of_nat 0) with 0.
    assert (decode_one_token forward softmax_last argmax m cur_token input_pos
            = fun _ => Raise AssertionError) as Hone.
    { unfold decode_one_token.
      destruct (Nat.eqb_spec (length input_pos) 1); [contradiction | reflexivity]. }
    destruct prefix as [[|t p] |].
    + change (0 <? Z.of_nat (length (@nil Z))) with false.
      cbn [mbind result_bind]. now rewrite Hone.
    + assert ((0 <? Z.of_nat (length (t :: p))) = true) as ->
        by (apply Z.ltb_lt; simpl length; lia).
      change (default [] (Some (t :: p))) with (t :: p).
      pose proof (get_in_range (t :: p) 0 t eq_refl) as Hget.
      change (Z.of_nat 0) with 0 in Hget. rewrite Hget.
      cbn [mbind result_bind]. now rewrite Hone.
    + cbn [mbind result_bind]. now rewrite Hone.
  - intros Hn Hpos.
    destruct (decode_loop_spec _ _ _ forward softmax_last argmax
                terminator_ids prefix (Z.to_nat num_new_tokens) 0
                m cur_token input_pos Hpos)
      as (toks & prs & m' & Hrun & Hlen & Hle & _ & Hearly).
    exists toks, prs, m'. split; [exact Hrun |]. split; [exact Hlen |].
    split; [lia |]. intros Hnone.
    destruct (Nat.eq_dec (length toks) (Z.to_nat num_new_tokens)) as [E | E]; [lia |].
    destruct Hearly as (j & t & _ & _ & Hs); [lia |]. cbv beta in Hs.
    rewrite (in_terminators_falsy _ t Hnone) in Hs. discriminate Hs.
Qed.

End DriverMore.

Lemma decode_n_tokens_cases_witness :
  decode_n_tokens Toy.forward Toy.softmax_last Toy.argmax
    0%nat [7] [3; 4] 0 None None = Ok ([], [], 0%nat)
  /\ decode_n_tokens Toy.forward Toy.softmax_last Toy.argmax
       0%nat [7] [3; 4] 2 None None = Raise AssertionError
  /\ exists toks prs m',
       decode_n_tokens Toy.forward Toy.softmax_last Toy.argmax
         0%nat [7] [3] 6 (Some []) None = Ok (toks, prs, m')
       /\ Z.of_nat (length toks) = 6.
Proof.
  split; [| split].
  - apply (decode_n_tokens_cases _ _ _ Toy.forward Toy.softmax_last Toy.argmax
             0%nat [7] [3; 4] 0 None None). lia.
  - apply (decode_n_tokens_cases _ _ _ Toy.forward Toy.softmax_last Toy.argmax
             0%nat [7] [3; 4] 2 None None); [lia | discriminate].
  - destruct (decode_n_tokens_cases _ _ _ Toy.forward Toy.softmax_last Toy.argmax
                0%nat [7] [3] 6 (Some []) None) as (_ & _ & H).
    destruct (H ltac:(lia) eq_refl) as (toks & prs & m' & Hrun & _ & _ & Hall).
    exists toks, prs, m'. split; [exact Hrun | apply Hall; now right].
Defined.

Section GenerateMore.

Variables model logits probs : Type.
Variable forward :
  model -> list Z -> list Z -> option (list (list bool)) -> logits * model.
Variable min_cache_length : model -> Z.
Variable softmax_last : logits -> probs.
Variable argmax : probs -> nat.
Variable terminator_ids : option (list Z).

Lemma full_raises (n v : Z) (e : exn) :
  Tensor1.full n v = Raise e -> e = RuntimeError.
Proof. unfold Tensor1.full. destruct (n <? 0); congruence. Qed.

Lemma set_slice_raises (t : list Z) (lo hi : Z) (vals : list Z) (e : exn) :
  Tensor1.set_slice t lo hi vals = Raise e -> e = RuntimeError.
Proof.
  unfold Tensor1.set_slice.
  destruct (_ =? _)%nat; [discriminate |].
  destruct vals as [|v [|]]; congruence.
Qed.

Lemma arange_raises (lo hi : Z) (e : exn) :
  Tensor1.arange lo hi = Raise e -> e = RuntimeError.
Proof. unfold Tensor1.arange. destruct (hi <? lo); congruence. Qed.

Lemma set_full_slice (p : list Z) :
  Tensor1.set_slice (repeat (-1) (length p)) 0 (Z.of_nat (length p)) p = Ok p.
Proof.
  pose proof (set_slice_middle [] (repeat (-1) (length p)) [] p) as H.
  rewrite repeat_length in H. specialize (H eq_refl).
  cbn [length app] in H. rewrite Z.add_0_l, !app_nil_r in H.
  exact H.
Qed.

Lemma set_past_end (t : list Z) (v : Z) :
  Tensor1.set t (Z.of_nat (length t)) v = Raise IndexError.
Proof.
  unfold Tensor1.set, Torch.wrap_index.
  destruct (Z.leb_spec (Z.of_nat (length t)) (Z.of_nat (length t))); [| lia].
  rewrite orb_true_r. reflexivity.
Qed.

Lemma prefill_empty (m : model) (ip : list Z) (forced : option Z) :
  prefill forward softmax_last argmax m [] ip forced = Raise IndexError.
Proof. unfold prefill. destruct (forward m [] ip _) as [lg m0]. reflexivity. Qed.

(** X8.  [generate] returns exactly when the prompt fed to prefill is
    not empty and at least one token is to be produced (the prefix
    counted).  On an empty prompt the buffer, the positions and the
    [1, 0] view are built and the model is called, and then [greedy]
    raises [IndexError]: the logits have no last row.  Asked for no token
    at all, it raises [IndexError] once the prefill has run: the
    prefill's token has no place in the buffer. *)
Theorem generate_needs_room (m : model) (prompt : list Z)
    (max_new_tokens : Z) (feed_long_prompts : bool)
    (prompt' : list Z) (prefix : option (list Z)) (max_new_tokens' prompt_length : Z) :
  let run :=
    generate forward min_cache_length softmax_last argmax
      m prompt max_new_tokens terminator_ids feed_long_prompts in
  split_prompt (min_cache_length m) feed_long_prompts prompt max_new_tokens
    = (prompt', prefix, max_new_tokens', prompt_length) ->
  ((exists seq prs m', run = Ok (seq, prs, m'))
   <-> prompt' <> [] /\ 0 <= prompt_length /\ 1 <= max_new_tokens')
  /\ (prompt' = [] -> 0 <= prompt_length -> 0 <= max_new_tokens' ->
      run = Raise IndexError)
  /\ (prompt' <> [] -> 0 <= prompt_length -> max_new_tokens' = 0 ->
      run = Raise IndexError).
Proof.
  intros run Hsplit.
  assert (0 <= prompt_length ->
          exists forced,
            match prefix with
            | Some p0 => t ← Tensor1.get p0 0; Ok (Some t)
            | None => Ok None
            end = Ok forced) as Hforced.
  { intros Hpl.
    destruct (split_prompt_cases _ _ _ _ _ _ _ _ Hsplit Hpl)
      as (_ & _ & _ & [-> | (t & pre & ->)]); [eauto |].
    exists (Some t). change 0 with (Z.of_nat 0).
    rewrite (get_in_range (t :: pre) 0 t eq_refl). reflexivity. }
  split; [| split].
  - split.
    + intros (seq & prs & m' & Hrun).
      destruct (generate_spec _ _ _ _ _ _ _ _ _ _ _ _ _ _ _ _ _ _ _ Hrun Hsplit)
        as (gen & Hpl & _ & Hpos & Hle & _).
      split; [| lia].
      intros ->. subst run. unfold generate in Hrun. rewrite Hsplit in Hrun.
      inv_bind Hrun as seq0 Hfull. inv_bind Hrun as seq1 Hslice.
      inv_bind Hrun as ip Har. cbv zeta in Hrun. unfold Tensor1.view_1_m1 in Hrun.
      inv_bind Hrun as forced Hf. rewrite prefill_empty in Hrun.
      discriminate Hrun.
    + intros (Hp & Hpl & Hbudget). eapply generate_returns; eassumption.
  - intros -> Hpl Hbudget.
    destruct (split_prompt_cases _ _ _ _ _ _ _ _ Hsplit Hpl) as (Hplen & _).
    destruct (Hforced Hpl) as [forced Hf].
    subst run. unfold generate. rewrite Hsplit. subst prompt_length.
    cbn [length]. change (Z.of_nat 0) with 0.
    unfold Tensor1.full.
    destruct (Z.ltb_spec (0 + max_new_tokens') 0) as [? | _]; [lia |].
    cbn [mbind result_bind].
    assert (forall t : list Z, Tensor1.set_slice t 0 0 [] = Ok t) as Hslice.
    { intros t. unfold Tensor1.set_slice. rewrite !clip_spec.
      destruct (Z_lt_dec 0 0); [lia |].
      replace (Z.to_nat (Z.min (Z.of_nat (length t)) 0)) with 0%nat by lia.
      reflexivity. }
    rewrite Hslice. cbn [mbind result_bind].
    change (Tensor1.arange 0 0) with (Ok (Py.range 0 0) : result (list Z)).
    cbn [mbind result_bind]. cbv zeta. unfold Tensor1.view_1_m1.
    rewrite Hf. cbn [mbind result_bind]. rewrite prefill_empty. reflexivity.
  - intros Hp Hpl ->.
    destruct (split_prompt_cases _ _ _ _ _ _ _ _ Hsplit Hpl) as (Hplen & _).
    destruct (Hforced Hpl) as [forced Hf].
    subst run. unfold generate. rewrite Hsplit. subst prompt_length.
    rewrite Z.add_0_r. unfold Tensor1.full.
    destruct (Z.ltb_spec (Z.of_nat (length prompt')) 0) as [? | _]; [lia |].
    cbn [mbind result_bind]. rewrite Nat2Z.id, set_full_slice.
    cbn [mbind result_bind]. unfold Tensor1.arange.
    destruct (Z.ltb_spec (Z.of_nat (length prompt')) 0) as [? | _]; [lia |].
    cbn [mbind result_bind]. cbv zeta. unfold Tensor1.view_1_m1.
    rewrite Hf. cbn [mbind result_bind].
    destruct (prefill_returns _ _ _ forward softmax_last argmax
                m prompt' (Py.range 0 (Z.of_nat (length prompt'))) forced Hp)
      as (first & pr0 & m1 & ->).
    cbn [mbind result_bind]. rewrite set_past_end. reflexivity.
Qed.

Lemma prefix_length_default (prefix : option (list Z)) :
  prefix_length prefix = length (default [] prefix).
Proof. destruct prefix; reflexivity. Qed.

(** X9.  End to end, for a prompt without sentinel and a budget that is
    not negative: whether or not the prompt was split, a successful
    [generate] returns the whole prompt followed by at most
    [max_new_tokens] new tokens, each a position in the vocabulary; it
    returns fewer only when the last of them is a terminator; and it
    returns one probability vector for every token after the ones fed to
    prefill. *)
Theorem generate_continues_prompt (m : model) (prompt : list Z)
    (max_new_tokens : Z) (feed_long_prompts : bool)
    (seq : list Z) (prs : list probs) (m' : model)
    (prompt' : list Z) (prefix : option (list Z)) (max_new_tokens' prompt_length : Z) :
  ~ In (-1) prompt -> 0 <= max_new_tokens ->
  generate forward min_cache_length softmax_last argmax
    m prompt max_new_tokens terminator_ids feed_long_prompts = Ok (seq, prs, m') ->
  split_prompt (min_cache_length m) feed_long_prompts prompt max_new_tokens
    = (prompt', prefix, max_new_tokens', prompt_length) ->
  exists new,
    seq = prompt ++ new
    /\ Z.of_nat (length new) <= max_new_tokens
    /\ Forall (fun t => 0 <= t) new
    /\ (Z.of_nat (length new) < max_new_tokens ->
        exists t, new !! (length new - 1)%nat = Some t
                  /\ in_terminators terminator_ids t = true)
    /\ length seq = (length prompt' + length prs)%nat.
Proof.
  intros Hclean Hbudget Hgen Hsplit.
  destruct (generate_spec _ _ _ _ _ _ _ _ _ _ _ _ _ _ _ _ _ _ _ Hgen Hsplit)
    as (gen & Hpl & Happ & Hpos & Hle & Hprs & Hseq & Htoks & Hearly).
  destruct (split_prompt_cases _ _ _ _ _ _ _ _ Hsplit ltac:(lia))
    as (_ & Hmnt & _ & _).
  rewrite prefix_length_default in Hmnt.
  set (pre := default [] prefix) in *.
  assert (forall j t, gen !! j = Some t ->
            (if (j <? length pre)%nat then pre !! j = Some t else 0 <= t)
            /\ ((1 <= j)%nat -> in_terminators terminator_ids t = true ->
                (length pre <= j)%nat -> S j = length gen)) as Htoks'.
  { intros j t Ht. destruct (Htoks j t Ht) as [Hval Hlast].
    rewrite prefix_length_default in Hval, Hlast. fold pre in Hval, Hlast.
    split; [exact Hval |]. intros Hj Hterm Hfree. apply Hlast; [exact Hj |].
    rewrite Hterm. apply negb_true_iff, Nat.ltb_ge. exact Hfree. }
  assert (Z.of_nat (length gen) < max_new_tokens' ->
          exists j t, S j = length gen /\ gen !! j = Some t
                      /\ (length pre <= j)%nat
                      /\ in_terminators terminator_ids t = true) as Hearly'.
  { intros Hshort. destruct (Hearly Hshort) as (j & t & Hj & Ht & _ & Hs).
    rewrite prefix_length_default in Hs. fold pre in Hs.
    apply andb_true_iff in Hs. destruct Hs as [Hterm Hfree].
    apply negb_true_iff, Nat.ltb_ge in Hfree. exists j, t. auto. }
  assert (seq = prompt' ++ gen) as Hseq'.
  { rewrite Hseq, app_assoc. apply truncate_padded.
    eapply generated_no_sentinel; [exact Hclean | exact Happ |].
    intros j t Ht. apply (Htoks j t Ht). }
  assert (length pre <= length gen)%nat as Hcover.
  { destruct (Nat.le_gt_cases (length pre) (length gen)) as [|Hlt]; [assumption |].
    destruct Hearly' as (j & t & Hj & _ & Hfree & _); lia. }
  assert (take (length pre) gen = pre) as Hreplay.
  { apply list_eq. intros j.
    destruct (Nat.lt_ge_cases j (length pre)) as [Hj | Hj].
    - rewrite lookup_take_lt by exact Hj.
      destruct (lookup_lt_is_Some_2 gen j ltac:(lia)) as [t Ht].
      destruct (Htoks' j t Ht) as [Hval _].
      apply Nat.ltb_lt in Hj. rewrite Hj in Hval. congruence.
    - rewrite lookup_take_ge by exact Hj.
      symmetry. apply lookup_ge_None. exact Hj. }
  exists (drop (length pre) gen).
  assert (length (drop (length pre) gen) = (length gen - length pre)%nat) as Hnew
    by apply length_drop.
  split; [| split; [| split; [| split]]].
  - rewrite Hseq', <- Happ, <- app_assoc. f_equal.
    rewrite <- (take_drop (length pre) gen) at 1. now rewrite Hreplay.
  - lia.
  - apply List.Forall_forall. intros t Hin.
    apply list_elem_of_In, list_elem_of_lookup in Hin. destruct Hin as [i Hi].
    rewrite lookup_drop in Hi. destruct (Htoks' _ t Hi) as [Hval _].
    destruct (Nat.ltb_spec (length pre + i) (length pre)); [lia | exact Hval].
  - intros Hshort. destruct Hearly' as (j & t & Hj & Ht & Hfree & Hterm); [lia |].
    exists t. split; [| exact Hterm].
    rewrite lookup_drop, Hnew.
    replace (length pre + (length gen - length pre - 1))%nat with j by lia.
    exact Ht.
  - rewrite Hseq', length_app, Hprs. reflexivity.
Qed.

End GenerateMore.

Lemma generate_needs_room_witness :
  generate Toy.forward Toy.min_cache_length Toy.softmax_last Toy.argmax
    0%nat [] 4 None false = Raise IndexError
  /\ generate Toy.forward Toy.min_cache_length Toy.softmax_last Toy.argmax
       0%nat [1; 2; 3] 0 None false = Raise IndexError.
Proof.
  split.
  - destruct (generate_needs_room _ _ _
                Toy.forward Toy.min_cache_length Toy.softmax_last Toy.argmax
                None 0%nat [] 4 false [] None 4 0 eq_refl) as (_ & H & _).
    apply H; [reflexivity | lia | lia].
  - destruct (generate_needs_room _ _ _
                Toy.forward Toy.min_cache_length Toy.softmax_last Toy.argmax
                None 0%nat [1; 2; 3] 0 false [1; 2; 3] None 0 3 eq_refl)
      as (_ & _ & H).
    apply H; [discriminate | lia | reflexivity].
Defined.

Lemma generate_continues_prompt_witness :
  exists new prs m',
    generate Toy.forward Toy.min_cache_length Toy.softmax_last Toy.argmax
      0%nat [1; 2; 3; 4; 5; 6] 2 (Some [50256]) true
    = Ok ([1; 2; 3; 4; 5; 6] ++ new, prs, m')
    /\ Z.of_nat (length new) <= 2.
Proof.
  destruct (generate Toy.forward Toy.min_cache_length Toy.softmax_last Toy.argmax
              0%nat [1; 2; 3; 4; 5; 6] 2 (Some [50256]) true)
    as [[[seq prs] m'] | e] eqn:E; [| vm_compute in E; discriminate E].
  destruct (generate_continues_prompt _ _ _
              Toy.forward Toy.min_cache_length Toy.softmax_last Toy.argmax
              (Some [50256]) 0%nat [1; 2; 3; 4; 5; 6] 2 true seq prs m'
              [1; 2; 3] (Some [4; 5; 6]) 5 3)
    as (new & Hseq & Hlen & _);
    [vm_compute; intuition discriminate | lia | exact E | vm_compute; reflexivity |].
  exists new, prs, m'. split; [f_equal; f_equal; f_equal; exact Hseq | exact Hlen].
Defined.

(** ** The forward calls of the decode loop *)

Section ForwardCalls.

Variables model logits probs : Type.
Variable forward :
  model -> list Z -> list Z -> option (list (list bool)) -> logits * model.
Variable softmax_last : logits -> probs.
Variable argmax : probs -> nat.
Variable terminator_ids : option (list Z).
Variable prefix : option (list Z).

Lemma decode_loop_calls (steps : list Z) :
  forall (m : model) (log : list (list Z * list Z)) (cur : list Z) (pos : Z)
         (toks : list Z) (prs : list probs)
         (m' : model) (log' : list (list Z * list Z)),
    decode_loop (recording forward) softmax_last argmax terminator_ids prefix
      steps (m, log) cur [pos] = Ok (toks, prs, (m', log')) ->
    log' = log ++ fed_back pos cur toks.
Proof.
  induction steps as [|i steps IH]; intros m log cur pos toks prs m' log' H.
  - injection H as <- <- <- <-. unfold fed_back. cbn. now rewrite app_nil_r.
  - cbn [decode_loop] in H. inv_bind H as forced Hforced.
    unfold decode_one_token in H. cbn [length Nat.eqb py_assert mbind result_bind] in H.
    unfold recording in H. cbn [fst snd] in H.
    destruct (forward m cur [pos] None) as [lg m1].
    cbn [mbind result_bind] in H.
    destruct (greedy softmax_last argmax lg forced) as [tok pr].
    destruct (in_terminators terminator_ids tok && _).
    + injection H as <- <- <- <-. unfold fed_back. cbn.
      now rewrite Z.add_0_r.
    + inv_bind H as [[toks' prs'] [m2 log2]] Hrest. injection H as <- <- <- <-.
      apply IH in Hrest. rewrite Hrest, <- app_assoc. f_equal.
      unfold fed_back. cbn [length map take app]. rewrite imap_cons.
      rewrite Z.add_0_r. f_equal.
      apply imap_ext. intros j x _. cbn. do 2 f_equal. lia.
Qed.

(** X10.  Every step of [decode_n_tokens] is one forward call, on one
    token at one position: the first on [cur_token] at [input_pos], each
    later one on the token that the step before produced (sampled or
    forced), one position further. *)
Theorem decode_n_tokens_feeds_back
    (m : model) (log : list (list Z * list Z)) (cur_token : list Z) (pos : Z)
    (num_new_tokens : Z) (toks : list Z) (prs : list probs)
    (m' : model) (log' : list (list Z * list Z)) :
  decode_n_tokens (recording forward) softmax_last argmax
    (m, log) cur_token [pos] num_new_tokens terminator_ids prefix
  = Ok (toks, prs, (m', log')) ->
  log' = log ++ fed_back pos cur_token toks
  /\ length log' = (length log + length toks)%nat
  /\ forall j t, toks !! j = Some t -> (S j < length toks)%nat ->
       log' !! (length log + S j)%nat = Some ([t], [pos + Z.of_nat (S j)]).
Proof.
  intros H. unfold decode_n_tokens in H. apply decode_loop_calls in H.
  assert (length (fed_back pos cur_token toks) = length toks) as Hlen.
  { unfold fed_back. rewrite length_imap, length_take. cbn [length].
    rewrite length_map. lia. }
  split; [exact H |]. split; [rewrite H, length_app, Hlen; reflexivity |].
  intros j t Ht Hj. rewrite H, lookup_app_r by lia.
  replace (length log + S j - length log)%nat with (S j) by lia.
  unfold fed_back. rewrite list_lookup_imap, lookup_take_lt by exact Hj.
  change ((cur_token :: map (fun t0 => [t0]) toks) !! S j)
    with (((fun t0 => [t0]) <$> toks) !! j).
  rewrite list_lookup_fmap, Ht. reflexivity.
Qed.

End ForwardCalls.

Lemma decode_n_tokens_feeds_back_witness :
  exists toks prs m',
    decode_n_tokens (recording Toy.forward) Toy.softmax_last Toy.argmax
      (0%nat, []) [7] [3] 3 None None
    = Ok (toks, prs, (m', [([7], [3]); ([11], [4]); ([12], [5])])).
Proof.
  destruct (decode_n_tokens (recording Toy.forward) Toy.softmax_last Toy.argmax
              (0%nat, []) [7] [3] 3 None None)
    as [[[toks prs] [m' log']] | e] eqn:E; [| vm_compute in E; discriminate E].
  destruct (decode_n_tokens_feeds_back _ _ _ Toy.forward Toy.softmax_last Toy.argmax
              None None 0%nat [] [7] 3 3 toks prs m' log' E) as [Hlog _].
  exists toks, prs, m'. rewrite Hlog.
  vm_compute in E. injection E as <- _ _ _. reflexivity.
Defined.

Section GenerateCalls.

Variables model logits probs : Type.
Variable forward :
  model -> list Z -> list Z -> option (list (list bool)) -> logits * model.
Variable min_cache_length : model -> Z.
Variable softmax_last : logits -> probs.
Variable argmax : probs -> nat.
Variable terminator_ids : option (list Z).

(** The two stages of a successful [generate], and the buffer they
    leave. *)
Lemma generate_steps (m : model) (prompt : list Z) (mnt : Z) (feed : bool)
    (seq : list Z) (prs : list probs) (m' : model)
    (p : list Z) (prefix : option (list Z)) (mnt' pl : Z) :
  generate forward min_cache_length softmax_last argmax
    m prompt mnt terminator_ids feed = Ok (seq, prs, m') ->
  split_prompt (min_cache_length m) feed prompt mnt = (p, prefix, mnt', pl) ->
  exists forced first pr0 m1 toks prs',
    pl = Z.of_nat (length p)
    /\ prefill forward softmax_last argmax m p (Py.range 0 pl) forced
       = Ok (first, pr0, m1)
    /\ decode_n_tokens forward softmax_last argmax m1 [first] [pl] (mnt' - 1)
         terminator_ids (option_map (fun p => Py.slice_from p 1) prefix)
       = Ok (toks, prs', m')
    /\ length prs' = length toks
    /\ prs = pr0 :: prs'
    /\ seq = truncate_at_sentinel
               (p ++ (first :: toks)
                  ++ repeat (-1) (Z.to_nat mnt' - S (length toks))).
Proof.
  intros Hgen Hsplit. unfold generate in Hgen. rewrite Hsplit in Hgen.
  inv_bind Hgen as seq0 Hfull. inv_bind Hgen as seq1 Hslice.
  inv_bind Hgen as ip Har. cbv zeta in Hgen. unfold Tensor1.view_1_m1 in Hgen.
  inv_bind Hgen as forced Hforced.
  inv_bind Hgen as [[first pr0] m1] Hpre.
  inv_bind Hgen as seq2 Hset. inv_bind Hgen as [[toks prs'] m2] Hdec.
  inv_bind Hgen as seq3 Hfinal. injection Hgen as <- <- <-.
  fold (truncate_at_sentinel seq3).
  assert (0 <= pl) as Hpl
    by (unfold Tensor1.arange in Har; destruct (Z.ltb_spec pl 0); [discriminate | lia]).
  assert (ip = Py.range 0 pl) as ->
    by (unfold Tensor1.arange in Har; destruct (pl <? 0); congruence).
  destruct (split_prompt_cases _ _ _ _ _ _ _ _ Hsplit Hpl) as (Hplen & _ & _ & _).
  clear Hsplit. subst pl.
  apply full_Ok in Hfull. destruct Hfull as [Hsize ->].
  pose proof (set_Ok_in_range _ _ _ _ Hset) as Hroom.
  rewrite (set_slice_length _ _ _ _ _ Hslice), repeat_length in Hroom.
  assert (1 <= mnt') as Hbudget by lia.
  replace (Z.to_nat (Z.of_nat (length p) + mnt'))
    with (length p + (1 + (Z.to_nat mnt' - 1)))%nat in Hslice by lia.
  rewrite !repeat_app in Hslice.
  assert (seq1 = p ++ repeat (-1) 1 ++ repeat (-1) (Z.to_nat mnt' - 1)) as ->.
  { pose proof (set_slice_middle [] (repeat (-1) (length p))
                  (repeat (-1) 1 ++ repeat (-1) (Z.to_nat mnt' - 1)) p) as Hm.
    rewrite repeat_length in Hm. specialize (Hm eq_refl).
    cbn [length app] in Hm. rewrite Z.add_0_l in Hm.
    change (Z.of_nat 0) with 0 in Hm. congruence. }
  cbn [repeat app] in Hset. rewrite set_middle in Hset.
  injection Hset as <-.
  pose proof Hdec as Hdec'.
  unfold decode_n_tokens in Hdec'. rewrite range_0_seq in Hdec'.
  destruct (decode_loop_spec _ _ _ forward softmax_last argmax terminator_ids
              (option_map (fun p => Py.slice_from p 1) prefix)
              (Z.to_nat (mnt' - 1)) 0 m1 [first] [Z.of_nat (length p)] eq_refl)
    as (toks0 & prs0 & m0 & Hrun & Hprs & Hle & _).
  rewrite Hrun in Hdec'. injection Hdec' as -> -> ->.
  exists forced, first, pr0, m1, toks, prs'.
  split; [reflexivity |]. split; [exact Hpre |]. split; [exact Hdec |].
  split; [exact Hprs |]. split; [reflexivity |]. f_equal.
  destruct (Nat.ltb_spec 0 (length toks)) as [Hpos|Hzero].
  - replace (Z.to_nat mnt' - 1)%nat
      with (length toks + (Z.to_nat mnt' - S (length toks)))%nat in Hfinal by lia.
    rewrite repeat_app in Hfinal.
    pose proof (set_slice_middle (p ++ [first]) (repeat (-1) (length toks))
                  (repeat (-1) (Z.to_nat mnt' - S (length toks))) toks) as Hm.
    rewrite repeat_length in Hm. specialize (Hm eq_refl).
    rewrite length_app in Hm. cbn [length] in Hm.
    rewrite <- !app_assoc in Hm. cbn [app] in Hm.
    replace (Z.of_nat (length p + 1)) with (Z.of_nat (length p) + 1) in Hm by lia.
    rewrite Hm in Hfinal. injection Hfinal as <-. reflexivity.
  - injection Hfinal as <-. destruct toks; [| simpl in Hzero; lia].
    reflexivity.
Qed.

End GenerateCalls.

(** X11.  A successful [generate] calls the model once per token it
    produces: first the prefill, on the whole prompt it was fed, at the
    positions [0 .. prompt_length - 1]; then one call per decoded token,
    each on the token produced just before, at the positions
    [prompt_length], [prompt_length + 1], ...  The last token produced is
    never fed to the model, and the returned sequence is the buffer
    holding the prompt and the produced tokens, cut at the first
    sentinel. *)
Theorem generate_forward_calls {model logits probs : Type}
    (forward : model -> list Z -> list Z -> option (list (list bool)) -> logits * model)
    (min_cache_length : model -> Z)
    (softmax_last : logits -> probs) (argmax : probs -> nat)
    (terminator_ids : option (list Z))
    (m : model) (log : list (list Z * list Z)) (prompt : list Z)
    (max_new_tokens : Z) (feed_long_prompts : bool)
    (seq : list Z) (prs : list probs) (m' : model) (log' : list (list Z * list Z))
    (prompt' : list Z) (prefix : option (list Z)) (max_new_tokens' prompt_length : Z) :
  generate (recording forward) (fun s => min_cache_length (fst s))
    softmax_last argmax (m, log) prompt max_new_tokens terminator_ids
    feed_long_prompts = Ok (seq, prs, (m', log')) ->
  split_prompt (min_cache_length m) feed_long_prompts prompt max_new_tokens
    = (prompt', prefix, max_new_tokens', prompt_length) ->
  exists first toks,
    log' = log ++ (prompt', Py.range 0 prompt_length)
               :: fed_back prompt_length [first] toks
    /\ length log' = (length log + length prs)%nat
    /\ length prs = S (length toks)
    /\ seq = truncate_at_sentinel
               (prompt' ++ (first :: toks)
                  ++ repeat (-1) (Z.to_nat max_new_tokens' - S (length toks))).
Proof.
  intros Hgen Hsplit.
  destruct (generate_steps _ _ _ (recording forward) (fun s => min_cache_length (fst s))
              softmax_last argmax terminator_ids (m, log) prompt max_new_tokens
              feed_long_prompts seq prs (m', log')
              prompt' prefix max_new_tokens' prompt_length Hgen Hsplit)
    as (forced & first & pr0 & [m1 log1] & toks & prs' & Hpl & Hpre & Hdec
        & Hlen & -> & Hseq).
  unfold prefill, recording in Hpre. cbn [fst snd] in Hpre.
  destruct (forward m prompt' (Py.range 0 prompt_length) _) as [lg m0].
  inv_bind Hpre as u Hu. injection Hpre as _ _ _ <-.
  unfold decode_n_tokens in Hdec. apply decode_loop_calls in Hdec.
  exists first, toks. rewrite Hdec, <- app_assoc.
  split; [reflexivity |]. split; [| split; [simpl; now rewrite Hlen | exact Hseq]].
  rewrite !length_app. cbn [length]. unfold fed_back.
  rewrite length_imap, length_take. cbn [length]. rewrite length_map, Hlen. lia.
Qed.

Lemma generate_forward_calls_witness :
  exists seq prs m',
    generate (recording Toy.forward) (fun s => Toy.min_cache_length (fst s))
      Toy.softmax_last Toy.argmax (0%nat, []) [1; 2; 3] 3 None false
    = Ok (seq, prs, (m', [([1; 2; 3], [0; 1; 2]); ([11], [3]); ([12], [4])])).
Proof.
  destruct (generate (recording Toy.forward) (fun s => Toy.min_cache_length (fst s))
              Toy.softmax_last Toy.argmax (0%nat, []) [1; 2; 3] 3 None false)
    as [[[seq prs] [m' log']] | e] eqn:E; [| vm_compute in E; discriminate E].
  destruct (generate_forward_calls Toy.forward Toy.min_cache_length
              Toy.softmax_last Toy.argmax None 0%nat [] [1; 2; 3] 3 false
              seq prs m' log' [1; 2; 3] None 3 3 E)
    as (first & toks & Hlog & _); [vm_compute; reflexivity |].
  exists seq, prs, m'. do 3 f_equal.
  vm_compute in E. injection E as _ _ _ <-. reflexivity.
Defined.

(** ** L2, further *)

Lemma sorted_in_interval_length (l : list Z) :
  forall lo hi,
    StronglySorted Z.lt l -> Forall (fun z => lo <= z < hi) l ->
    Z.of_nat (length l) <= Z.max 0 (hi - lo).
Proof.
  induction l as [|x l IH]; intros lo hi Hs Hb; [simpl; lia |].
  apply StronglySorted_inv in Hs. destruct Hs as [Hs Hx].
  inversion Hb as [|? ? Hxb Hlb]; subst.
  assert (Forall (fun z => x + 1 <= z < hi) l) as Hl.
  { rewrite List.Forall_forall in *. intros z Hz.
    specialize (Hx z Hz). specialize (Hlb z Hz). lia. }
  specialize (IH (x + 1) hi Hs Hl). simpl length. lia.
Qed.

Lemma range_cons (a b : Z) : a < b -> Py.range a b = a :: Py.range (a + 1) b.
Proof.
  intros Hab. unfold Py.range.
  replace (Z.to_nat (b - a)) with (S (Z.to_nat (b - (a + 1)))) by lia.
  cbn [seq map]. f_equal; [lia |].
  rewrite <- seq_shift, map_map. apply map_ext. intros i. lia.
Qed.

(** As many ascending indices as the interval has points: all of them. *)
Lemma sorted_full_range (l : list Z) :
  forall lo,
    StronglySorted Z.lt l ->
    Forall (fun z => lo <= z < lo + Z.of_nat (length l)) l ->
    l = Py.range lo (lo + Z.of_nat (length l)).
Proof.
  induction l as [|x l IH]; intros lo Hs Hb.
  - unfold Py.range. cbn [length].
    replace (Z.to_nat (lo + Z.of_nat 0 - lo)) with 0%nat by lia. reflexivity.
  - apply StronglySorted_inv in Hs. destruct Hs as [Hs Hx].
    inversion Hb as [|? ? Hxb Hlb]; subst. simpl length in *.
    assert (Forall (fun z => x + 1 <= z < lo + Z.of_nat (S (length l))) l) as Hl.
    { rewrite List.Forall_forall in *. intros z Hz.
      specialize (Hx z Hz). specialize (Hlb z Hz). lia. }
    pose proof (sorted_in_interval_length l _ _ Hs Hl) as Hcount.
    assert (x = lo) as -> by lia.
    rewrite range_cons by lia. f_equal.
    replace (lo + Z.of_nat (S (length l))) with (lo + 1 + Z.of_nat (length l)) by lia.
    apply IH; [exact Hs |].
    eapply Forall_impl; [exact Hl |]. intros z Hz. cbn beta in Hz. lia.
Qed.

Lemma gathered_range_id {X : Type} (rows out : list X) :
  gathered (Py.range 0 (Z.of_nat (length rows))) rows out -> out = rows.
Proof.
  intros H. unfold gathered in H.
  pose proof (Forall2_length _ _ _ H) as Hlen. rewrite range_length in Hlen.
  apply list_eq. intros i.
  destruct (Nat.lt_ge_cases i (length rows)) as [Hi | Hi].
  - destruct (Forall2_lookup_l _ _ _ i (Z.of_nat i) H) as (r & Hr & _ & Hrow).
    { rewrite range_lookup by lia. f_equal. }
    rewrite Nat2Z.id in Hrow. congruence.
  - rewrite (proj2 (lookup_ge_None rows i)) by lia.
    apply lookup_ge_None. lia.
Qed.

Lemma map_result_first_raises {X Y : Type} (f : X -> result Y) (l : list X) (e : exn) :
  l <> [] -> Forall (fun a => f a = Raise e) l -> map_result f l = Raise e.
Proof.
  intros Hne H. destruct H as [|a l Ha _]; [contradiction |].
  simpl. rewrite Ha. reflexivity.
Qed.

(** The steps of a successful L2 call. *)
Lemma l2_inv {A : Type} (vector_norm : A -> Q) (g rw c : Z) (input_pos : list Z)
    (k_val v_val : list (list (list A)))
    (keep : list (list (list Z))) (k' v' : list (list (list A))) :
  PromptCompressorL2.__call__ vector_norm g rw c input_pos k_val v_val
    = Ok (keep, k', v') ->
  Torch.gather_dim2 k_val keep = Ok k' /\ Torch.gather_dim2 v_val keep = Ok v'.
Proof.
  intros Hcall. unfold PromptCompressorL2.__call__ in Hcall.
  inv_bind Hcall as scores Hscores. inv_bind Hcall as kp Hkp.
  inv_bind Hcall as kc Hkc. inv_bind Hcall as vc Hvc.
  injection Hcall as <- <- <-. auto.
Qed.

(** X12.  The key and value buffers that L2 returns have the shape of
    the keep indices, and in every head they hold the head's keys and the
    head's values at that head's keep indices, in their order: keys and
    values are compressed alike. *)
Theorem l2_compresses_keys_and_values {A : Type} (vector_norm : A -> Q)
    (g rw c : Z) (input_pos : list Z) (k_val v_val : list (list (list A)))
    (keep : list (list (list Z))) (k' v' : list (list (list A))) :
  PromptCompressorL2.__call__ vector_norm g rw c input_pos k_val v_val
    = Ok (keep, k', v') ->
  Torch.shape3 k' = Torch.shape3 keep
  /\ Torch.shape3 v' = Torch.shape3 keep
  /\ forall b h idxs, head_row keep b h = Some idxs ->
       exists rk rv ok ov,
         head_row k_val b h = Some rk /\ head_row v_val b h = Some rv
         /\ head_row k' b h = Some ok /\ head_row v' b h = Some ov
         /\ gathered idxs rk ok /\ gathered idxs rv ov.
Proof.
  intros Hcall. destruct (l2_inv _ _ _ _ _ _ _ _ _ _ Hcall) as [Hk Hv].
  split; [eapply gather_dim2_shape, Hk |].
  split; [eapply gather_dim2_shape, Hv |].
  intros b h idxs Hidxs.
  destruct (gather_dim2_head _ _ _ b h idxs Hk Hidxs) as (rk & ok & Hrk & Hok & Gk).
  destruct (gather_dim2_head _ _ _ b h idxs Hv Hidxs) as (rv & ov & Hrv & Hov & Gv).
  exists rk, rv, ok, ov. auto 10.
Qed.

(** X13.  L2 never drops a protected slot (position below
    [global_tokens] or within the recent window) while it keeps an
    unprotected one, however many protected slots there are: with more of
    them than [max_cache_length], every slot kept is protected. *)
Theorem l2_evicts_unprotected_first {A : Type} (vector_norm : A -> Q)
    (g rw c : Z) (input_pos : list Z) (k_val v_val : list (list (list A)))
    (keep : list (list (list Z))) (k' v' : list (list (list A)))
    (b h : nat) (rows : list A) (idxs : list Z) (i j : nat) :
  PromptCompressorL2.__call__ vector_norm g rw c input_pos k_val v_val
    = Ok (keep, k', v') ->
  dim2_is (length input_pos) k_val ->
  head_row k_val b h = Some rows ->
  head_row keep b h = Some idxs ->
  (j < length input_pos)%nat ->
  l2_protected g rw input_pos j = true ->
  ~ In (Z.of_nat j) idxs ->
  In (Z.of_nat i) idxs ->
  l2_protected g rw input_pos i = true.
Proof.
  intros Hcall Hdim Hrows Hkeep Hj Hpj Hout Hin.
  destruct (l2_head _ _ _ _ _ _ _ _ _ _ b h rows Hcall Hrows)
    as (es & sel & Hfill & Htopk & Hkeep').
  rewrite Hkeep in Hkeep'. injection Hkeep' as ->.
  pose proof (dim2_is_head_row _ _ _ _ _ Hdim Hrows) as Hlen.
  assert (length (PromptCompressorL2.locality_mask g rw input_pos)
          = length (map vector_norm rows)) as Hmask
    by (unfold PromptCompressorL2.locality_mask; rewrite !length_map; now rewrite Hlen).
  assert (forall s v, rows !! s = Some v ->
            es !! s = Some (if l2_protected g rw input_pos s
                            then PromptCompressorL2.NegInf
                            else PromptCompressorL2.Fin (vector_norm v))) as Hes.
  { intros s v Hv. apply (masked_fill_lookup _ _ _ s _ Hmask Hfill).
    change (map vector_norm rows) with (vector_norm <$> rows).
    now rewrite list_lookup_fmap, Hv. }
  destruct (topk_spec _ score_leb_total score_leb_trans es c sel Htopk)
    as (_ & _ & Hnd & Hval & Hdom).
  destruct (sort_indices_spec sel Hnd) as (Hmem & _).
  apply Hmem in Hin. rewrite Hmem in Hout.
  apply in_map_iff in Hin. destruct Hin as ([s i'] & Hi' & Hsel).
  simpl in Hi'. subst i'.
  pose proof (Hval s i Hsel) as Hsi.
  destruct (lookup_lt_is_Some_2 rows i) as [vi Hvi].
  { apply lookup_lt_Some in Hsi.
    rewrite (masked_fill_length _ _ _ Hmask Hfill), length_map in Hsi. exact Hsi. }
  destruct (lookup_lt_is_Some_2 rows j) as [vj Hvj]; [lia |].
  pose proof (Hes j vj Hvj) as Hsj. rewrite Hpj in Hsj.
  rewrite (Hes i vi Hvi) in Hsi.
  destruct (l2_protected g rw input_pos i); [reflexivity |].
  injection Hsi as <-.
  pose proof (Hdom _ i _ j Hsel Hsj Hout) as Hbetter. discriminate Hbetter.
Qed.

(** X14.  On key and value buffers of one shape, as long as the span,
    with at least one head, L2 returns exactly when
    [0 <= max_cache_length <= n]; a capacity outside this range makes
    [topk] raise [RuntimeError]. *)
Theorem l2_capacity_must_fit {A : Type} (vector_norm : A -> Q)
    (g rw c : Z) (input_pos : list Z) (k_val v_val : list (list (list A)))
    (rows0 : list A) :
  let n := length input_pos in
  let run := PromptCompressorL2.__call__ vector_norm g rw c input_pos k_val v_val in
  dim2_is n k_val ->
  Forall2 (Forall2 (fun rk rv => length rv = length rk)) k_val v_val ->
  head_row k_val 0 0 = Some rows0 ->
  ((exists keep k' v', run = Ok (keep, k', v')) <-> 0 <= c <= Z.of_nat n)
  /\ (c < 0 \/ Z.of_nat n < c -> run = Raise RuntimeError).
Proof.
  intros n run Hk Hv Hhead.
  assert (c < 0 \/ Z.of_nat n < c -> run = Raise RuntimeError) as Hbad.
  { intros Hc. unfold run, PromptCompressorL2.__call__.
    set (mask := PromptCompressorL2.locality_mask g rw input_pos).
    assert (length mask = n) as Hmask
      by (unfold mask, PromptCompressorL2.locality_mask; now rewrite length_map).
    destruct (map_result2_total (fun x es => length es = n)
                (fun x => PromptCompressorL2.masked_fill x mask)
                (map (map (map vector_norm)) k_val)) as (scores & -> & Hscores).
    { apply List.Forall_forall. intros nheads Hn. apply in_map_iff in Hn.
      destruct Hn as (heads & <- & Hin).
      apply List.Forall_forall. intros x Hx. apply in_map_iff in Hx.
      destruct Hx as (rows & <- & Hrows).
      unfold dim2_is in Hk. rewrite List.Forall_forall in Hk.
      specialize (Hk heads Hin). rewrite List.Forall_forall in Hk.
      specialize (Hk rows Hrows).
      assert (length mask = length (map vector_norm rows)) as Hlen
        by (rewrite length_map; congruence).
      unfold PromptCompressorL2.masked_fill. rewrite Hlen, Nat.eqb_refl.
      eexists. split; [reflexivity |].
      rewrite length_zip_with, <- Hlen. rewrite length_map in Hlen. lia. }
    cbn [mbind result_bind].
    destruct k_val as [|[|r0 heads0] batches]; try discriminate Hhead.
    cbn [map] in Hscores.
    inversion Hscores as [|? sheads ? sbatches Hsh _]; subst.
    inversion Hsh as [|? es0 ? sh Hes0 _]; subst.
    cbn [map_result].
    assert (Torch.topk PromptCompressorL2.score_leb es0 c = Raise RuntimeError) as ->.
    { unfold Torch.topk.
      assert ((c <? 0) || (Z.of_nat (length es0) <? c) = true) as ->; [| reflexivity].
      apply orb_true_iff. rewrite Hes0. destruct Hc; [left | right]; lia. }
    reflexivity. }
  split; [| exact Hbad]. split.
  - intros (keep & k' & v' & Hrun).
    destruct (Z_lt_dec c 0) as [Hc |];
      [rewrite Hbad in Hrun by (now left); discriminate Hrun |].
    destruct (Z_lt_dec (Z.of_nat n) c) as [Hc |];
      [rewrite Hbad in Hrun by (now right); discriminate Hrun | lia].
  - intros Hc. now apply l2_returns.
Qed.

(** One head's keep indices: [max_cache_length] slots of the span,
    ascending. *)
Lemma l2_keep_row {A : Type} (vector_norm : A -> Q) (g rw c : Z) (input_pos : list Z)
    (k_val v_val : list (list (list A)))
    (keep : list (list (list Z))) (k' v' : list (list (list A)))
    (b h : nat) (rows : list A) :
  PromptCompressorL2.__call__ vector_norm g rw c input_pos k_val v_val
    = Ok (keep, k', v') ->
  dim2_is (length input_pos) k_val ->
  head_row k_val b h = Some rows ->
  exists idxs,
    head_row keep b h = Some idxs
    /\ Z.of_nat (length idxs) = c
    /\ StronglySorted Z.lt idxs
    /\ Forall (fun z => 0 <= z < Z.of_nat (length input_pos)) idxs.
Proof.
  intros Hcall Hdim Hrows.
  destruct (l2_head _ _ _ _ _ _ _ _ _ _ b h rows Hcall Hrows)
    as (es & sel & Hfill & Htopk & Hkeep).
  pose proof (dim2_is_head_row _ _ _ _ _ Hdim Hrows) as Hlen.
  assert (length (PromptCompressorL2.locality_mask g rw input_pos)
          = length (map vector_norm rows)) as Hmask
    by (unfold PromptCompressorL2.locality_mask; rewrite !length_map; now rewrite Hlen).
  pose proof (masked_fill_length _ _ _ Hmask Hfill) as Hes_len.
  rewrite length_map, Hlen in Hes_len.
  destruct (topk_spec _ score_leb_total score_leb_trans es c sel Htopk)
    as (Hc & Hsel_len & Hnd & Hval & _).
  destruct (sort_indices_spec sel Hnd) as (Hmem & Hnonneg & Hidx_len & Hsorted).
  exists (Torch.sort_indices sel).
  split; [exact Hkeep |]. split; [rewrite Hidx_len, Hsel_len; lia |].
  split; [exact Hsorted |].
  apply List.Forall_forall. intros z Hz.
  pose proof (Hnonneg z Hz) as Hz0. split; [exact Hz0 |].
  rewrite <- (Z2Nat.id z Hz0) in Hz. apply Hmem in Hz.
  apply in_map_iff in Hz. destruct Hz as ([s i] & Hi & Hin). simpl in Hi.
  apply Hval, lookup_lt_Some in Hin. lia.
Qed.

(** X15.  With [max_cache_length] equal to the span length nothing is
    evicted: in every head L2 keeps the slots [0 .. n-1] in order,
    whatever the norms and the protected slots are, and returns the
    head's keys and values as they were. *)
Theorem l2_full_capacity_keeps_all {A : Type} (vector_norm : A -> Q)
    (g rw : Z) (input_pos : list Z) (k_val v_val : list (list (list A)))
    (keep : list (list (list Z))) (k' v' : list (list (list A)))
    (b h : nat) (rk rv : list A) :
  let n := length input_pos in
  PromptCompressorL2.__call__ vector_norm g rw (Z.of_nat n) input_pos k_val v_val
    = Ok (keep, k', v') ->
  dim2_is n k_val -> dim2_is n v_val ->
  head_row k_val b h = Some rk -> head_row v_val b h = Some rv ->
  head_row keep b h = Some (Py.range 0 (Z.of_nat n))
  /\ head_row k' b h = Some rk
  /\ head_row v' b h = Some rv.
Proof.
  intros n Hcall Hk Hv Hrk Hrv.
  destruct (l2_keep_row _ _ _ _ _ _ _ _ _ _ b h rk Hcall Hk Hrk)
    as (idxs & Hkeep & Hlen & Hsorted & Hrange).
  assert (idxs = Py.range 0 (Z.of_nat n)) as ->.
  { pose proof (sorted_full_range idxs 0 Hsorted) as Hfull.
    rewrite Hlen, Z.add_0_l in Hfull. apply Hfull.
    eapply Forall_impl; [exact Hrange |]. intros z Hz. exact Hz. }
  split; [exact Hkeep |].
  destruct (l2_inv _ _ _ _ _ _ _ _ _ _ Hcall) as [Gk Gv].
  destruct (gather_dim2_head _ _ _ b h _ Gk Hkeep) as (rk' & ok & Hrk' & Hok & Gk').
  destruct (gather_dim2_head _ _ _ b h _ Gv Hkeep) as (rv' & ov & Hrv' & Hov & Gv').
  rewrite Hrk in Hrk'. injection Hrk' as <-.
  rewrite Hrv in Hrv'. injection Hrv' as <-.
  pose proof (dim2_is_head_row _ _ _ _ _ Hk Hrk) as Hlk.
  pose proof (dim2_is_head_row _ _ _ _ _ Hv Hrv) as Hlv.
  fold n in Hlk, Hlv.
  rewrite <- Hlk in Gk'. rewrite <- Hlv in Gv'.
  apply gathered_range_id in Gk', Gv'. subst ok ov. auto.
Qed.

Lemma l2_compresses_keys_and_values_witness :
  let keys : list (list (list Z)) :=
    [[ [3; -1; 4; 2; -5; 9; 2; 6]; [9; 8; 7; 6; 5; 4; 3; 2] ]] in
  let values : list (list (list Z)) :=
    [[ [10; 11; 12; 13; 14; 15; 16; 17]; [20; 21; 22; 23; 24; 25; 26; 27] ]] in
  exists rk rv ok ov,
    head_row keys 0 1 = Some rk /\ head_row values 0 1 = Some rv
    /\ head_row [[ [3; -1; 2; 6]; [9; 4; 3; 2] ]] 0 1 = Some ok
    /\ head_row [[ [10; 11; 16; 17]; [20; 25; 26; 27] ]] 0 1 = Some ov
    /\ gathered [0; 5; 6; 7] rk ok /\ gathered [0; 5; 6; 7] rv ov.
Proof.
  intros keys values.
  destruct (l2_compresses_keys_and_values
              (fun v : Z => inject_Z (Z.abs v)) 1 2 4 (Py.range 0 8) keys values
              [[ [0; 1; 6; 7]; [0; 5; 6; 7] ]]
              [[ [3; -1; 2; 6]; [9; 4; 3; 2] ]]
              [[ [10; 11; 16; 17]; [20; 25; 26; 27] ]]
              ltac:(vm_compute; reflexivity)) as (_ & _ & Hheads).
  exact (Hheads 0%nat 1%nat [0; 5; 6; 7] eq_refl).
Defined.

Lemma l2_evicts_unprotected_first_witness :
  let k_val : list (list (list Z)) := [[ [3; 1; 4; 1; 5; 9; 2; 6] ]] in
  exists keep k' v' idxs,
    PromptCompressorL2.__call__ (fun v : Z => inject_Z (Z.abs v)) 3 3 4
      (Py.range 0 8) k_val k_val = Ok (keep, k', v')
    /\ head_row keep 0 0 = Some idxs
    /\ (exists j : nat, l2_protected 3 3 (Py.range 0 8) j = true
                        /\ ~ In (Z.of_nat j) idxs)
    /\ Forall (fun i => l2_protected 3 3 (Py.range 0 8) (Z.to_nat i) = true) idxs.
Proof.
  intros k_val.
  destruct (PromptCompressorL2.__call__ (fun v : Z => inject_Z (Z.abs v)) 3 3 4
              (Py.range 0 8) k_val k_val)
    as [[[keep kc] vc]|e] eqn:E; [| vm_compute in E; discriminate E].
  assert (exists idxs, head_row keep 0 0 = Some idxs) as [idxs Hidxs].
  { vm_compute in E. injection E as <- _ _. eexists. reflexivity. }
  exists keep, kc, vc, idxs. split; [reflexivity |]. split; [exact Hidxs |].
  pose proof (fun i j =>
                l2_evicts_unprotected_first (fun v : Z => inject_Z (Z.abs v))
                  3 3 4 (Py.range 0 8) k_val k_val keep kc vc 0%nat 0%nat
                  [3; 1; 4; 1; 5; 9; 2; 6] idxs i j E) as H.
  vm_compute in E. injection E as <- _ _. injection Hidxs as <-.
  split.
  - exists 7%nat. split; [reflexivity | vm_compute; intuition discriminate].
  - repeat (apply List.Forall_cons); try apply List.Forall_nil;
      match goal with
      | |- l2_protected _ _ _ (Z.to_nat ?k) = true =>
          apply (H (Z.to_nat k) 7%nat);
            [repeat constructor | reflexivity | reflexivity | vm_compute; lia
            | reflexivity | vm_compute; intuition discriminate | vm_compute; auto]
      end.
Defined.

Lemma l2_capacity_must_fit_witness :
  let keys : list (list (list Z)) := [[ [3; -1; 4; 1; -5; 9; 2; 6] ]] in
  PromptCompressorL2.__call__ (fun v : Z => inject_Z (Z.abs v)) 1 2 9
    (Py.range 0 8) keys keys = Raise RuntimeError
  /\ exists keep k' v',
       PromptCompressorL2.__call__ (fun v : Z => inject_Z (Z.abs v)) 1 2 8
         (Py.range 0 8) keys keys = Ok (keep, k', v').
Proof.
  intros keys. split.
  - apply (l2_capacity_must_fit (fun v : Z => inject_Z (Z.abs v)) 1 2 9
             (Py.range 0 8) keys keys [3; -1; 4; 1; -5; 9; 2; 6]);
      [repeat constructor | repeat constructor | reflexivity |].
    right. vm_compute. reflexivity.
  - apply (l2_capacity_must_fit (fun v : Z => inject_Z (Z.abs v)) 1 2 8
             (Py.range 0 8) keys keys [3; -1; 4; 1; -5; 9; 2; 6]);
      [repeat constructor | repeat constructor | reflexivity |].
    vm_compute. split; discriminate.
Defined.

Lemma l2_full_capacity_keeps_all_witness :
  let keys : list (list (list Z)) := [[ [3; -1; 4; 1; -5; 9; 2; 6] ]] in
  let values : list (list (list Z)) := [[ [10; 11; 12; 13; 14; 15; 16; 17] ]] in
  exists keep k' v',
    PromptCompressorL2.__call__ (fun v : Z => inject_Z (Z.abs v)) 1 2 8
      (Py.range 0 8) keys values = Ok (keep, k', v')
    /\ head_row keep 0 0 = Some [0; 1; 2; 3; 4; 5; 6; 7]
    /\ head_row k' 0 0 = Some [3; -1; 4; 1; -5; 9; 2; 6]
    /\ head_row v' 0 0 = Some [10; 11; 12; 13; 14; 15; 16; 17].
Proof.
  intros keys values.
  destruct (PromptCompressorL2.__call__ (fun v : Z => inject_Z (Z.abs v)) 1 2 8
              (Py.range 0 8) keys values) as [[[keep k'] v'] | e] eqn:E;
    [| vm_compute in E; discriminate E].
  exists keep, k', v'. split; [reflexivity |].
  apply (l2_full_capacity_keeps_all (fun v : Z => inject_Z (Z.abs v)) 1 2
           (Py.range 0 8) keys values keep k' v' 0%nat 0%nat
           [3; -1; 4; 1; -5; 9; 2; 6] [10; 11; 12; 13; 14; 15; 16; 17]);
    [exact E | repeat constructor | repeat constructor | reflexivity | reflexivity].
Defined.

(** ** SnapKV, further *)

Lemma map_result_raises {X Y : Type} (f : X -> result Y) (l : list X) (e : exn) :
  map_result f l = Raise e -> exists a, In a l /\ f a = Raise e.
Proof.
  induction l as [|a l IH]; simpl; [discriminate |].
  destruct (f a) as [b|e'] eqn:Ea.
  - cbn. destruct (map_result f l) as [bs|e'']; [discriminate |].
    cbn. intros [= ->]. destruct (IH eq_refl) as (a' & Hin & Ha').
    exists a'. split; [now right | exact Ha'].
  - cbn. intros [= ->]. exists a. split; [now left | exact Ea].
Qed.

Lemma map_result2_raises {X Y : Type} (f : X -> result Y)
    (t : list (list X)) (e : exn) :
  map_result (map_result f) t = Raise e -> exists a, f a = Raise e.
Proof.
  intros H. apply map_result_raises in H. destruct H as (heads & _ & H).
  apply map_result_raises in H. destruct H as (a & _ & H). eauto.
Qed.

Lemma zip_result_raises {X Y C : Type} (f : X -> Y -> result C)
    (xs : list X) (ys : list Y) (e : exn) :
  Torch.zip_result f xs ys = Raise e ->
  e = RuntimeError \/ exists x y, f x y = Raise e.
Proof.
  revert xs. induction ys as [|y ys IH]; intros xs H.
  - destruct xs; discriminate H.
  - destruct xs as [|x xs]; [injection H as <-; now left |]. cbn in H.
    destruct (f x y) as [c|e'] eqn:Ec.
    + cbn in H. destruct (Torch.zip_result f xs ys) as [cs|e''] eqn:Ecs;
        [discriminate |].
      cbn in H. injection H as ->. apply (IH xs Ecs).
    + cbn in H. injection H as ->. right. eauto.
Qed.

Lemma gather_dim2_raises {X : Type} (t : list (list (list X)))
    (keep : list (list (list Z))) (e : exn) :
  Torch.gather_dim2 t keep = Raise e -> e = RuntimeError.
Proof.
  intros H. apply zip_result_raises in H.
  destruct H as [-> | (heads & kheads & H)]; [reflexivity |].
  apply zip_result_raises in H.
  destruct H as [-> | (rows & idxs & H)]; [reflexivity |].
  apply map_result_raises in H. destruct H as (i & _ & H).
  destruct (i <? 0); [congruence |].
  destruct (rows !! Z.to_nat i); [discriminate | congruence].
Qed.

Lemma topk_raises {Sc : Type} (better : Sc -> Sc -> bool) (x : list Sc) (k : Z)
    (e : exn) :
  Torch.topk better x k = Raise e -> e = RuntimeError.
Proof.
  unfold Torch.topk. destruct ((k <? 0) || _); [congruence | discriminate].
Qed.

Lemma avg_pool1d_same_length (x : list Q) :
  length (Torch.avg_pool1d PromptCompressorSnapKV.kernel_size
            (PromptCompressorSnapKV.kernel_size / 2) x) = length x.
Proof.
  unfold Torch.avg_pool1d. rewrite length_map, range_length.
  change (PromptCompressorSnapKV.kernel_size / 2) with 2.
  unfold PromptCompressorSnapKV.kernel_size. lia.
Qed.

Lemma pool_same_shape (t pooled : list (list (list Q))) :
  PromptCompressorSnapKV.pool t = Ok pooled -> Torch.shape3 pooled = Torch.shape3 t.
Proof.
  intros H. apply shape3_eq.
  apply map_result_Ok_Forall2 in H.
  eapply Forall2_impl; [exact H |]. intros heads pheads Hh. cbn beta in Hh.
  apply map_result_Ok_Forall2 in Hh.
  eapply Forall2_impl; [exact Hh |]. intros x y Hxy. cbn beta in Hxy.
  destruct x as [|a x]; [discriminate |]. injection Hxy as <-.
  apply avg_pool1d_same_length.
Qed.

Lemma pool_raises (t : list (list (list Q))) (e : exn) :
  PromptCompressorSnapKV.pool t = Raise e -> e = RuntimeError.
Proof.
  intros H. apply map_result2_raises in H. destruct H as (x & H).
  destruct x; [congruence | discriminate].
Qed.

(** X16.  SnapKV refuses a cache that is not head-specific with
    [AssertionError], before looking at its arguments.  On a
    head-specific cache (and attention weights with at least one query
    row per head) it never raises [AssertionError]: the pooling keeps the
    shape, so the second assertion cannot fail, and whatever else goes
    wrong (no key position, a capacity that does not fit, buffers of
    another shape) is torch's [RuntimeError]. *)
Theorem snapkv_asserts_head_specific {A : Type} (head_specific : bool) (c : Z)
    (input_pos : list Z) (k_val v_val : list (list (list A)))
    (attn : list (list (list (list Q)))) :
  let run := PromptCompressorSnapKV.__call__ head_specific c input_pos
               k_val v_val attn in
  (head_specific = false -> run = Raise AssertionError)
  /\ (head_specific = true ->
      Forall (Forall (fun rows => rows <> [])) attn ->
      forall e, run = Raise e -> e = RuntimeError).
Proof.
  intros run. subst run. rewrite snapkv_call_unfold. split.
  - intros ->. reflexivity.
  - intros -> _ e. cbn [py_assert mbind result_bind]. cbv zeta.
    destruct (PromptCompressorSnapKV.pool _) as [pooled|e'] eqn:Hpool;
      [| intros [= <-]; eapply pool_raises, Hpool].
    cbn [mbind result_bind].
    rewrite (bool_decide_eq_true_2 _ (pool_same_shape _ _ Hpool)).
    cbn [py_assert mbind result_bind].
    destruct (map_result _ _) as [keep|e'] eqn:Hkeep.
    2: { intros [= <-]. apply map_result2_raises in Hkeep.
         destruct Hkeep as (x & Hx).
         destruct (Torch.topk _ x c) as [sel|e''] eqn:Htopk; [discriminate |].
         injection Hx as <-. eapply topk_raises, Htopk. }
    cbn [mbind result_bind].
    destruct (Torch.gather_dim2 (snapkv_raw_priority attn) keep)
      as [hist|e'] eqn:Hhist;
      [| intros [= <-]; eapply gather_dim2_raises, Hhist].
    cbn [mbind result_bind].
    destruct (Torch.gather_dim2 k_val keep) as [kc|e'] eqn:Hkc;
      [| intros [= <-]; eapply gather_dim2_raises, Hkc].
    cbn [mbind result_bind].
    destruct (Torch.gather_dim2 v_val keep) as [vc|e'] eqn:Hvc;
      [| intros [= <-]; eapply gather_dim2_raises, Hvc].
    discriminate.
Qed.

Lemma snapkv_asserts_head_specific_witness :
  PromptCompressorSnapKV.__call__ false 2 [0; 1; 2]
    [[ [10; 11; 12] ]] [[ [20; 21; 22] ]] [[ [ [(1 # 3)%Q; (1 # 3)%Q; (1 # 3)%Q] ] ]]
  = Raise AssertionError
  /\ PromptCompressorSnapKV.__call__ true 4 [0; 1; 2]
       [[ [10; 11; 12] ]] [[ [20; 21; 22] ]] [[ [ [(1 # 3)%Q; (1 # 3)%Q; (1 # 3)%Q] ] ]]
     = Raise RuntimeError.
Proof.
  split.
  - now apply (snapkv_asserts_head_specific false 2 [0; 1; 2]
                 [[ [10; 11; 12] ]] [[ [20; 21; 22] ]]
                 [[ [ [(1 # 3)%Q; (1 # 3)%Q; (1 # 3)%Q] ] ]]).
  - destruct (PromptCompressorSnapKV.__call__ true 4 [0; 1; 2]
                [[ [10; 11; 12] ]] [[ [20; 21; 22] ]]
                [[ [ [(1 # 3)%Q; (1 # 3)%Q; (1 # 3)%Q] ] ]]) as [r|e] eqn:E;
      [vm_compute in E; discriminate E |].
    f_equal.
    destruct (snapkv_asserts_head_specific true 4 [0; 1; 2]
                [[ [10; 11; 12] ]] [[ [20; 21; 22] ]]
                [[ [ [(1 # 3)%Q; (1 # 3)%Q; (1 # 3)%Q] ] ]]) as [_ H].
    apply (H eq_refl); [| exact E].
    repeat constructor. discriminate.
Defined.

Lemma map_result2_head_row_r {X Y : Type} (f : X -> result Y)
    (t : list (list X)) (r : list (list Y)) (b h : nat) (y : Y) :
  map_result (map_result f) t = Ok r ->
  head_row r b h = Some y ->
  exists a, head_row t b h = Some a /\ f a = Ok y.
Proof.
  intros H Hy. unfold head_row in *.
  destruct (r !! b) as [rheads|] eqn:Eb; [| discriminate]. cbn in Hy.
  apply map_result_Ok_Forall2 in H.
  destruct (Forall2_lookup_r _ _ _ b rheads H Eb) as (heads & -> & Hh).
  apply map_result_Ok_Forall2 in Hh.
  destruct (Forall2_lookup_r _ _ _ h y Hh Hy) as (a & Ha & Hf).
  exists a. split; [exact Ha | exact Hf].
Qed.

(** The steps of a successful SnapKV call. *)
Lemma snapkv_inv {A : Type} (head_specific : bool) (c : Z)
    (input_pos : list Z) (k_val v_val : list (list (list A)))
    (attn : list (list (list (list Q))))
    (keep_idxs : Torch.squeezed (list (list Z)))
    (k' v' : list (list (list A))) (attn_history : list (list (list Q))) :
  PromptCompressorSnapKV.__call__ head_specific c input_pos k_val v_val attn
    = Ok (keep_idxs, k', v', attn_history) ->
  exists keep,
    keep_idxs = Torch.squeeze0 keep
    /\ length keep = length attn
    /\ Torch.gather_dim2 k_val keep = Ok k'
    /\ Torch.gather_dim2 v_val keep = Ok v'
    /\ forall b h idxs, head_row keep b h = Some idxs ->
         exists x sel,
           Torch.topk (fun a b => Qle_bool b a) x c = Ok sel
           /\ idxs = Torch.sort_indices sel.
Proof.
  rewrite snapkv_call_unfold. intros H.
  inv_bind H as u Hu. cbv zeta in H.
  inv_bind H as pooled Hpool. inv_bind H as u' Hshape.
  inv_bind H as keep Hkeep. inv_bind H as hist Hhist.
  inv_bind H as kc Hkc. inv_bind H as vc Hvc.
  injection H as <- <- <- _.
  exists keep. split; [reflexivity |]. split; [| split; [exact Hkc | split; [exact Hvc |]]].
  - rewrite (map_result_length _ _ _ Hkeep), length_map.
    unfold PromptCompressorSnapKV.pool in Hpool.
    rewrite (map_result_length _ _ _ Hpool).
    unfold snapkv_raw_priority. apply length_map.
  - intros b h idxs Hidxs.
    destruct (map_result2_head_row_r _ _ _ b h idxs Hkeep Hidxs) as (x & _ & Hx).
    inv_bind Hx as sel Htopk. injection Hx as <-.
    exists x, sel. auto.
Qed.

(** X17.  What SnapKV returns for the keys and values: in every head
    exactly [max_cache_length] keep indices, in ascending order (not in
    the order of their scores), and the head's keys and values at these
    indices; the key and value buffers have the shape of the keep
    indices.  The keep indices lose their batch dimension exactly when
    the attention has a batch of one. *)
Theorem snapkv_compresses_keys_and_values {A : Type} (head_specific : bool) (c : Z)
    (input_pos : list Z) (k_val v_val : list (list (list A)))
    (attn : list (list (list (list Q))))
    (keep_idxs : Torch.squeezed (list (list Z)))
    (k' v' : list (list (list A))) (attn_history : list (list (list Q))) :
  PromptCompressorSnapKV.__call__ head_specific c input_pos k_val v_val attn
    = Ok (keep_idxs, k', v', attn_history) ->
  exists keep,
    (length attn = 1%nat -> exists heads, keep = [heads] /\ keep_idxs = Torch.Dropped heads)
    /\ (length attn <> 1%nat -> keep_idxs = Torch.Kept keep)
    /\ Torch.shape3 k' = Torch.shape3 keep
    /\ Torch.shape3 v' = Torch.shape3 keep
    /\ forall b h idxs, head_row keep b h = Some idxs ->
         Z.of_nat (length idxs) = c
         /\ StronglySorted Z.lt idxs
         /\ exists rk rv ok ov,
              head_row k_val b h = Some rk /\ head_row v_val b h = Some rv
              /\ head_row k' b h = Some ok /\ head_row v' b h = Some ov
              /\ gathered idxs rk ok /\ gathered idxs rv ov.
Proof.
  intros Hcall.
  destruct (snapkv_inv _ _ _ _ _ _ _ _ _ _ Hcall)
    as (keep & -> & Hbatch & Hk & Hv & Hrows).
  exists keep. split; [| split; [| split; [| split]]].
  - intros H1. rewrite <- Hbatch in H1.
    destruct keep as [|heads [|]]; try discriminate H1. eauto.
  - intros H1. rewrite <- Hbatch in H1.
    destruct keep as [|heads [|]]; try reflexivity. now contradiction H1.
  - eapply gather_dim2_shape, Hk.
  - eapply gather_dim2_shape, Hv.
  - intros b h idxs Hidxs.
    destruct (Hrows b h idxs Hidxs) as (x & sel & Htopk & ->).
    destruct (topk_spec _ Qge_bool_total Qge_bool_trans x c sel Htopk)
      as (Hc & Hsel_len & Hnd & _ & _).
    destruct (sort_indices_spec sel Hnd) as (_ & _ & Hidx_len & Hsorted).
    split; [rewrite Hidx_len, Hsel_len; lia |]. split; [exact Hsorted |].
    destruct (gather_dim2_head _ _ _ b h _ Hk Hidxs) as (rk & ok & Hrk & Hok & Gk).
    destruct (gather_dim2_head _ _ _ b h _ Hv Hidxs) as (rv & ov & Hrv & Hov & Gv).
    exists rk, rv, ok, ov. auto 10.
Qed.

Lemma snapkv_compresses_keys_and_values_witness :
  let attn : list (list (list (list Q))) :=
    [[ [ repeat (1 # 20)%Q 20; [0%Q; 1%Q] ++ repeat 0%Q 18 ];
       [ [(1 # 2)%Q; 0%Q; (1 # 2)%Q] ++ repeat 0%Q 17 ] ]] in
  let k_val : list (list (list Z)) := [[ Py.range 0 20; Py.range 100 120 ]] in
  exists heads k' v' history,
    PromptCompressorSnapKV.__call__ true 17 (Py.range 0 20) k_val k_val attn
      = Ok (Torch.Dropped heads, k', v', history)
    /\ Torch.shape3 k' = [[17; 17]]%nat.
Proof.
  intros attn k_val.
  destruct (PromptCompressorSnapKV.__call__ true 17 (Py.range 0 20) k_val k_val attn)
    as [[[[ksq kc] vc] hist]|e] eqn:E; [| vm_compute in E; discriminate E].
  destruct (snapkv_compresses_keys_and_values _ _ _ _ _ _ _ _ _ _ E)
    as (keep & Hdrop & _ & Hshape & _).
  destruct (Hdrop eq_refl) as (heads & Hkeep & ->).
  exists heads, kc, vc, hist. split; [reflexivity |].
  vm_compute in E. injection E as _ <- _ _. reflexivity.
Defined.



(** ** RecentGlobal, further *)

(** [t[:, :, idx]] with indices that may count from the end. *)
Lemma index_select_wrapped {X : Type} (rows : list X) (idx : list Z) :
  Forall (fun i => - Z.of_nat (length rows) <= i < Z.of_nat (length rows)) idx ->
  exists out,
    Torch.index_select rows idx = Ok out
    /\ Forall2 (fun i r => rows !! Z.to_nat (i mod Z.of_nat (length rows)) = Some r)
               idx out.
Proof.
  intros H. apply map_result_total.
  eapply Forall_impl; [exact H |]. intros i Hi. cbn beta in Hi.
  unfold Torch.wrap_index.
  destruct (Z.ltb_spec i (- Z.of_nat (length rows))); [lia |].
  destruct (Z.leb_spec (Z.of_nat (length rows)) i); [lia |].
  cbn [orb mbind result_bind].
  assert ((if i <? 0 then i + Z.of_nat (length rows) else i)
          = i mod Z.of_nat (length rows)) as ->.
  { destruct (Z.ltb_spec i 0).
    - apply (Z.mod_unique i (Z.of_nat (length rows)) (-1)); [left |]; lia.
    - symmetry. apply Z.mod_small. lia. }
  pose proof (Z.mod_pos_bound i (Z.of_nat (length rows)) ltac:(lia)) as Hb.
  destruct (lookup_lt_is_Some_2 rows (Z.to_nat (i mod Z.of_nat (length rows))))
    as [r Hr]; [lia |].
  rewrite Hr. eauto.
Qed.

Lemma index_select_raises {X : Type} (rows : list X) (idx : list Z) (e : exn) :
  Torch.index_select rows idx = Raise e -> e = IndexError.
Proof.
  intros H. apply map_result_raises in H. destruct H as (i & _ & H).
  unfold Torch.wrap_index in H.
  destruct ((i <? - Z.of_nat (length rows)) || (Z.of_nat (length rows) <=? i));
    [cbn in H; congruence |].
  cbn in H. destruct (rows !! _); [discriminate | congruence].
Qed.

Lemma index_select_out_of_range {X : Type} (rows : list X) (idx : list Z) (i : Z) :
  In i idx ->
  i < - Z.of_nat (length rows) \/ Z.of_nat (length rows) <= i ->
  Torch.index_select rows idx = Raise IndexError.
Proof.
  intros Hin Hi.
  destruct (Torch.index_select rows idx) as [out|e] eqn:E.
  - exfalso. apply map_result_Ok_Forall2 in E.
    apply list_elem_of_In, list_elem_of_lookup in Hin. destruct Hin as [j Hj].
    destruct (Forall2_lookup_l _ _ _ j i E Hj) as (r & _ & Hr).
    unfold Torch.wrap_index in Hr.
    assert ((i <? - Z.of_nat (length rows)) || (Z.of_nat (length rows) <=? i) = true)
      as Hbad by (apply orb_true_iff; destruct Hi; [left | right]; lia).
    rewrite Hbad in Hr. discriminate Hr.
  - f_equal. eapply index_select_raises, E.
Qed.

Lemma range_app (a b c : Z) :
  a <= b -> b <= c -> Py.range a b ++ Py.range b c = Py.range a c.
Proof.
  intros Hab Hbc. unfold Py.range.
  replace (Z.to_nat (c - a)) with (Z.to_nat (b - a) + Z.to_nat (c - b))%nat by lia.
  rewrite seq_app, map_app. f_equal.
  rewrite <- (map_add_seq (Z.to_nat (b - a))), map_map.
  apply map_ext. intros i. lia.
Qed.

Lemma gathered_dim2_range_id {X : Type} (n : nat) (t out : list (list (list X))) :
  dim2_is n t -> gathered_dim2 (Py.range 0 (Z.of_nat n)) t out -> out = t.
Proof.
  intros Hd H. unfold gathered_dim2 in H. unfold dim2_is in Hd.
  induction H as [|heads oheads t out Hh _ IH]; [reflexivity |].
  inversion Hd as [|? ? Hheads Ht]; subst. f_equal; [| now apply IH].
  clear -Hh Hheads.
  induction Hh as [|rows o heads oheads Hg _ IH]; [reflexivity |].
  inversion Hheads as [|? ? Hlen Hrest]; subst. f_equal; [| now apply IH].
  apply gathered_range_id. exact Hg.
Qed.

(** X19.  A span shorter than [max_cache_length] does not stop
    RecentGlobal at its assertion, which only counts the keep indices:
    the recent block then starts below [global_tokens], or below 0.  As
    long as no index leaves [-n .. n-1] the call returns
    [max_cache_length] entries for a span of [n < max_cache_length]
    positions, negative indices counting from the end, so that positions
    are repeated; otherwise the indexing raises [IndexError]. *)
Theorem recent_global_short_span {A : Type} (g c : Z) (input_pos : list Z)
    (k_val v_val : list (list (list A))) :
  let n := Z.of_nat (length input_pos) in
  let keep := Py.range 0 g ++ Py.range (n - c + g) n in
  let run := PromptCompressorRecentGlobal.__call__ g c input_pos k_val v_val in
  let wrapped (t out : list (list (list A))) :=
    Forall2 (Forall2 (fun rows o =>
      Forall2 (fun i r => rows !! Z.to_nat (i mod n) = Some r) keep o)) t out in
  0 <= g -> g <= c -> n < c ->
  dim2_is (length input_pos) k_val -> dim2_is (length input_pos) v_val ->
  (g <= n -> c - g <= 2 * n ->
   exists k' v',
     run = Ok (keep, k', v')
     /\ Z.of_nat (length keep) = c
     /\ wrapped k_val k' /\ wrapped v_val v')
  /\ (n < g \/ 2 * n < c - g ->
      forall rows0, head_row k_val 0 0 = Some rows0 -> run = Raise IndexError).
Proof.
  intros n keep run wrapped Hg Hgc Hnc Hk Hv.
  assert (Z.of_nat (length keep) = c) as Hlen
    by (unfold keep; rewrite recent_global_keep_length; lia).
  assert (run = (k_val ← Torch.index_dim2 k_val keep;
                 v_val ← Torch.index_dim2 v_val keep;
                 Ok (keep, k_val, v_val))) as Hrun.
  { unfold run, PromptCompressorRecentGlobal.__call__. fold n. fold keep.
    rewrite Hlen, Z.eqb_refl. reflexivity. }
  split.
  - intros Hgn Hwrap.
    assert (Forall (fun i => - n <= i < n) keep) as Hidx.
    { apply List.Forall_forall. intros i Hi. apply in_app_iff in Hi.
      destruct Hi as [Hi|Hi]; apply range_In in Hi; lia. }
    assert (forall t : list (list (list A)),
              dim2_is (length input_pos) t ->
              exists out, Torch.index_dim2 t keep = Ok out /\ wrapped t out) as Hsel.
    { intros t Ht. apply map_result2_total.
      eapply Forall_impl; [exact Ht |]. intros heads Hheads.
      eapply Forall_impl; [exact Hheads |]. intros rows Hrows. cbn beta in Hrows.
      destruct (index_select_wrapped rows keep) as (out & Hout & Hw).
      - rewrite Hrows. exact Hidx.
      - exists out. split; [exact Hout |]. rewrite Hrows in Hw. exact Hw. }
    destruct (Hsel k_val Hk) as (k' & Ek & Wk).
    destruct (Hsel v_val Hv) as (v' & Ev & Wv).
    exists k', v'. rewrite Hrun, Ek. cbn [mbind result_bind]. rewrite Ev.
    auto.
  - intros Hbad rows0 Hrows0. rewrite Hrun.
    pose proof (dim2_is_head_row _ _ _ _ _ Hk Hrows0) as Hl0.
    destruct k_val as [|[|r0 heads0] batches]; try discriminate Hrows0.
    injection Hrows0 as ->.
    unfold Torch.index_dim2. cbn [map_result].
    assert (Torch.index_select rows0 keep = Raise IndexError) as ->; [| reflexivity].
    destruct Hbad as [Hbad | Hbad].
    + apply (index_select_out_of_range rows0 keep n).
      * apply in_app_iff. left. apply range_In. lia.
      * right. rewrite Hl0. fold n. lia.
    + apply (index_select_out_of_range rows0 keep (n - c + g)).
      * apply in_app_iff. right. apply range_In. lia.
      * left. rewrite Hl0. fold n. lia.
Qed.

Lemma recent_global_short_span_witness :
  PromptCompressorRecentGlobal.__call__ 2 6 [0; 1; 2; 3]
    [[ [10; 11; 12; 13] ]] [[ [20; 21; 22; 23] ]]
  = Ok ([0; 1; 0; 1; 2; 3], [[ [10; 11; 10; 11; 12; 13] ]],
        [[ [20; 21; 20; 21; 22; 23] ]])
  /\ PromptCompressorRecentGlobal.__call__ 0 6 [0; 1; 2; 3]
       [[ [10; 11; 12; 13] ]] [[ [20; 21; 22; 23] ]]
     = Ok ([-2; -1; 0; 1; 2; 3], [[ [12; 13; 10; 11; 12; 13] ]],
           [[ [22; 23; 20; 21; 22; 23] ]])
  /\ PromptCompressorRecentGlobal.__call__ 0 9 [0; 1; 2; 3]
       [[ [10; 11; 12; 13] ]] [[ [20; 21; 22; 23] ]]
     = Raise IndexError.
Proof.
  split; [| split].
  - destruct (recent_global_short_span 2 6 [0; 1; 2; 3]
                [[ [10; 11; 12; 13] ]] [[ [20; 21; 22; 23] ]])
      as [Hret _]; [lia | lia | simpl; lia | repeat constructor | repeat constructor |].
    destruct Hret as (k' & v' & Hrun & _); [simpl; lia | simpl; lia |].
    rewrite Hrun. vm_compute in Hrun. injection Hrun as <- <-. reflexivity.
  - destruct (recent_global_short_span 0 6 [0; 1; 2; 3]
                [[ [10; 11; 12; 13] ]] [[ [20; 21; 22; 23] ]])
      as [Hret _]; [lia | lia | simpl; lia | repeat constructor | repeat constructor |].
    destruct Hret as (k' & v' & Hrun & _); [simpl; lia | simpl; lia |].
    rewrite Hrun. vm_compute in Hrun. injection Hrun as <- <-. reflexivity.
  - destruct (recent_global_short_span 0 9 [0; 1; 2; 3]
                [[ [10; 11; 12; 13] ]] [[ [20; 21; 22; 23] ]])
      as [_ Hraise]; [lia | lia | simpl; lia | repeat constructor | repeat constructor |].
    apply (Hraise ltac:(right; simpl; lia) [10; 11; 12; 13] eq_refl).
Defined.

(** X20.  With [max_cache_length] equal to the span length RecentGlobal
    keeps every slot, in order, and returns the key and value buffers as
    they were. *)
Theorem recent_global_full_capacity {A : Type} (g : Z) (input_pos : list Z)
    (k_val v_val : list (list (list A))) :
  let n := Z.of_nat (length input_pos) in
  0 <= g -> g <= n ->
  dim2_is (length input_pos) k_val -> dim2_is (length input_pos) v_val ->
  PromptCompressorRecentGlobal.__call__ g n input_pos k_val v_val
  = Ok (Py.range 0 n, k_val, v_val).
Proof.
  intros n Hg Hgn Hk Hv.
  destruct (recent_global_returns g n input_pos k_val v_val Hg Hgn ltac:(lia) Hk Hv)
    as (k' & v' & Hcall & Gk & Gv).
  fold n in Hcall, Gk, Gv.
  replace (n - n + g) with g in Hcall, Gk, Gv by lia.
  rewrite range_app in Hcall, Gk, Gv by lia.
  apply (gathered_dim2_range_id _ _ _ Hk) in Gk.
  apply (gathered_dim2_range_id _ _ _ Hv) in Gv.
  subst k' v'. exact Hcall.
Qed.

Lemma recent_global_full_capacity_witness :
  PromptCompressorRecentGlobal.__call__ 2 4 [0; 1; 2; 3]
    [[ [10; 11; 12; 13] ]] [[ [20; 21; 22; 23] ]]
  = Ok ([0; 1; 2; 3], [[ [10; 11; 12; 13] ]], [[ [20; 21; 22; 23] ]]).
Proof.
  apply (recent_global_full_capacity 2 [0; 1; 2; 3]
           [[ [10; 11; 12; 13] ]] [[ [20; 21; 22; 23] ]]);
    [lia | simpl; lia | repeat constructor | repeat constructor].
Defined.

(** ** Constructing a compressor *)

Lemma fold_left_setattr (kwargs : list (string * PromptCompressor.value))
    (self : PromptCompressor.instance) :
  fold_left (fun self kv => PromptCompressor.setattr self (fst kv) (snd kv)) kwargs self
  = rev kwargs ++ self.
Proof.
  revert self. induction kwargs as [|[k v] kwargs IH]; intros self; [reflexivity |].
  cbn [fold_left rev fst snd]. rewrite IH, <- app_assoc. reflexivity.
Qed.


Lemma base__init__compatible (cls : PromptCompressor.compressor) (head_specific : bool)
    (kwargs : list (string * PromptCompressor.value)) :
  PromptCompressor.base__init__ cls head_specific kwargs
  = match PromptCompressor.getattr (rev kwargs) "is_compatible" with
    | Some _ => Raise TypeError
    | None =>
        if match cls with
           | PromptCompressor.RecentGlobal => true
           | _ => head_specific
           end
        then Ok (("head_specific"%string, PromptCompressor.Bool head_specific)
                   :: rev kwargs)
        else Raise AssertionError
    end.
Proof.
  unfold PromptCompressor.base__init__. rewrite fold_left_setattr, app_nil_r.
  unfold PromptCompressor.setattr, PromptCompressor.call_is_compatible.
  cbn [PromptCompressor.getattr].
  change (("head_specific" =? "is_compatible")%string) with false. cbn iota.
  destruct (PromptCompressor.getattr (rev kwargs) "is_compatible");
    [reflexivity |].
  cbn [mbind result_bind].
  destruct cls; cbn [PromptCompressor.is_compatible PromptCompressor.getattr];
    try change (("head_specific" =? "head_specific")%string) with true;
    cbn iota; destruct head_specific; reflexivity.
Qed.




(** X22.  A SnapKV instance always has [kernel_size = 5],
    [observation_len = 16] and the pooling layer built from them,
    whatever the keyword arguments say, since [__init__] assigns them
    after the keyword arguments; it is head-specific; and every other
    attribute is the keyword argument of that name (for RecentGlobal and
    L2, every attribute but [head_specific]). *)
Theorem snapkv_init_overrides_kwargs (cls : PromptCompressor.compressor)
    (head_specific : bool) (kwargs : list (string * PromptCompressor.value))
    (self : PromptCompressor.instance) :
  PromptCompressor.__init__ cls head_specific kwargs = Ok self ->
  PromptCompressor.getattr self "head_specific"
    = Some (PromptCompressor.Bool head_specific)
  /\ (cls <> PromptCompressor.RecentGlobal -> head_specific = true)
  /\ (cls = PromptCompressor.SnapKV ->
      PromptCompressor.getattr self "kernel_size"
        = Some (PromptCompressor.Int PromptCompressorSnapKV.kernel_size)
      /\ PromptCompressor.getattr self "observation_len"
           = Some (PromptCompressor.Int PromptCompressorSnapKV.observation_len)
      /\ PromptCompressor.getattr self "pool"
           = Some (PromptCompressor.AvgPool1d PromptCompressorSnapKV.kernel_size 1
                     (PromptCompressorSnapKV.kernel_size / 2) false false))
  /\ forall key,
       key <> "head_specific"%string ->
       (cls = PromptCompressor.SnapKV ->
        key <> "kernel_size"%string /\ key <> "observation_len"%string
        /\ key <> "pool"%string) ->
       PromptCompressor.getattr self key
       = PromptCompressor.getattr (rev kwargs) key.
Proof.
  unfold PromptCompressor.__init__. rewrite base__init__compatible.
  intros H.
  destruct (PromptCompressor.getattr (rev kwargs) "is_compatible") as [shadow|];
    [destruct cls; cbn [mbind result_bind] in H; discriminate H |].
  assert (forall key, key <> "head_specific"%string ->
            PromptCompressor.getattr
              (("head_specific"%string, PromptCompressor.Bool head_specific)
                 :: rev kwargs) key
            = PromptCompressor.getattr (rev kwargs) key) as Hrest.
  { intros key Hkey. cbn [PromptCompressor.getattr].
    destruct (String.eqb_spec "head_specific" key) as [E | _];
      [now contradiction Hkey | reflexivity]. }
  destruct cls.
  - cbn [mbind result_bind] in H. injection H as <-.
    split; [reflexivity |]. split; [intros E; now contradiction E |].
    split; [discriminate |]. intros key Hkey _. now apply Hrest.
  - destruct head_specific; [| discriminate H].
    cbn [mbind result_bind] in H. injection H as <-.
    split; [reflexivity |]. split; [reflexivity |].
    split; [intros _; repeat split; reflexivity |].
    intros key Hkey Hsnap. destruct (Hsnap eq_refl) as (Hk & Ho & Hp).
    unfold PromptCompressor.setattr. cbn [PromptCompressor.getattr].
    destruct (String.eqb_spec "pool" key) as [E | _]; [now contradiction Hp |].
    destruct (String.eqb_spec "observation_len" key) as [E | _];
      [now contradiction Ho |].
    destruct (String.eqb_spec "kernel_size" key) as [E | _];
      [now contradiction Hk |].
    destruct (String.eqb_spec "head_specific" key) as [E | _];
      [now contradiction Hkey | reflexivity].
  - destruct head_specific; [| discriminate H].
    cbn [mbind result_bind] in H. injection H as <-.
    split; [reflexivity |]. split; [reflexivity |].
    split; [discriminate |]. intros key Hkey _. now apply Hrest.
Qed.

Lemma snapkv_init_overrides_kwargs_witness :
  exists self,
    PromptCompressor.__init__ PromptCompressor.SnapKV true
      [("kernel_size"%string, PromptCompressor.Int 7);
       ("max_cache_length"%string, PromptCompressor.Int 64)] = Ok self
    /\ PromptCompressor.getattr self "kernel_size" = Some (PromptCompressor.Int 5)
    /\ PromptCompressor.getattr self "max_cache_length"
       = Some (PromptCompressor.Int 64).
Proof.
  eexists. split; [reflexivity |].
  split.
  - apply (snapkv_init_overrides_kwargs PromptCompressor.SnapKV true
             [("kernel_size"%string, PromptCompressor.Int 7);
              ("max_cache_length"%string, PromptCompressor.Int 64)] _ eq_refl).
    reflexivity.
  - reflexivity.
Defined.
